(** * Change-proposal and selective-application pipeline of [server.js]

    A shallow embedding of the Express server's workspace guard, patch
    helpers, action parser, proposal builder and apply coordinator, with
    the properties of its specification stated over that embedding.

    Conventions.
    - Text is [string] (bytes); the embedding covers ASCII text with
      [\n] line ends on a POSIX host.
    - A JavaScript exception is its message ([exn]); [try]/[catch] is a
      case analysis on a sum.
    - Asynchronous file operations are state transformers over [FileSystem];
      one request runs from start to end without interleaving.
    - A call that does not return is [None]; the handler of
      [/assistant/apply], which calls [applyPatch] of the patch package,
      is a computation of that kind ([D]).
    - Fields of request objects carry the JSON types of the action
      schema in the system prompt of [/assistant]: strings, a boolean,
      an array of strings; a field may be absent. The [actions] field of
      a parsed answer is taken with every JSON type. *)

From Stdlib Require Import ZArith Ascii String List Bool Lia.
From stdpp Require Import base option list strings gmap fin_maps pretty.

Local Open Scope string_scope.
Local Open Scope list_scope.

(** ** Exceptions *)

Definition exn := string.

(** [A] or a thrown exception. *)
Definition result (A : Type) : Type := (A + exn)%type.

(** ** Strings as JavaScript uses them *)

Module Str.

Definition slash : ascii := "/"%char.
Definition newline : ascii := "010"%char.
Definition nl : string := String newline EmptyString.

(** [s.split(c)] for a one-character separator. *)
Fixpoint split (sep : ascii) (s : string) : list string :=
  match s with
  | EmptyString => [EmptyString]
  | String c r =>
      if Ascii.eqb c sep then EmptyString :: split sep r
      else match split sep r with
           | h :: t => String c h :: t
           | [] => [String c EmptyString]
           end
  end.

(** [s.split(sep)] for a non-empty separator string; [skip] counts the
    characters of a separator occurrence still to be consumed. *)
Fixpoint split_str_go (sep : string) (skip : nat) (s : string) : list string :=
  match s with
  | EmptyString => [EmptyString]
  | String c r =>
      match skip with
      | S k => split_str_go sep k r
      | O =>
          if String.prefix sep s
          then EmptyString :: split_str_go sep (String.length sep - 1) r
          else match split_str_go sep 0 r with
               | h :: t => String c h :: t
               | [] => [String c EmptyString]
               end
      end
  end.

Definition split_str (sep s : string) : list string := split_str_go sep 0 s.

(** [l.join(sep)] *)
Fixpoint join (sep : string) (l : list string) : string :=
  match l with
  | [] => EmptyString
  | [x] => x
  | x :: r => x +:+ sep +:+ join sep r
  end.

(** [s.startsWith(p)] *)
Definition startsWith (s p : string) : bool := String.prefix p s.

Definition head (s : string) : option ascii :=
  match s with EmptyString => None | String c _ => Some c end.

Definition tail (s : string) : string :=
  match s with EmptyString => EmptyString | String _ r => r end.

Fixpoint last (s : string) : option ascii :=
  match s with
  | EmptyString => None
  | String c EmptyString => Some c
  | String _ r => last r
  end.

Definition is_empty (s : string) : bool :=
  match s with EmptyString => true | _ => false end.

(** JavaScript truthiness of a string. *)
Definition truthy (s : string) : bool := negb (is_empty s).

Fixpoint repeat (s : string) (n : nat) : string :=
  match n with O => EmptyString | S k => s +:+ repeat s k end.

Fixpoint count_char (c : ascii) (s : string) : nat :=
  match s with
  | EmptyString => 0
  | String d r => (if Ascii.eqb c d then 1 else 0) + count_char c r
  end.

(** [s.indexOf(c)], [None] for -1. *)
Fixpoint indexOf (c : ascii) (s : string) : option nat :=
  match s with
  | EmptyString => None
  | String d r => if Ascii.eqb c d then Some 0 else S <$> indexOf c r
  end.

(** [s.lastIndexOf(c)], [None] for -1. *)
Fixpoint lastIndexOf (c : ascii) (s : string) : option nat :=
  match s with
  | EmptyString => None
  | String d r =>
      match lastIndexOf c r with
      | Some i => Some (S i)
      | None => if Ascii.eqb c d then Some 0 else None
      end
  end.

Fixpoint drop (n : nat) (s : string) : string :=
  match n, s with
  | S k, String _ r => drop k r
  | _, _ => s
  end.

(** The rest of [s] after the prefix [p], when [s] starts with [p]. *)
Definition strip_prefix (p s : string) : option string :=
  if String.prefix p s then Some (drop (String.length p) s) else None.

Fixpoint drop_while (f : ascii -> bool) (s : string) : string :=
  match s with
  | EmptyString => EmptyString
  | String c r => if f c then drop_while f r else s
  end.

(** The class [\s] of regular expressions, within ASCII. *)
Definition is_space (c : ascii) : bool :=
  let n := nat_of_ascii c in
  Nat.eqb n 32 || (Nat.leb 9 n && Nat.leb n 13).

Definition is_digit (c : ascii) : bool :=
  let n := nat_of_ascii c in Nat.leb 48 n && Nat.leb n 57.

(** [s.slice(a, b)] for [0 <= a <= b]. *)
Definition slice (a b : nat) (s : string) : string := String.substring a (b - a) s.

End Str.

(** ** Node's [path] module, POSIX flavour

    [path] is a built-in of the runtime; the definitions follow its
    segment-wise behaviour: a run of separators counts once, [.] is
    dropped, [..] removes the segment before it. *)

Module Path.

Definition isAbsolute (p : string) : bool :=
  match Str.head p with Some c => Ascii.eqb c Str.slash | None => false end.

Definition hasTrailingSeparator (p : string) : bool :=
  match Str.last p with Some c => Ascii.eqb c Str.slash | None => false end.

(** One step of [normalizeString]: [res] holds the segments kept so
    far, last one first. *)
Definition push_segment (allowAboveRoot : bool) (res : list string) (seg : string)
  : list string :=
  if String.eqb seg "" then res
  else if String.eqb seg "." then res
  else if String.eqb seg ".." then
    match res with
    | [] => if allowAboveRoot then [".."] else []
    | top :: rest =>
        if String.eqb top ".."
        then (if allowAboveRoot then ".." :: res else res)
        else rest
    end
  else seg :: res.

Definition normalizeSegments (allowAboveRoot : bool) (p : string) : list string :=
  rev (fold_left (push_segment allowAboveRoot) (Str.split Str.slash p) []).

Definition normalizeString (p : string) (allowAboveRoot : bool) : string :=
  Str.join "/" (normalizeSegments allowAboveRoot p).

(** [path.normalize(p)] *)
Definition normalize (p : string) : string :=
  if Str.is_empty p then "."
  else
    let abs := isAbsolute p in
    let trailing := hasTrailingSeparator p in
    let q := normalizeString p (negb abs) in
    if Str.is_empty q then
      (if abs then "/" else if trailing then "./" else ".")
    else
      let q := if trailing then q +:+ "/" else q in
      if abs then "/" +:+ q else q.

(** The right-to-left scan of [path.resolve]: stops at the first
    absolute argument; empty arguments are skipped. *)
Fixpoint resolve_scan (args_rev : list string) (acc : string) : string * bool :=
  match args_rev with
  | [] => (acc, false)
  | p :: rest =>
      if Str.is_empty p then resolve_scan rest acc
      else
        let acc := p +:+ "/" +:+ acc in
        if isAbsolute p then (acc, true) else resolve_scan rest acc
  end.

(** [path.resolve(...args)]; [cwd] is the working directory of the
    process, an absolute path, used when no argument is absolute. *)
Definition resolve (cwd : string) (args : list string) : string :=
  let '(p, abs) := resolve_scan (rev args) "" in
  let '(p, abs) :=
    if abs then (p, true)
    else if Str.is_empty cwd then (p, false)
    else (cwd +:+ "/" +:+ p, isAbsolute cwd) in
  let q := normalizeString p (negb abs) in
  if abs then "/" +:+ q
  else if Str.is_empty q then "." else q.

(** [path.join(...args)] *)
Definition join (args : list string) : string :=
  match filter (fun a => Str.truthy a = true) args with
  | [] => "."
  | l => normalize (Str.join "/" l)
  end.

(** The components of a path as the operating system walks them. *)
Definition components (p : string) : list string :=
  filter (fun s => Str.truthy s = true) (Str.split Str.slash p).

(** [path.dirname(p)] on a normalized absolute path, the only kind
    the server passes to it. *)
Definition dirname (p : string) : string :=
  "/" +:+ Str.join "/" (removelast (components p)).

End Path.

(** ** Workspace guard *)

Section WorkspaceGuard.

(** [__dirname] of [server.js] and the working directory of the process,
    both absolute. *)
Variable server_dir : string.
Variable cwd : string.

Definition WORKSPACE_ROOT : string := Path.join [server_dir; "workspace"].

(** [rel] is [None] for an absent ([undefined]) argument. *)
Definition resolveWorkspacePath (rel : option string) : result string :=
  let target := Path.normalize (default "" rel) in
  let resolved := Path.resolve cwd [WORKSPACE_ROOT; target] in
  if negb (Str.startsWith resolved WORKSPACE_ROOT)
  then inr "Path outside workspace forbidden"
  else inl resolved.

(** The containment the guard is documented to enforce: the resolved
    path is the root or lies below it, component by component. *)
Definition within_workspace (resolved : string) : Prop :=
  Path.components WORKSPACE_ROOT `prefix_of` Path.components resolved.

End WorkspaceGuard.

(** ** The file system

    A tree of files and directories as a finite map from component lists
    to nodes; the root directory [[]] always exists. *)

Inductive node :=
  | File (content : string)
  | Dir.

Abbreviation FileSystem := (gmap (list string) node).

Inductive errno := ENOENT | ENOTDIR | EISDIR | EEXIST.

Module Fs.

Definition errno_text (e : errno) : string :=
  match e with
  | ENOENT => "ENOENT: no such file or directory"
  | ENOTDIR => "ENOTDIR: not a directory"
  | EISDIR => "EISDIR: illegal operation on a directory"
  | EEXIST => "EEXIST: file already exists"
  end.

(** [err.message] of a failed system call. *)
Definition message (e : errno) (syscall path : string) : exn :=
  errno_text e +:+ ", " +:+ syscall +:+ " '" +:+ path +:+ "'".

Definition lookup_node (fs : FileSystem) (k : list string) : option node :=
  match k with
  | [] => Some Dir
  | _ => fs !! k
  end.

(** The walk of a path through the tree: every component before the
    last one has to be a directory. *)
Fixpoint walk_from (fs : FileSystem) (seen rest : list string) : option node + errno :=
  match rest with
  | [] => inl (lookup_node fs seen)
  | x :: rest' =>
      match lookup_node fs seen with
      | Some Dir => walk_from fs (seen ++ [x]) rest'
      | Some (File _) => inr ENOTDIR
      | None => inr ENOENT
      end
  end.

Definition walk (fs : FileSystem) (p : string) : option node + errno :=
  walk_from fs [] (Path.components p).

(** [fs.stat(p)]: the kind of node at [p]. *)
Definition stat (fs : FileSystem) (p : string) : result node :=
  match walk fs p with
  | inl (Some n) => inl n
  | inl None => inr (message ENOENT "stat" p)
  | inr e => inr (message e "stat" p)
  end.

Definition isDirectory (n : node) : bool :=
  match n with Dir => true | File _ => false end.

(** [existsSync(p)] *)
Definition existsSync (fs : FileSystem) (p : string) : bool :=
  match walk fs p with
  | inl (Some _) => true
  | _ => false
  end.

(** [fs.readFile(p, 'utf-8')] *)
Definition readFile (fs : FileSystem) (p : string) : result string :=
  match walk fs p with
  | inl (Some (File c)) => inl c
  | inl (Some Dir) => inr (errno_text EISDIR +:+ ", read")
  | inl None => inr (message ENOENT "open" p)
  | inr e => inr (message e "open" p)
  end.

(** [fs.writeFile(p, content, 'utf-8')]: creates or overwrites the
    file; the parent directory has to exist. *)
Definition writeFile (p content : string) (fs : FileSystem) : result unit * FileSystem :=
  match walk fs p with
  | inl (Some Dir) => (inr (message EISDIR "open" p), fs)
  | inl _ => (inl tt, <[Path.components p := File content]> fs)
  | inr e => (inr (message e "open" p), fs)
  end.

(** [fs.mkdir(p, { recursive: true })]: creates the missing
    directories of [p] from the top; fails on a component that is a
    file. *)
Fixpoint mkdir_from (fs : FileSystem) (seen rest : list string) : FileSystem + errno :=
  match rest with
  | [] => inl fs
  | x :: rest' =>
      let k := seen ++ [x] in
      match fs !! k with
      | Some Dir => mkdir_from fs k rest'
      | Some (File _) => inr (match rest' with [] => EEXIST | _ => ENOTDIR end)
      | None => mkdir_from (<[k := Dir]> fs) k rest'
      end
  end.

Definition mkdir_recursive (p : string) (fs : FileSystem) : result unit * FileSystem :=
  match mkdir_from fs [] (Path.components p) with
  | inl fs' => (inl tt, fs')
  | inr e => (inr (message e "mkdir" p), fs)
  end.

(** Is a component before the last one a file? *)
Definition through_file (fs : FileSystem) (p : string) : bool :=
  match walk_from fs [] (removelast (Path.components p)) with
  | inl (Some (File _)) => true
  | inr ENOTDIR => true
  | _ => false
  end.

(** [fs.rm(p, { recursive: true, force: true })]: removes [p] and
    all below it; an absent path is no error. *)
Definition rm_recursive_force (p : string) (fs : FileSystem) : result unit * FileSystem :=
  if through_file fs p then (inr (message ENOTDIR "rm" p), fs)
  else
    let k := Path.components p in
    (inl tt, filter (fun kv => ¬ (k `prefix_of` kv.1)) fs).

End Fs.

(** ** Computations over a mutable state that may throw

    [M S A] is a computation over a state of type [S] that returns an [A]
    or throws; what it changed before it threw stays changed. *)

Definition M (S A : Type) : Type := S -> result A * S.

Definition ret {S A} (a : A) : M S A := fun s => (inl a, s).

Definition throw {S A} (e : exn) : M S A := fun s => (inr e, s).

Definition bind {S A B} (m : M S A) (k : A -> M S B) : M S B :=
  fun s =>
    match m s with
    | (inl a, s') => k a s'
    | (inr e, s') => (inr e, s')
    end.

(** [try { m } catch (err) { h err }] *)
Definition try_catch {S A} (m : M S A) (h : exn -> M S A) : M S A :=
  fun s =>
    match m s with
    | (inl a, s') => (inl a, s')
    | (inr e, s') => h e s'
    end.

(** A pure value that may be an exception. *)
Definition lift_result {S A} (r : result A) : M S A := fun s => (r, s).

(** Reads the state. *)
Definition gets {S A} (f : S -> A) : M S A := fun s => (inl (f s), s).

(** Updates the state. *)
Definition modify {S} (f : S -> S) : M S unit := fun s => (inl tt, f s).

(** Runs a computation on a part of the state. *)
Definition zoom {S T A} (get : S -> T) (set : T -> S -> S) (m : M T A) : M S A :=
  fun s => let '(r, t) := m (get s) in (r, set t s).

Notation "'let*' x ':=' m 'in' k" := (bind m (fun x => k))
  (at level 10, x name, m at level 100, k at level 200).

(** [for (const x of l) body(x)] *)
Fixpoint for_of {S A} (l : list A) (body : A -> M S unit) : M S unit :=
  match l with
  | [] => ret tt
  | x :: r => let* _ := body x in for_of r body
  end.

(** ** Computations that may not return

    [D S A] is a computation that ends as an [M S A] does, with a value
    or an exception, or does not return at all, which is [None]: a call
    into a loop that never ends. No [catch] sees that, and nothing after
    it runs. *)

Definition D (S A : Type) : Type := S -> option (result A * S).

(** A computation that returns. *)
Definition returns {S A} (m : M S A) : D S A := fun s => Some (m s).

(** The call of a function that gives a value, throws, or does not
    return. *)
Definition call {S A} (r : option (result A)) : D S A :=
  fun s =>
    match r with
    | Some x => Some (x, s)
    | None => None
    end.

Definition bind_d {S A B} (m : D S A) (k : A -> D S B) : D S B :=
  fun s =>
    match m s with
    | Some (inl a, s') => k a s'
    | Some (inr e, s') => Some (inr e, s')
    | None => None
    end.

(** [try { m } catch (err) { h err }] around a computation that may not
    return. *)
Definition try_catch_d {S A} (m : D S A) (h : exn -> D S A) : D S A :=
  fun s =>
    match m s with
    | Some (inl a, s') => Some (inl a, s')
    | Some (inr e, s') => h e s'
    | None => None
    end.

Notation "'let+' x ':=' m 'in' k" := (bind_d m (fun x => k))
  (at level 10, x name, m at level 100, k at level 200).

Fixpoint for_of_d {S A} (l : list A) (body : A -> D S unit) : D S unit :=
  match l with
  | [] => returns (ret tt)
  | x :: r => let+ _ := body x in for_of_d r body
  end.

(** ** JavaScript numbers in patch arithmetic

    Line numbers are integers or [NaN]; [NaN] absorbs arithmetic and
    fails every comparison. *)

Inductive jsnum :=
  | Num (z : Z)
  | NaN.

Module Js.

Definition add (a b : jsnum) : jsnum :=
  match a, b with Num x, Num y => Num (x + y) | _, _ => NaN end.

Definition sub (a b : jsnum) : jsnum :=
  match a, b with Num x, Num y => Num (x - y) | _, _ => NaN end.

Definition leb (a b : jsnum) : bool :=
  match a, b with Num x, Num y => Z.leb x y | _, _ => false end.

Definition is_zero (a : jsnum) : bool :=
  match a with Num 0 => true | _ => false end.

Definition is_one (a : jsnum) : bool :=
  match a with Num 1 => true | _ => false end.

(** [`${n}`] *)
Definition to_string (a : jsnum) : string :=
  match a with Num z => pretty z | NaN => "NaN" end.

(** [`${s}`] of a string that may be [undefined]. *)
Definition show (s : option string) : string := default "undefined" s.

(** [a[i]]: [undefined] outside the array. *)
Definition index {A} (l : list A) (i : jsnum) : option A :=
  match i with
  | Num z => if Z.leb 0 z then l !! Z.to_nat z else None
  | NaN => None
  end.

(** The start index [a.splice(i, ...)] acts on. *)
Definition splice_start (len : nat) (i : jsnum) : nat :=
  match i with
  | NaN => 0
  | Num z =>
      if Z.ltb z 0 then Z.to_nat (Z.max 0 (Z.of_nat len + z))
      else Nat.min len (Z.to_nat z)
  end.

(** [a.splice(i, 1)] *)
Definition splice_delete {A} (i : jsnum) (l : list A) : list A :=
  delete (splice_start (length l) i) l.

(** [a.splice(i, 0, x)] *)
Definition splice_insert {A} (i : jsnum) (x : A) (l : list A) : list A :=
  let k := splice_start (length l) i in take k l ++ x :: List.skipn k l.

End Js.

(** ** Structured patches *)

Record hunk := {
  oldStart : jsnum;
  oldLines : jsnum;
  newStart : jsnum;
  newLines : jsnum;
  lines : list string
}.

Record patch := {
  oldFileName : option string;
  newFileName : option string;
  hunks : list hunk
}.

(** The three functions the server imports from the [diff] package. *)
Class DiffLib := {
  (** [createPatch(fileName, oldStr, newStr, oldHeader, newHeader)] *)
  createPatch : string -> string -> string -> string -> string -> string;
}.

Class PatchLib := {
  (** [parsePatch(uniDiff)] *)
  parsePatch : string -> result (list patch);
  (** [applyPatch(source, uniDiff)]: the patched text, or [None] for
      [false]; an exception; or, the outer [None], a call that does not
      return. *)
  applyPatch : string -> string -> option (result (option string));
}.

(** ** The [diff] package: reading and applying unified diffs

    The package is a dependency of the server, not part of it.  The
    definitions follow [parsePatch] and [applyPatch] of its release 5
    (non-strict mode, no fuzz) on text whose only line break is the
    line feed. *)

Module Jsdiff.

Definition after_prefix_space (p line : string) : bool :=
  match Str.strip_prefix p line with
  | Some r => match Str.head r with Some c => Str.is_space c | None => false end
  | None => false
  end.

(** [/^(---|\+\+\+|@@)\s/] *)
Definition ends_metadata (line : string) : bool :=
  existsb (fun p => after_prefix_space p line) ["---"; "+++"; "@@"].

(** [/^(Index:|diff|---|\+\+\+)\s/] *)
Definition starts_next_index (line : string) : bool :=
  existsb (fun p => after_prefix_space p line) ["Index:"; "diff"; "---"; "+++"].

(** [s.replace(/\\\\/g, '\\')]: a doubled backslash becomes one. *)
Fixpoint unescape_backslashes (s : string) : string :=
  match s with
  | String "\" (String "\" r) => String "\" (unescape_backslashes r)
  | String c r => String c (unescape_backslashes r)
  | EmptyString => EmptyString
  end.

(** A name enclosed in double quotes loses them. *)
Definition unquote (s : string) : string :=
  match s with
  | String "034" r =>
      match Str.last r with
      | Some "034"%char => String.substring 0 (String.length r - 1) r
      | _ => s
      end
  | _ => s
  end.

(** [parseFileHeader]: a line of three minus or plus signs, white
    space and the rest; the result tells whether the line is the old or
    the new header, and the file name (the rest up to a tab). *)
Definition parseFileHeader (line : string) : option (bool * string) :=
  let parse (old : bool) (r : string) :=
    let r' := Str.drop_while Str.is_space r in
    if Nat.eqb (String.length r') (String.length r) then None
    else
      let name := hd EmptyString (Str.split "009"%char r') in
      Some (old, unquote (unescape_backslashes name)) in
  match Str.strip_prefix "---" line with
  | Some r => parse true r
  | None =>
      match Str.strip_prefix "+++" line with
      | Some r => parse false r
      | None => None
      end
  end.

(** A run of decimal digits, at least one. *)
Fixpoint digits_go (acc : Z) (seen : bool) (s : string) : option (Z * string) :=
  match s with
  | String c r =>
      if Str.is_digit c
      then digits_go (10 * acc + Z.of_nat (nat_of_ascii c - 48)) true r
      else if seen then Some (acc, s) else None
  | EmptyString => if seen then Some (acc, s) else None
  end.

Definition digits (s : string) : option (Z * string) := digits_go 0 false s.

(** [(?:,(\d+))?] *)
Definition optional_count (s : string) : option Z * string :=
  match Str.strip_prefix "," s with
  | Some r =>
      match digits r with
      | Some (n, r') => (Some n, r')
      | None => (None, s)
      end
  | None => (None, s)
  end.

(** [/@@ -(\d+)(?:,(\d+))? \+(\d+)(?:,(\d+))? @@/] at the start of
    [s]: the four groups. *)
Definition hunk_header_at (s : string) : option (Z * option Z * Z * option Z) :=
  r0 ← Str.strip_prefix "@@ -" s;
  '(a, r1) ← digits r0;
  let '(b, r2) := optional_count r1 in
  r3 ← Str.strip_prefix " +" r2;
  '(c, r4) ← digits r3;
  let '(d, r5) := optional_count r4 in
  _ ← Str.strip_prefix " @@" r5;
  Some (a, b, c, d).

(** The first place in the line where the pattern matches. *)
Fixpoint hunk_header (s : string) : option (Z * option Z * Z * option Z) :=
  match hunk_header_at s with
  | Some g => Some g
  | None =>
      match s with
      | String _ r => hunk_header r
      | EmptyString => None
      end
  end.

Definition is_operation (c : ascii) : bool :=
  existsb (Ascii.eqb c) ["+"; "-"; " "; "\"]%char.

(** The body lines of a hunk: the lines taken, the lines left, and
    whether an added and a removed line were counted. *)
Fixpoint hunk_body (ls : list string) : list string * list string * bool * bool :=
  match ls with
  | [] => ([], [], false, false)
  | l :: tl =>
      let next_file :=
        match tl with
        | l1 :: l2 :: _ =>
            String.prefix "--- " l && String.prefix "+++ " l1 && String.prefix "@@" l2
        | _ => false
        end in
      let operation :=
        match l, tl with
        | EmptyString, _ :: _ => Some " "%char
        | _, _ => Str.head l
        end in
      match operation with
      | Some op =>
          if negb next_file && is_operation op then
            let '(taken, rest, adds, removes) := hunk_body tl in
            (l :: taken, rest,
             adds || Ascii.eqb op "+" || Ascii.eqb op " ",
             removes || Ascii.eqb op "-" || Ascii.eqb op " ")
          else ([], ls, false, false)
      | None => ([], ls, false, false)
      end
  end.

(** [parseHunk]: [line] is the header, [ls] the lines after it. *)
Definition parseHunk (line : string) (ls : list string) : hunk * list string :=
  let '(os, ol, ns, nl) :=
    match hunk_header line with
    | Some (a, b, c, d) => (Num a, Num (default 1%Z b), Num c, Num (default 1%Z d))
    | None => (NaN, Num 1, NaN, Num 1)
    end in
  let os := if Js.is_zero ol then Js.add os (Num 1) else os in
  let ns := if Js.is_zero nl then Js.add ns (Num 1) else ns in
  let '(taken, rest, adds, removes) := hunk_body ls in
  let nl := if negb adds && Js.is_one nl then Num 0 else nl in
  let ol := if negb removes && Js.is_one ol then Num 0 else ol in
  ({| oldStart := os; oldLines := ol; newStart := ns; newLines := nl; lines := taken |},
   rest).

Fixpoint skip_metadata (ls : list string) : list string :=
  match ls with
  | [] => []
  | l :: tl => if ends_metadata l then ls else skip_metadata tl
  end.

Definition take_file_header (p : patch) (ls : list string) : patch * list string :=
  match ls with
  | l :: tl =>
      match parseFileHeader l with
      | Some (true, name) =>
          ({| oldFileName := Some name; newFileName := newFileName p; hunks := hunks p |}, tl)
      | Some (false, name) =>
          ({| oldFileName := oldFileName p; newFileName := Some name; hunks := hunks p |}, tl)
      | None => (p, ls)
      end
  | [] => (p, ls)
  end.

(** The hunk loop of [parseIndex]; [fuel] bounds the lines read. *)
Fixpoint parse_hunks (fuel : nat) (ls : list string) : list hunk * list string :=
  match fuel, ls with
  | S f, l :: tl =>
      if starts_next_index l then ([], ls)
      else if String.prefix "@@" l then
        let '(h, rest) := parseHunk l tl in
        let '(hs, rest') := parse_hunks f rest in
        (h :: hs, rest')
      else parse_hunks f tl
  | _, _ => ([], ls)
  end.

Definition parseIndex (ls : list string) : patch * list string :=
  let ls := skip_metadata ls in
  let p := {| oldFileName := None; newFileName := None; hunks := [] |} in
  let '(p, ls) := take_file_header p ls in
  let '(p, ls) := take_file_header p ls in
  let '(hs, ls) := parse_hunks (length ls) ls in
  ({| oldFileName := oldFileName p; newFileName := newFileName p; hunks := hs |}, ls).

Fixpoint parse_indexes (fuel : nat) (ls : list string) : list patch :=
  match fuel, ls with
  | S f, _ :: _ => let '(p, rest) := parseIndex ls in p :: parse_indexes f rest
  | _, _ => []
  end.

Definition parsePatch (uniDiff : string) : list patch :=
  let diffstr := Str.split Str.newline uniDiff in
  parse_indexes (length diffstr) diffstr.

Definition operation_of (line : string) : ascii :=
  match line with String c _ => c | EmptyString => " "%char end.

(** [hunkFits]: every context and removed line of the hunk is the
    line of the source at its place. *)
Fixpoint hunkFits (src hl : list string) (toPos : jsnum) : bool :=
  match hl with
  | [] => true
  | line :: r =>
      let op := operation_of line in
      if Ascii.eqb op " " || Ascii.eqb op "-" then
        match Js.index src toPos with
        | Some x => String.eqb x (Str.tail line) && hunkFits src r (Js.add toPos (Num 1))
        | None => false
        end
      else hunkFits src r toPos
  end.

(** The state of [distanceIterator]. *)
Record iter := {
  wantForward : bool;
  backwardExhausted : bool;
  forwardExhausted : bool;
  localOffset : Z
}.

Definition iter_init : iter :=
  {| wantForward := true; backwardExhausted := false;
     forwardExhausted := false; localOffset := 1 |}.

(** One call of the iterator: the next offset to try, [None] for
    [undefined]. The iterator calls itself once at most. *)
Fixpoint iterator (fuel : nat) (start minLine maxLine : jsnum) (st : iter)
  : option Z * iter :=
  let forward :=
    if wantForward st && negb (forwardExhausted st) then
      let st1 :=
        if backwardExhausted st
        then {| wantForward := wantForward st; backwardExhausted := true;
                forwardExhausted := forwardExhausted st;
                localOffset := localOffset st + 1 |}
        else {| wantForward := false; backwardExhausted := false;
                forwardExhausted := forwardExhausted st;
                localOffset := localOffset st |} in
      if Js.leb (Js.add start (Num (localOffset st1))) maxLine
      then inl (localOffset st1, st1)
      else inr {| wantForward := wantForward st1;
                  backwardExhausted := backwardExhausted st1;
                  forwardExhausted := true; localOffset := localOffset st1 |}
    else inr st in
  match forward with
  | inl (off, st1) => (Some off, st1)
  | inr st1 =>
      if negb (backwardExhausted st1) then
        let st2 :=
          {| wantForward := if forwardExhausted st1 then wantForward st1 else true;
             backwardExhausted := false;
             forwardExhausted := forwardExhausted st1;
             localOffset := localOffset st1 |} in
        if Js.leb minLine (Js.sub start (Num (localOffset st2)))
        then (Some (- localOffset st2)%Z,
              {| wantForward := wantForward st2; backwardExhausted := false;
                 forwardExhausted := forwardExhausted st2;
                 localOffset := localOffset st2 + 1 |})
        else
          let st3 :=
            {| wantForward := wantForward st2; backwardExhausted := true;
               forwardExhausted := forwardExhausted st2;
               localOffset := localOffset st2 |} in
          match fuel with
          | S f => iterator f start minLine maxLine st3
          | O => (None, st3)
          end
      else (None, st1)
  end.

(** The offsets the search of one hunk can run through. *)
Definition search_fuel (start minLine maxLine : jsnum) : nat :=
  let span (a b : jsnum) :=
    match a, b with Num x, Num y => Z.to_nat (y - x) | _, _ => 0 end in
  span start maxLine + span minLine start + 4.

(** The loop [for (; localOffset !== undefined; localOffset = iterator())]
    around [hunkFits]. *)
Fixpoint fit_search (fuel : nat) (fits : Z -> bool)
    (start minLine maxLine : jsnum) (st : iter) (off : Z) : option Z :=
  if fits off then Some off
  else
    match fuel with
    | S f =>
        match iterator 2 start minLine maxLine st with
        | (Some off', st') => fit_search f fits start minLine maxLine st' off'
        | (None, _) => None
        end
    | O => None
    end.

(** First loop of [applyPatch]: the offset of every hunk, or [None]
    when a hunk fits nowhere. *)
Fixpoint place_hunks (src : list string) (hs : list hunk) (offset : Z) (minLine : jsnum)
  : option (list (hunk * Z)) :=
  match hs with
  | [] => Some []
  | h :: r =>
      let maxLine := Js.sub (Num (Z.of_nat (length src))) (oldLines h) in
      let toPos := Js.sub (Js.add (Num offset) (oldStart h)) (Num 1) in
      let fits off := hunkFits src (lines h) (Js.add toPos (Num off)) in
      match fit_search (search_fuel toPos minLine maxLine) fits toPos minLine maxLine
              iter_init 0 with
      | Some off =>
          let offset' := (offset + off)%Z in
          let minLine' := Js.add (Js.add (Num offset') (oldStart h)) (oldLines h) in
          placed ← place_hunks src r offset' minLine';
          Some ((h, offset') :: placed)
      | None => None
      end
  end.

(** What the second loop carries: the lines of the text and the two
    end-of-file flags. *)
Record patching := {
  text : list string;
  removeEOFNL : bool;
  addEOFNL : bool
}.

(** The lines of one hunk applied at [toPos]; [prev] is the line of
    the hunk before the current one. *)
Fixpoint apply_lines (hl : list string) (prev : option string) (toPos : jsnum)
    (st : patching) : patching :=
  match hl with
  | [] => st
  | line :: r =>
      let op := operation_of line in
      let content := Str.tail line in
      if Ascii.eqb op " " then
        apply_lines r (Some line) (Js.add toPos (Num 1)) st
      else if Ascii.eqb op "-" then
        apply_lines r (Some line) toPos
          {| text := Js.splice_delete toPos (text st);
             removeEOFNL := removeEOFNL st; addEOFNL := addEOFNL st |}
      else if Ascii.eqb op "+" then
        apply_lines r (Some line) (Js.add toPos (Num 1))
          {| text := Js.splice_insert toPos content (text st);
             removeEOFNL := removeEOFNL st; addEOFNL := addEOFNL st |}
      else if Ascii.eqb op "\" then
        let previousOperation := prev ≫= Str.head in
        let st' :=
          match previousOperation with
          | Some "+"%char =>
              {| text := text st; removeEOFNL := true; addEOFNL := addEOFNL st |}
          | Some "-"%char =>
              {| text := text st; removeEOFNL := removeEOFNL st; addEOFNL := true |}
          | _ => st
          end in
        apply_lines r (Some line) toPos st'
      else apply_lines r (Some line) toPos st
  end.

Fixpoint apply_hunks (placed : list (hunk * Z)) (diffOffset : jsnum) (st : patching)
  : patching :=
  match placed with
  | [] => st
  | (h, off) :: r =>
      let toPos := Js.sub (Js.add (Js.add (oldStart h) (Num off)) diffOffset) (Num 1) in
      let diffOffset' := Js.add diffOffset (Js.sub (newLines h) (oldLines h)) in
      apply_hunks r diffOffset' (apply_lines (lines h) None toPos st)
  end.

Fixpoint drop_empty (ls : list string) : list string :=
  match ls with
  | l :: r => if Str.is_empty l then drop_empty r else ls
  | [] => []
  end.

(** [while (!lines[lines.length - 1]) lines.pop()]: drops the empty
    lines at the end. When all lines are empty the array is emptied, its
    last element is [undefined] from then on, and the loop of the
    package never ends: [None]. *)
Definition pop_empty (ls : list string) : option (list string) :=
  match rev (drop_empty (rev ls)) with
  | [] => None
  | ls' => Some ls'
  end.

(** [None] is the call that does not return: the loop that drops the
    empty lines at the end, on a text it empties. *)
Definition applyPatch (source uniDiff : string) : option (result (option string)) :=
  match parsePatch uniDiff with
  | [] => Some (inr "Cannot read properties of undefined (reading 'hunks')")
  | _ :: _ :: _ => Some (inr "applyPatch only works with a single input.")
  | [p] =>
      let src := Str.split Str.newline source in
      match place_hunks src (hunks p) 0 (Num 0) with
      | None => Some (inl None)
      | Some placed =>
          let st := apply_hunks placed (Num 0)
                      {| text := src; removeEOFNL := false; addEOFNL := false |} in
          if removeEOFNL st then
            match pop_empty (text st) with
            | Some ls => Some (inl (Some (Str.join Str.nl ls)))
            | None => None
            end
          else if addEOFNL st
          then Some (inl (Some (Str.join Str.nl (text st ++ [EmptyString]))))
          else Some (inl (Some (Str.join Str.nl (text st))))
      end
  end.

End Jsdiff.

(** The package as the server sees it. *)
#[export] Instance jsdiff : PatchLib := {|
  parsePatch uniDiff := inl (Jsdiff.parsePatch uniDiff);
  applyPatch := Jsdiff.applyPatch
|}.

(** ** File operations as computations *)

Definition fs_stat (p : string) : M FileSystem node := fun fs => (Fs.stat fs p, fs).

Definition fs_readFile (p : string) : M FileSystem string := fun fs => (Fs.readFile fs p, fs).

Definition fs_writeFile (p content : string) : M FileSystem unit := Fs.writeFile p content.

Definition fs_mkdir_recursive (p : string) : M FileSystem unit := Fs.mkdir_recursive p.

Definition fs_rm_recursive_force (p : string) : M FileSystem unit := Fs.rm_recursive_force p.

(** ** Actions, hunks and the patch helpers of the server *)

(** An entry of an [actions] array that is an object; every field may
    be absent. [act_isDirectory] is the truthiness of the field. *)
Record action := {
  act_action : option string;
  act_path : option string;
  act_isDirectory : bool;
  act_content : option string;
  act_selectedHunks : option (list string);
  act_originalDiff : option string
}.

(** [{ header, hunkText }] *)
Record hunk_view := {
  header : string;
  hunkText : string
}.

(** [{ ok: true, result }] or [{ ok: false, error }] *)
Inductive apply_result :=
  | Applied (result_text : string)
  | Rejected (error : string).

(** Truthiness of a string field that may be absent. *)
Definition truthy_field (f : option string) : bool :=
  match f with Some s => Str.truthy s | None => false end.

(** [f === s] for a string field that may be absent. *)
Definition field_is (f : option string) (s : string) : bool :=
  match f with Some x => String.eqb x s | None => false end.

Section PatchHelpers.

Context `{DiffLib} `{PatchLib}.
Variable server_dir : string.
Variable cwd : string.

Definition getFileContentOrEmpty (relPath : string) : M FileSystem string :=
  try_catch
    (let* resolved := lift_result (resolveWorkspacePath server_dir cwd (Some relPath)) in
     let* stat := try_catch (let* n := fs_stat resolved in ret (Some n))
                            (fun _ => ret None) in
     match stat with
     | None => ret ""
     | Some n => if Fs.isDirectory n then ret "" else fs_readFile resolved
     end)
    (fun _ => ret "").

Definition makeUnifiedDiff (pathLabel oldStr newStr : string) : string :=
  createPatch pathLabel oldStr newStr "" "".

Definition hunk_header_text (h : hunk) : string :=
  "@@ " +:+ Js.to_string (oldStart h) +:+ "," +:+ Js.to_string (oldLines h) +:+ " "
    +:+ Js.to_string (newStart h) +:+ "," +:+ Js.to_string (newLines h) +:+ " @@".

Definition hunk_view_of (h : hunk) : hunk_view :=
  let header := hunk_header_text h in
  {| header := header;
     hunkText := header +:+ Str.nl +:+ Str.join Str.nl (lines h) +:+ Str.nl |}.

(** The [catch] branch of [splitDiffIntoHunks]: the text is cut
    before every line that starts with two at signs. *)
Definition split_on_markers (unifiedDiff : string) : list hunk_view :=
  let parts :=
    imap (fun i p => match i with O => p | _ => "@@" +:+ p end)
         (Str.split_str (Str.nl +:+ "@@") unifiedDiff) in
  map (fun p => {| header := hd EmptyString (Str.split Str.newline p); hunkText := p |})
      (List.skipn 1 parts).

Definition splitDiffIntoHunks (unifiedDiff : string) : list hunk_view :=
  match parsePatch unifiedDiff with
  | inl patches => flat_map (fun p => map hunk_view_of (hunks p)) patches
  | inr _ => split_on_markers unifiedDiff
  end.

(** The result is an exception when [parsePatch], which is called
    outside the [try], throws; there is none, [None], when the call of
    [applyPatch] does not return. *)
Definition applySelectedHunks (oldStr originalUnifiedPatch : string)
    (selectedHunkTexts : list string) : option (result apply_result) :=
  match parsePatch originalUnifiedPatch with
  | inr e => Some (inr e)
  | inl [] => Some (inl (Rejected "could not parse original patch"))
  | inl (p :: _) =>
      let patchHeader :=
        "*** " +:+ Js.show (oldFileName p) +:+ Str.nl
          +:+ "--- " +:+ Js.show (newFileName p) +:+ Str.nl in
      let patchBody := Str.join Str.nl selectedHunkTexts in
      let newPatch := patchHeader +:+ patchBody in
      match applyPatch oldStr newPatch with
      | Some (inl None) => Some (inl (Rejected "applyPatch returned false"))
      | Some (inl (Some r)) => Some (inl (Applied r))
      | Some (inr e) => Some (inl (Rejected e))
      | None => None
      end
  end.

End PatchHelpers.

(** ** Prompts *)

Definition dq : string := String "034" EmptyString.

(** The system prompt of [/assistant]. *)
Definition assistant_system : string :=
  "You are a local coding assistant with direct file access. When the user gives an instruction, you must:
1) Produce a JSON " +:+ dq +:+ "actions" +:+ dq +:+ " array describing file operations to perform. Each action must be an object with:
   - " +:+ dq +:+ "action" +:+ dq +:+ ": one of " +:+ dq +:+ "create" +:+ dq +:+ ", " +:+ dq +:+ "edit" +:+ dq +:+ ", " +:+ dq +:+ "delete" +:+ dq +:+ "
   - " +:+ dq +:+ "path" +:+ dq +:+ ": relative path inside the workspace (like " +:+ dq +:+ "src/foo.js" +:+ dq +:+ ")
   - For " +:+ dq +:+ "create" +:+ dq +:+ " and " +:+ dq +:+ "edit" +:+ dq +:+ " include " +:+ dq +:+ "content" +:+ dq +:+ " (string). For " +:+ dq +:+ "create" +:+ dq +:+ " optionally include " +:+ dq +:+ "isDirectory" +:+ dq +:+ ": true.
2) Also produce a human-readable " +:+ dq +:+ "assistant_text" +:+ dq +:+ " explaining what you did or will do.
3) Output must contain a single JSON object block (no other surrounding text) so the server can parse it.
Example:
{
  " +:+ dq +:+ "actions" +:+ dq +:+ ": [
    { " +:+ dq +:+ "action" +:+ dq +:+ ": " +:+ dq +:+ "create" +:+ dq +:+ ", " +:+ dq +:+ "path" +:+ dq +:+ ": " +:+ dq +:+ "src/newfile.js" +:+ dq +:+ ", " +:+ dq +:+ "content" +:+ dq +:+ ": " +:+ dq +:+ "// sample code" +:+ dq +:+ " },
    { " +:+ dq +:+ "action" +:+ dq +:+ ": " +:+ dq +:+ "edit" +:+ dq +:+ ", " +:+ dq +:+ "path" +:+ dq +:+ ": " +:+ dq +:+ "src/existing.js" +:+ dq +:+ ", " +:+ dq +:+ "content" +:+ dq +:+ ": " +:+ dq +:+ "modified content" +:+ dq +:+ " }
  ],
  " +:+ dq +:+ "assistant_text" +:+ dq +:+ ": " +:+ dq +:+ "I created src/newfile.js and updated src/existing.js to fix X." +:+ dq +:+ "
}
Only reference files inside the workspace. Do not attempt to access system paths. If the user's intent is only a review or explanation, you may return actions: [] and include just assistant_text with suggested code snippets.".

(** The system prompt of the repair request. *)
Definition repair_system : string :=
  "You are a JSON repair assistant. The user gave an output that should contain a single JSON object. Return only the corrected JSON object, exactly one object, with valid JSON syntax. Do not include any explanation, backticks or other text.".

Definition repair_user (rawText : string) : string :=
  "Here is the original output that failed to parse:" +:+ Str.nl +:+ Str.nl +:+ rawText
    +:+ Str.nl +:+ Str.nl +:+ "Return just the corrected JSON object.".

(** ** Parsing the model output *)

(** The field [actions] of a parsed object, by what [for ... of] makes
    of it: an array; a string, which is iterated character by character;
    [false] or a zero, which [||] replaces by the empty array; or
    another value ([true], a number, an object that is no array), which
    cannot be iterated: the loop throws a [TypeError], whose message is
    the engine's. An element that is no object is [None]. *)
Inductive parsed_actions :=
  | ActionList (items : list (option action))
  | ActionChars (chars : list string)
  | ActionsFalsy
  | ActionsNotIterable (message : string).

(** The value [JSON.parse] returns, as far as the server looks at it:
    a falsy value ([null], [false], [0], the empty string), a truthy
    number, boolean or string, or an object with the two fields the
    server reads; a field that is absent or [null] is [None]. An array
    counts as an object with neither field. *)
Record proposal := {
  actions : option parsed_actions;
  assistant_text : option string
}.

(** The elements the loop [for (const act of parsed.actions || [])]
    visits, or the exception of a value that cannot be iterated. *)
Definition iterate (v : option parsed_actions) : result (list (option action)) :=
  match v with
  | None => inl []
  | Some (ActionList items) => inl items
  | Some (ActionChars chars) => inl (map (fun _ => None) chars)
  | Some ActionsFalsy => inl []
  | Some (ActionsNotIterable message) => inr message
  end.

Inductive jsvalue :=
  | JsFalsy
  | JsPrimitive
  | JsObject (p : proposal).

(** [JSON.parse(text)] of the runtime; throws on text that is not JSON. *)
Class JsonLib := {
  JSON_parse : string -> result jsvalue;
}.

(** The calls to the model backend, [callOpenAIChat] and [callQwen],
    by what they return: the generated text, or the exception of a
    missing credential or a failed request. The arguments are the
    messages (role and content) or the prompt, the model, the
    temperature (a JSON number, kept as its literal) and the token
    limit. *)
Class ModelBackend := {
  callOpenAIChat : list (string * string) -> option string -> string -> Z -> result string;
  callQwen : string -> option string -> string -> Z -> result string;
}.

Module Repair.

(** [/```(?:json)?\n?/g] replaced by nothing; [skip] counts the
    characters of a match still to be dropped. *)
Fixpoint strip_fences (skip : nat) (s : string) : string :=
  match s with
  | EmptyString => EmptyString
  | String c r =>
      match skip with
      | S k => strip_fences k r
      | O =>
          if String.prefix "```" s then
            let after := Str.drop 3 s in
            let n1 := if String.prefix "json" after then 4 else 0 in
            let n2 := if String.prefix Str.nl (Str.drop n1 after) then 1 else 0 in
            strip_fences (2 + n1 + n2) r
          else String c (strip_fences 0 r)
      end
  end.

(** [/```$/g] replaced by nothing. *)
Definition strip_final_fence (s : string) : string :=
  let n := String.length s in
  if Nat.leb 3 n && String.eqb (Str.drop (n - 3) s) "```"
  then String.substring 0 (n - 3) s else s.

(** The span from the first opening brace to the last closing one. *)
Definition isolate_object (s : string) : string :=
  match Str.indexOf "{" s, Str.lastIndexOf "}" s with
  | Some first, Some last =>
      if Nat.ltb first last then Str.slice first (last + 1) s else s
  | _, _ => s
  end.

Definition is_closing (c : ascii) : bool := Ascii.eqb c "}" || Ascii.eqb c "]".

(** [/,\s*([}\]])/g] replaced by the bracket: a comma, white space
    and a closing bracket lose the comma and the white space. *)
Fixpoint strip_trailing_commas (skip : nat) (s : string) : string :=
  match s with
  | EmptyString => EmptyString
  | String c r =>
      match skip with
      | S k => strip_trailing_commas k r
      | O =>
          if Ascii.eqb c "," then
            let r' := Str.drop_while Str.is_space r in
            match Str.head r' with
            | Some b =>
                if is_closing b
                then strip_trailing_commas (String.length r - String.length r') r
                else String c (strip_trailing_commas 0 r)
            | None => String c (strip_trailing_commas 0 r)
            end
          else String c (strip_trailing_commas 0 r)
      end
  end.

Definition balance_braces (s : string) : string :=
  let open := Str.count_char "{" s in
  let close := Str.count_char "}" s in
  if Nat.ltb close open then s +:+ Str.repeat "}" (open - close) else s.

End Repair.

Definition lightweightRepair (text : string) : string :=
  let block := Repair.strip_final_fence (Repair.strip_fences 0 text) in
  let block := Repair.isolate_object block in
  let block := Repair.strip_trailing_commas 0 block in
  Repair.balance_braces block.

Section Parser.

Context `{JsonLib} `{ModelBackend}.

(** [null] is [JsFalsy]. *)
Definition tryParseJSONBlock (text : string) : jsvalue :=
  match JSON_parse (lightweightRepair text) with
  | inl v => v
  | inr _ => JsFalsy
  end.

Definition repairJSONWithLLM (rawText provider : string) (model : option string)
  : result string :=
  if String.eqb provider "openai" then
    callOpenAIChat [("system", repair_system); ("user", repair_user rawText)]
      model "0.0" 2048
  else if String.eqb provider "qwen" then
    callQwen (repair_system +:+ Str.nl +:+ Str.nl +:+ repair_user rawText)
      model "0.0" 2048
  else inr "unknown provider for repair".

Definition js_truthy (v : jsvalue) : bool :=
  match v with JsFalsy => false | _ => true end.

(** The first parse and the one repair pass of the handler. Assigning a field to a number, boolean or string
    throws in a module; the [catch] of the repair keeps the value. *)
Definition parse_with_repair (rawText provider : string) (model : option string)
    (repairOnFail : bool) : jsvalue :=
  let parsed := tryParseJSONBlock rawText in
  if negb (js_truthy parsed) && repairOnFail then
    match repairJSONWithLLM rawText provider model with
    | inl repairText =>
        match tryParseJSONBlock repairText with
        | JsObject p =>
            if truthy_field (assistant_text p) then JsObject p
            else JsObject {| actions := actions p; assistant_text := Some repairText |}
        | v => v
        end
    | inr _ => parsed
    end
  else parsed.

End Parser.


(** ** Responses *)

(** [res.json(body)] with status 200, or [res.status(n).json({ error })]. *)
Inductive http_response (B : Type) :=
  | Ok200 (body : B)
  | Error (status : nat) (error : string).

Arguments Ok200 {B} body.
Arguments Error {B} status error.

(** ** Proposal builder: the handler of [/assistant] *)

(** [{ action, ok, diff, hunks }] or [{ action, ok, error }] *)
Record diff_entry := {
  d_action : option action;
  d_ok : bool;
  d_diff : option string;
  d_hunks : option (list hunk_view);
  d_error : option string
}.

(** The file system and the local array [diffs] of the handler. *)
Record builder_state := {
  bs_fs : FileSystem;
  diffs : list diff_entry
}.

Record assistant_request := {
  req_message : option string;
  req_provider : option string;
  req_model : option string;
  req_temperature : option string;
  req_max_tokens : option Z;
  req_repairOnFail : option bool
}.

Record assistant_body := {
  ab_provider : string;
  ab_assistant_text : string;
  ab_raw_model_text : string;
  ab_actions : parsed_actions;
  ab_diffs : list diff_entry
}.

Definition invalid_action (act : option action) : bool :=
  match act with
  | None => true
  | Some a => negb (truthy_field (act_action a)) || negb (truthy_field (act_path a))
  end.

Section ProposalBuilder.

Context `{DiffLib} `{PatchLib} `{JsonLib} `{ModelBackend}.
Variable server_dir : string.
Variable cwd : string.

Definition builder_fs {A} (m : M FileSystem A) : M builder_state A :=
  zoom bs_fs (fun t s => {| bs_fs := t; diffs := diffs s |}) m.

(** [diffs.push(e)] *)
Definition push_diff (e : diff_entry) : M builder_state unit :=
  modify (fun s => {| bs_fs := bs_fs s; diffs := diffs s ++ [e] |}).

Definition failed_entry (act : option action) (err : string) : diff_entry :=
  {| d_action := act; d_ok := false; d_diff := None; d_hunks := None;
     d_error := Some err |}.

(** The three statements the previewable kinds share. *)
Definition preview (act : option action) (path after : string) : M builder_state unit :=
  let* before := builder_fs (getFileContentOrEmpty server_dir cwd path) in
  let diff := makeUnifiedDiff path before after in
  let hunks := splitDiffIntoHunks diff in
  push_diff {| d_action := act; d_ok := true; d_diff := Some diff;
               d_hunks := Some hunks; d_error := None |}.

(** The body of the loop over [parsed.actions]. *)
Definition build_diff (act : option action) : M builder_state unit :=
  try_catch
    (match act with
     | None => push_diff (failed_entry act "invalid action object")
     | Some a =>
         if invalid_action act then push_diff (failed_entry act "invalid action object")
         else
           let path := default "" (act_path a) in
           if field_is (act_action a) "delete" then preview act path ""
           else if field_is (act_action a) "create" then
             preview act path
               (if act_isDirectory a then "" else default "" (act_content a))
           else if field_is (act_action a) "edit" then
             preview act path (default "" (act_content a))
           else push_diff (failed_entry act "unknown action type")
     end)
    (fun err => push_diff (failed_entry act err)).

Definition build_diffs (acts : list (option action)) : M builder_state unit :=
  for_of acts build_diff.

(** Runs the loop with an empty [diffs] and hands the array back. *)
Definition with_diffs (m : M builder_state unit) : M FileSystem (list diff_entry) :=
  fun fs =>
    let '(r, st) := m {| bs_fs := fs; diffs := [] |} in
    (match r with inl _ => inl (diffs st) | inr e => inr e end, bs_fs st).

(** The handler from the model's text on. The loop over the actions
    is inside the [try] of the handler only: an [actions] value that
    cannot be iterated ends the handler in its [catch]. *)
Definition assistant_respond (provider : string) (model : option string)
    (repairOnFail : bool) (rawText : string) : M FileSystem (http_response assistant_body) :=
  match parse_with_repair rawText provider model repairOnFail with
  | JsFalsy =>
      ret (Ok200 {| ab_provider := provider; ab_assistant_text := rawText;
                    ab_raw_model_text := rawText; ab_actions := ActionList [];
                    ab_diffs := [] |})
  | parsed =>
      let fields :=
        match parsed with
        | JsObject p => p
        | _ => {| actions := None; assistant_text := None |}
        end in
      let* acts := lift_result (iterate (actions fields)) in
      let* ds := with_diffs (build_diffs acts) in
      ret (Ok200 {| ab_provider := provider;
                    ab_assistant_text := default rawText (assistant_text fields);
                    ab_raw_model_text := rawText;
                    ab_actions := default (ActionList []) (actions fields);
                    ab_diffs := ds |})
  end.

(** [app.post('/assistant', ...)] *)
Definition assistant (req : assistant_request) : M FileSystem (http_response assistant_body) :=
  try_catch
    (let provider := default "openai" (req_provider req) in
     let temperature := default "0.2" (req_temperature req) in
     let max_tokens := default 1024%Z (req_max_tokens req) in
     let repairOnFail := default true (req_repairOnFail req) in
     if negb (truthy_field (req_message req)) then ret (Error 400 "message required")
     else
       let message := default "" (req_message req) in
       if String.eqb provider "openai" then
         let* rawText :=
           lift_result (callOpenAIChat [("system", assistant_system); ("user", message)]
                          (req_model req) temperature max_tokens) in
         assistant_respond provider (req_model req) repairOnFail rawText
       else if String.eqb provider "qwen" then
         let* rawText :=
           lift_result (callQwen (assistant_system +:+ Str.nl +:+ Str.nl +:+ "User:" +:+ Str.nl
                                    +:+ message +:+ Str.nl +:+ Str.nl +:+ "Return:")
                          (req_model req) temperature max_tokens) in
         assistant_respond provider (req_model req) repairOnFail rawText
       else ret (Error 400 ("Unknown provider " +:+ provider)))
    (fun err => ret (Error 500 err)).

End ProposalBuilder.

(** ** Version trail: git through the shell *)

(** [exec(command, { cwd })]: the standard output, or the exception of
    a command that failed; a command may change the file system. *)
Class Shell := {
  exec : string -> string -> M FileSystem string;
}.

(** [{ ok: true }] or [{ ok: false, error }] *)
Record git_result := {
  g_ok : bool;
  g_error : option string
}.

(** The commit message with a backslash put before every double quote. *)
Fixpoint escape_quotes (s : string) : string :=
  match s with
  | EmptyString => EmptyString
  | String c r =>
      if Ascii.eqb c "034" then String "\" (String c (escape_quotes r))
      else String c (escape_quotes r)
  end.

Section VersionTrail.

Context `{Shell}.
Variable server_dir : string.

Definition ensureGitRepo : M FileSystem unit :=
  let root := WORKSPACE_ROOT server_dir in
  let gitDir := Path.join [root; ".git"] in
  let* present := gets (fun fs => Fs.existsSync fs gitDir) in
  if negb present
  then try_catch (let* _ := exec "git init" root in ret tt) (fun _ => ret tt)
  else ret tt.

Definition gitCommit (paths : list string) (message : string) : M FileSystem git_result :=
  let root := WORKSPACE_ROOT server_dir in
  try_catch
    (let* _ := ensureGitRepo in
     let* _ :=
       match paths with
       | _ :: _ =>
           let escaped := Str.join " " (map (fun p => dq +:+ p +:+ dq) paths) in
           exec ("git add -- " +:+ escaped) root
       | [] => exec "git add -A" root
       end in
     let commitMsg :=
       if Str.truthy message then escape_quotes message else "Assistant applied changes" in
     let* _ := exec ("git commit -m " +:+ dq +:+ commitMsg +:+ dq) root in
     ret {| g_ok := true; g_error := None |})
    (fun err => ret {| g_ok := false; g_error := Some err |}).

End VersionTrail.

(** ** Apply coordinator: the handler of [/assistant/apply] *)

(** The [action] field of an outcome: the kind of a successful action,
    the action object itself of a failed one. *)
Inductive action_echo :=
  | EchoKind (kind : string)
  | EchoObject (act : option action).

(** An element of [actionsApplied]. *)
Record outcome := {
  o_ok : bool;
  o_action : action_echo;
  o_path : option string;
  o_isDirectory : bool;
  o_hunksApplied : option nat;
  o_error : option string
}.

(** The file system and the two local arrays of the handler. *)
Record apply_state := {
  st_fs : FileSystem;
  actionsApplied : list outcome;
  pathsTouched : list string
}.

(** The [actions] field of the request body. *)
Inductive actions_field :=
  | ActionsAbsent
  | ActionsNotArray
  | ActionsArray (acts : list (option action)).

Record apply_request := {
  req_actions : actions_field;
  req_commitMessage : option string
}.

(** The body of the response. [r_changedFiles] is the plain object
    [changedFiles] by its own properties, which are what the response
    carries. *)
Record apply_body := {
  r_ok : bool;
  r_actionsApplied : list outcome;
  r_gitResult : git_result;
  r_changedFiles : gmap string string
}.

(** [object[key] = value] on a plain object, for a string [value]. The
    key [__proto__] names no property of the object's own: it is the
    accessor the object inherits, whose setter ignores a value that is
    no object, so the assignment makes no property. *)
Definition object_set (key value : string) (object : gmap string string)
  : gmap string string :=
  if String.eqb key "__proto__" then object else <[key := value]> object.

Definition succeeded (kind path : string) (isDir : bool) (hunksApplied : option nat) : outcome :=
  {| o_ok := true; o_action := EchoKind kind; o_path := Some path;
     o_isDirectory := isDir; o_hunksApplied := hunksApplied; o_error := None |}.

Definition failed (act : option action) (err : string) : outcome :=
  {| o_ok := false; o_action := EchoObject act; o_path := None;
     o_isDirectory := false; o_hunksApplied := None; o_error := Some err |}.

(** [x.ok && (x.action === 'create' || x.action === 'edit')] *)
Definition is_change (x : outcome) : bool :=
  o_ok x &&
  match o_action x with
  | EchoKind k => String.eqb k "create" || String.eqb k "edit"
  | EchoObject _ => false
  end.

Section ApplyCoordinator.

Context `{PatchLib} `{Shell}.
Variable server_dir : string.
Variable cwd : string.

Definition apply_fs {A} (m : M FileSystem A) : M apply_state A :=
  zoom st_fs
    (fun t s => {| st_fs := t; actionsApplied := actionsApplied s;
                   pathsTouched := pathsTouched s |}) m.

(** [actionsApplied.push(o)] *)
Definition push_outcome (o : outcome) : M apply_state unit :=
  modify (fun s => {| st_fs := st_fs s; actionsApplied := actionsApplied s ++ [o];
                      pathsTouched := pathsTouched s |}).

(** [pathsTouched.push(p)] *)
Definition push_touched (p : string) : M apply_state unit :=
  modify (fun s => {| st_fs := st_fs s; actionsApplied := actionsApplied s;
                      pathsTouched := pathsTouched s ++ [p] |}).

(** Creating the parent directory and writing the whole content:
    the statements a file [create] and an [edit] without hunk
    selection share. *)
Definition write_whole (kind relPath resolved : string) (content : option string)
  : M apply_state unit :=
  let* _ := apply_fs (fs_mkdir_recursive (Path.dirname resolved)) in
  let* _ := apply_fs (fs_writeFile resolved (default "" content)) in
  let* _ := push_touched relPath in
  push_outcome (succeeded kind relPath false None).

(** [Array.isArray(act.selectedHunks) && act.selectedHunks.length] *)
Definition has_selection (a : action) : bool :=
  match act_selectedHunks a with
  | Some (_ :: _) => true
  | _ => false
  end.

(** The [edit] branch with a hunk selection. *)
Definition edit_selected (act : option action) (a : action) (relPath resolved : string)
  : D apply_state unit :=
  let selected := default [] (act_selectedHunks a) in
  let+ before := returns (apply_fs (getFileContentOrEmpty server_dir cwd relPath)) in
  let+ applyRes :=
    call (applySelectedHunks before (default "" (act_originalDiff a)) selected) in
  match applyRes with
  | Applied result_text =>
      returns
        (let* _ := apply_fs (fs_writeFile resolved result_text) in
         let* _ := push_touched relPath in
         push_outcome (succeeded "edit" relPath false (Some (length selected))))
  | Rejected err => returns (push_outcome (failed act err))
  end.

(** The body of the loop over [actions]. *)
Definition apply_action (act : option action) : D apply_state unit :=
  try_catch_d
    (match act with
     | None => returns (push_outcome (failed act "invalid action object"))
     | Some a =>
         if invalid_action act
         then returns (push_outcome (failed act "invalid action object"))
         else
           let relPath := default "" (act_path a) in
           let+ resolved :=
             returns (lift_result (resolveWorkspacePath server_dir cwd (Some relPath))) in
           if field_is (act_action a) "create" then
             if act_isDirectory a then
               returns
                 (let* _ := apply_fs (fs_mkdir_recursive resolved) in
                  push_outcome (succeeded "create" relPath true None))
             else returns (write_whole "create" relPath resolved (act_content a))
           else if field_is (act_action a) "edit" then
             if has_selection a then edit_selected act a relPath resolved
             else returns (write_whole "edit" relPath resolved (act_content a))
           else if field_is (act_action a) "delete" then
             returns
               (let* _ := apply_fs (fs_rm_recursive_force resolved) in
                let* _ := push_touched relPath in
                push_outcome (succeeded "delete" relPath false None))
           else returns (push_outcome (failed act "unknown action type"))
     end)
    (fun err => returns (push_outcome (failed act err))).

Definition apply_actions (acts : list (option action)) : D apply_state unit :=
  for_of_d acts apply_action.

(** One round of the loop that reads the changed files back. *)
Definition read_back_one (changedFiles : gmap string string) (a : outcome)
  : M FileSystem (gmap string string) :=
  let key := Js.show (o_path a) in
  try_catch
    (let* resolved := lift_result (resolveWorkspacePath server_dir cwd (o_path a)) in
     let* content := fs_readFile resolved in
     ret (object_set key content changedFiles))
    (fun err => ret (object_set key ("<<failed to read: " +:+ err +:+ ">>") changedFiles)).

Fixpoint read_back (changedFiles : gmap string string) (l : list outcome)
  : M FileSystem (gmap string string) :=
  match l with
  | [] => ret changedFiles
  | a :: r =>
      let* changedFiles' := read_back_one changedFiles a in
      read_back changedFiles' r
  end.

(** The handler after the check of [actions], with its local arrays. *)
Definition apply_batch (acts : list (option action)) (commitMessage : string)
  : D apply_state (http_response apply_body) :=
  let+ _ := apply_actions acts in
  returns
    (let* touched := gets pathsTouched in
     let* gitResult :=
       try_catch (apply_fs (gitCommit server_dir touched commitMessage))
                 (fun err => ret {| g_ok := false; g_error := Some err |}) in
     let* applied := gets actionsApplied in
     let* changedFiles :=
       apply_fs (read_back ∅ (List.filter is_change applied)) in
     ret (Ok200 {| r_ok := true; r_actionsApplied := applied;
                   r_gitResult := gitResult; r_changedFiles := changedFiles |})).

(** Runs a computation with two empty local arrays. *)
Definition with_arrays {A} (m : D apply_state A) : D FileSystem A :=
  fun fs =>
    match m {| st_fs := fs; actionsApplied := []; pathsTouched := [] |} with
    | Some (r, st) => Some (r, st_fs st)
    | None => None
    end.

(** [app.post('/assistant/apply', ...)]: a request whose loop does not
    return gets no response. *)
Definition assistant_apply (req : apply_request) : D FileSystem (http_response apply_body) :=
  try_catch_d
    (let commitMessage := default "Assistant applied changes" (req_commitMessage req) in
     match req_actions req with
     | ActionsNotArray => returns (ret (Error 400 "actions must be array"))
     | ActionsAbsent => with_arrays (apply_batch [] commitMessage)
     | ActionsArray acts => with_arrays (apply_batch acts commitMessage)
     end)
    (fun err => returns (ret (Error 500 err))).

End ApplyCoordinator.

(** ** A test host

    The server installed in [/app] on a machine without git and without
    model credentials, whose model never answers in JSON, and a diff
    producer that replaces the whole file in one hunk. The theorems hold
    for every host; this one serves the concrete examples. *)

Definition app_dir : string := "/app".
Definition root_dir : string := "/".

#[export] Instance no_git : Shell := {|
  exec command _ := throw ("Command failed: " +:+ command)
|}.

#[export] Instance no_credentials : ModelBackend := {|
  callOpenAIChat _ _ _ _ := inr "OPENAI_API_KEY not set on server";
  callQwen _ _ _ _ := inr "QWEN_URL not set on server"
|}.

#[export] Instance prose_only : JsonLib := {|
  JSON_parse _ := inr "Unexpected token in JSON"
|}.

(** A model that answers every request with an object whose [actions]
    is the number five, and the parse of that answer. *)
Definition answer_five : string := "{" +:+ dq +:+ "actions" +:+ dq +:+ ":5}".

Definition answers_five : ModelBackend := {|
  callOpenAIChat _ _ _ _ := inl answer_five;
  callQwen _ _ _ _ := inl answer_five
|}.

Definition parses_five : JsonLib := {|
  JSON_parse text :=
    if String.eqb text answer_five
    then inl (JsObject {| actions := Some (ActionsNotIterable "parsed.actions is not iterable");
                          assistant_text := None |})
    else inr "Unexpected token in JSON"
|}.

Module WholeFile.

(** The lines of a text for a hunk, each behind [sign]; a text
    without a final line feed gets the marker line of the format. *)
Definition signed_lines (sign text : string) : list string :=
  match rev (Str.split Str.newline text) with
  | [] => []
  | last :: before =>
      let body := map (fun l => sign +:+ l) (rev before) in
      if Str.is_empty last then body
      else body ++ [sign +:+ last; "\ No newline at end of file"]
  end.

Definition count (text : string) : nat :=
  match rev (Str.split Str.newline text) with
  | [] => 0
  | last :: before => length before + (if Str.is_empty last then 0 else 1)
  end.

Definition range (n : nat) : string :=
  (if Nat.eqb n 0 then "0" else "1") +:+ "," +:+ pretty n.

Definition createPatch (fileName oldStr newStr oldHeader newHeader : string) : string :=
  let tab := String "009" EmptyString in
  let head :=
    ["Index: " +:+ fileName;
     "===================================================================";
     "--- " +:+ fileName +:+ tab +:+ oldHeader;
     "+++ " +:+ fileName +:+ tab +:+ newHeader] in
  let body :=
    if String.eqb oldStr newStr then []
    else ("@@ -" +:+ range (count oldStr) +:+ " +" +:+ range (count newStr) +:+ " @@")
           :: signed_lines "-" oldStr ++ signed_lines "+" newStr in
  Str.join Str.nl (head ++ body) +:+ Str.nl.

End WholeFile.

#[export] Instance whole_file : DiffLib := {|
  createPatch := WholeFile.createPatch
|}.

(** The workspace right after the server started: the two directories. *)
Definition fresh_workspace : FileSystem :=
  <[ ["app"; "workspace"] := Dir ]> (<[ ["app"] := Dir ]> ∅).

(** The text [a] and the text [b], one line each, and the unified diff
    [createPatch('f', a, b, '', '')] between them. *)
Definition text_a : string := "a" +:+ Str.nl.
Definition text_b : string := "b" +:+ Str.nl.

Definition diff_a_b : string :=
  Str.join Str.nl
    ["Index: f";
     "===================================================================";
     "--- f" +:+ String "009" EmptyString;
     "+++ f" +:+ String "009" EmptyString;
     "@@ -1,1 +1,1 @@";
     "-a";
     "+b";
     ""].

(** The workspace with the file [f] holding [text_a], the edit of [f]
    with the one hunk the preview shows for the diff from [text_a] to
    [text_b], and the state of the apply loop at its start. *)
Definition workspace_with_f : FileSystem :=
  <[ ["app"; "workspace"; "f"] := File text_a ]> fresh_workspace.

Definition edit_f_selected : action :=
  {| act_action := Some "edit"; act_path := Some "f"; act_isDirectory := false;
     act_content := Some text_b;
     act_selectedHunks := Some (map hunkText (splitDiffIntoHunks diff_a_b));
     act_originalDiff := Some diff_a_b |}.

Definition loop_start (fs : FileSystem) : apply_state :=
  {| st_fs := fs; actionsApplied := []; pathsTouched := [] |}.

(** A text of twelve lines, the same text with its first and its last
    line changed, and the two hunks of the unified diff between them
    with the headers the diff has. *)
Definition text_long : string :=
  Str.join Str.nl ["a"; "1"; "2"; "3"; "4"; "5"; "6"; "7"; "8"; "9"; "10"; "c"; ""].

Definition text_long_changed : string :=
  Str.join Str.nl ["b"; "1"; "2"; "3"; "4"; "5"; "6"; "7"; "8"; "9"; "10"; "d"; ""].

Definition hunk_first : string :=
  Str.join Str.nl ["@@ -1,5 +1,5 @@"; "-a"; "+b"; " 1"; " 2"; " 3"; " 4"; ""].

Definition hunk_last : string :=
  Str.join Str.nl ["@@ -8,5 +8,5 @@"; " 7"; " 8"; " 9"; " 10"; "-c"; "+d"; ""].

Definition diff_long : string :=
  Str.join Str.nl
    ["Index: f";
     "===================================================================";
     "--- f" +:+ String "009" EmptyString;
     "+++ f" +:+ String "009" EmptyString;
     hunk_first +:+ hunk_last].

(** The two actions of the sixth property, and a directory create. *)
Definition create_a_txt : action :=
  {| act_action := Some "create"; act_path := Some "a.txt"; act_isDirectory := false;
     act_content := Some "x"; act_selectedHunks := None; act_originalDiff := None |}.

Definition delete_missing_txt : action :=
  {| act_action := Some "delete"; act_path := Some "missing.txt"; act_isDirectory := false;
     act_content := None; act_selectedHunks := None; act_originalDiff := None |}.

Definition create_dir_d : action :=
  {| act_action := Some "create"; act_path := Some "d"; act_isDirectory := true;
     act_content := None; act_selectedHunks := None; act_originalDiff := None |}.

Definition batch_request (acts : list (option action)) : apply_request :=
  {| req_actions := ActionsArray acts; req_commitMessage := None |}.

(** An edit of the file [new.txt], which does not exist, with one
    selected hunk that adds an empty line and has the marker of a
    missing line break at the end. *)
Definition hunk_empty_line : string :=
  Str.join Str.nl ["@@ -0,0 +1 @@"; "+"; "\ No newline at end of file"].

Definition edit_new_selected : action :=
  {| act_action := Some "edit"; act_path := Some "new.txt"; act_isDirectory := false;
     act_content := None; act_selectedHunks := Some [hunk_empty_line];
     act_originalDiff := Some diff_a_b |}.

(** A file whose name is [__proto__]. *)
Definition create_proto : action :=
  {| act_action := Some "create"; act_path := Some "__proto__"; act_isDirectory := false;
     act_content := Some "x"; act_selectedHunks := None; act_originalDiff := None |}.

(** The edit of [f] that has no content and no hunk selection. *)
Definition edit_f_no_content : action :=
  {| act_action := Some "edit"; act_path := Some "f"; act_isDirectory := false;
     act_content := None; act_selectedHunks := None; act_originalDiff := None |}.

(** ** Vocabulary of the specification *)

(** The current content of a workspace path as the specification
    describes it: the content of the file the path resolves to, and the
    empty string for a path that is missing, a directory, or outside. *)
Definition content_or_empty (server_dir cwd : string) (fs : FileSystem) (relPath : string) : string :=
  match resolveWorkspacePath server_dir cwd (Some relPath) with
  | inl resolved =>
      match Fs.readFile fs resolved with
      | inl content => content
      | inr _ => ""
      end
  | inr _ => ""
  end.

(** An action the builder can preview: an object with a truthy kind and
    path whose kind is one of the three known ones. *)
Definition previewable (act : option action) : bool :=
  match act with
  | None => false
  | Some a =>
      negb (invalid_action act)
      && (field_is (act_action a) "delete" || field_is (act_action a) "create"
          || field_is (act_action a) "edit")
  end.

(** The entry of a proposal that belongs to an action: it carries the
    action; a previewable action has [ok] with a diff and its hunks, any
    other one has no [ok] and an error. *)
Definition entry_for (act : option action) (e : diff_entry) : Prop :=
  d_action e = act
  /\ if previewable act
     then d_ok e = true /\ is_Some (d_diff e) /\ is_Some (d_hunks e) /\ d_error e = None
     else d_ok e = false /\ is_Some (d_error e) /\ d_diff e = None /\ d_hunks e = None.

(** Structured parsing fails for good: the first parse gives no truthy
    value, and the repair pass is disabled, or its request throws, or the
    parse of its answer gives no truthy value either. *)
Definition parsing_fails `{JsonLib} `{ModelBackend} (rawText provider : string)
    (model : option string) (repairOnFail : bool) : Prop :=
  tryParseJSONBlock rawText = JsFalsy
  /\ (repairOnFail = false
      \/ (exists e, repairJSONWithLLM rawText provider model = inr e)
      \/ (exists repairText,
            repairJSONWithLLM rawText provider model = inl repairText
            /\ tryParseJSONBlock repairText = JsFalsy)).

(** The response with the raw text as the narrative and no action. *)
Definition narrative_only (provider rawText : string) : assistant_body :=
  {| ab_provider := provider; ab_assistant_text := rawText; ab_raw_model_text := rawText;
     ab_actions := ActionList []; ab_diffs := [] |}.

(** The outcome that belongs to an action: a failure carries the action
    itself and an error; a success carries the kind and the path of the
    action. *)
Definition outcome_for (act : option action) (o : outcome) : Prop :=
  (o_ok o = false /\ o_action o = EchoObject act /\ is_Some (o_error o))
  \/ (o_ok o = true /\ o_error o = None
      /\ exists a kind path,
          act = Some a /\ act_action a = Some kind /\ act_path a = Some path
          /\ o_action o = EchoKind kind /\ o_path o = Some path).

(** The state of the apply loop with another file system. *)
Definition with_fs (fs : FileSystem) (st : apply_state) : apply_state :=
  {| st_fs := fs; actionsApplied := actionsApplied st; pathsTouched := pathsTouched st |}.

(** The state of the apply loop after a success that touched [relPath]. *)
Definition record_success (fs : FileSystem) (o : outcome) (relPath : string)
    (st : apply_state) : apply_state :=
  {| st_fs := fs; actionsApplied := actionsApplied st ++ [o];
     pathsTouched := pathsTouched st ++ [relPath] |}.

(** The state of the apply loop after an outcome that touched nothing. *)
Definition record_outcome (fs : FileSystem) (o : outcome) (st : apply_state) : apply_state :=
  {| st_fs := fs; actionsApplied := actionsApplied st ++ [o];
     pathsTouched := pathsTouched st |}.

(** What reading a path back gives: the content of the file it resolves
    to, or the marker text with the message of the failure. *)
Definition read_value (server_dir cwd : string) (fs : FileSystem) (path : option string)
  : string :=
  match resolveWorkspacePath server_dir cwd path with
  | inl resolved =>
      match Fs.readFile fs resolved with
      | inl content => content
      | inr err => "<<failed to read: " +:+ err +:+ ">>"
      end
  | inr err => "<<failed to read: " +:+ err +:+ ">>"
  end.

(** The paths of the outcomes that are a successful create or edit. *)
Definition changed_paths (outs : list outcome) : list string :=
  map (fun o => Js.show (o_path o)) (List.filter is_change outs).

(** A path that can be a property of a plain object's own. *)
Definition own_key (p : string) : bool := negb (String.eqb p "__proto__").

(** An edit action with a hunk selection whose selective apply does
    not return on some content of the file. *)
Definition selection_hangs `{PatchLib} (act : option action) : Prop :=
  exists (a : action) (source : string),
    act = Some a
    /\ field_is (act_action a) "edit" = true
    /\ has_selection a = true
    /\ applySelectedHunks source (default "" (act_originalDiff a))
         (default [] (act_selectedHunks a)) = None.

(** The sixth property of the specification as it is worded: the keys
    of [changedFiles] are the paths of the successful creates and edits,
    and each key has the content of its file after the batch. *)
Definition changed_files_are_contents `{PatchLib} `{Shell} (server_dir cwd : string) : Prop :=
  forall (acts : list (option action)) (commitMessage : option string)
         (fs fs' : FileSystem) (body : apply_body),
    assistant_apply server_dir cwd
      {| req_actions := ActionsArray acts; req_commitMessage := commitMessage |} fs
    = Some (inl (Ok200 body), fs') ->
    dom (r_changedFiles body) = list_to_set (changed_paths (r_actionsApplied body))
    /\ forall p v,
         r_changedFiles body !! p = Some v ->
         exists resolved,
           resolveWorkspacePath server_dir cwd (Some p) = inl resolved
           /\ Fs.readFile fs' resolved = inl v.

(** A shell command leaves the node at [k] as it is. *)
Definition exec_keeps `{Shell} (k : list string) : Prop :=
  forall (command dir : string) (fs : FileSystem), snd (exec command dir fs) !! k = fs !! k.

(** A computation on the file system leaves the node at [k] as it is. *)
Definition keeps {A : Type} (k : list string) (m : M FileSystem A) : Prop :=
  forall fs : FileSystem, snd (m fs) !! k = fs !! k.

(** A path component: not empty and without a separator. *)
Definition component_ok (s : string) : Prop :=
  Str.truthy s = true /\ Str.count_char Str.slash s = 0.

(** * The rest of the server, and the text helpers of its client *)

(** ** More of JavaScript's strings *)

Module Text.

(** [s.trimEnd()], within ASCII. *)
Fixpoint trim_end (s : string) : string :=
  match s with
  | EmptyString => EmptyString
  | String c r =>
      let r' := trim_end r in
      if Str.is_empty r' && Str.is_space c then EmptyString else String c r'
  end.

(** [s.trim()], within ASCII. *)
Definition trim (s : string) : string := trim_end (Str.drop_while Str.is_space s).

(** [s.replace(/c/g, by)] for a character [c]. *)
Fixpoint replace_char (c : ascii) (by_ : string) (s : string) : string :=
  match s with
  | EmptyString => EmptyString
  | String d r =>
      if Ascii.eqb d c then by_ +:+ replace_char c by_ r
      else String d (replace_char c by_ r)
  end.

(** [s.includes(c)] for a character [c]. *)
Definition includes (c : ascii) (s : string) : bool :=
  negb (Nat.eqb (Str.count_char c s) 0).

(** [parseInt(s, 10)]: white space, a sign, and the digits up to the
    first other character; [NaN] without a digit. *)
Definition parseInt (s : string) : jsnum :=
  let s := Str.drop_while Str.is_space s in
  let '(negative, s) :=
    match s with
    | String "-" r => (true, r)
    | String "+" r => (false, r)
    | _ => (false, s)
    end in
  match Jsdiff.digits s with
  | Some (n, _) => Num (if negative then - n else n)
  | None => NaN
  end.

End Text.

(** ** More of the file system *)

Module Fs2.

(** [fs.writeFile(p, content, { flag: 'wx' })]: creates the file and
    fails with [EEXIST] where something exists already. The failure
    comes with its code, which the caller looks at. *)
Definition writeFile_exclusive (p content : string) (fs : FileSystem)
  : (unit + errno * exn) * FileSystem :=
  match Fs.walk fs p with
  | inl (Some _) => (inr (EEXIST, Fs.message EEXIST "open" p), fs)
  | inl None => (inl tt, <[Path.components p := File content]> fs)
  | inr e => (inr (e, Fs.message e "open" p), fs)
  end.

(** The name under which [key] is an entry of the directory [k]. *)
Fixpoint child_name (k key : list string) : option string :=
  match k, key with
  | [], [name] => Some name
  | a :: k', b :: key' => if String.eqb a b then child_name k' key' else None
  | _, _ => None
  end.

(** The entries of the directory at [k]: name, and whether it is a
    directory. Their order is the file system's; the model fixes one
    and the properties below speak of membership only. *)
Definition children (fs : FileSystem) (k : list string) : list (string * bool) :=
  omap (fun kv : list string * node =>
          match child_name k kv.1 with
          | Some name => Some (name, Fs.isDirectory kv.2)
          | None => None
          end)
       (map_to_list fs).

(** [fs.readdir(p, { withFileTypes: true })] *)
Definition readdir (fs : FileSystem) (p : string) : result (list (string * bool)) :=
  match Fs.walk fs p with
  | inl (Some Dir) => inl (children fs (Path.components p))
  | inl (Some (File _)) => inr (Fs.message ENOTDIR "scandir" p)
  | inl None => inr (Fs.message ENOENT "scandir" p)
  | inr e => inr (Fs.message e "scandir" p)
  end.

End Fs2.

(** ** Start of the server *)

Section Startup.

Variable server_dir : string.

(** [ensureWorkspace]: the failure is logged and otherwise ignored. *)
Definition ensureWorkspace : M FileSystem unit :=
  try_catch (fs_mkdir_recursive (WORKSPACE_ROOT server_dir)) (fun _ => ret tt).

End Startup.

(** ** File API *)

(** An item of a directory listing. *)
Record list_item := {
  li_name : string;
  li_path : string;
  li_isDirectory : bool
}.

(** The bodies of the successful responses: [{ root, items }],
    [{ path, content }], and [{ ok: true, path }] with [isDirectory]
    where the handler sends it. *)
Inductive api_body :=
  | ListBody (root : string) (items : list list_item)
  | ReadBody (path content : string)
  | OkBody (path : string) (isDirectory : option bool).

Section FileApi.

Variable server_dir : string.
Variable cwd : string.

(** [app.get('/api/list', ...)]; [path] is the query parameter. *)
Definition api_list (path : option string) : M FileSystem (http_response api_body) :=
  try_catch
    (let rel := if truthy_field path then default "" path else "." in
     let* dir := lift_result (resolveWorkspacePath server_dir cwd (Some rel)) in
     let* items := (fun fs => (Fs2.readdir fs dir, fs)) in
     ret (Ok200
            (ListBody rel
               (map (fun it : string * bool =>
                       {| li_name := it.1;
                          li_path := Text.replace_char "\" "/" (Path.join [rel; it.1]);
                          li_isDirectory := it.2 |})
                    items))))
    (fun err => ret (Error 400 err)).

(** [app.get('/api/read', ...)] *)
Definition api_read (path : option string) : M FileSystem (http_response api_body) :=
  try_catch
    (if negb (truthy_field path) then ret (Error 400 "path query required")
     else
       let rel := default "" path in
       let* file := lift_result (resolveWorkspacePath server_dir cwd (Some rel)) in
       let* stat := fs_stat file in
       if Fs.isDirectory stat then ret (Error 400 "path is directory")
       else
         let* content := fs_readFile file in
         ret (Ok200 (ReadBody rel content)))
    (fun err => ret (Error 400 err)).

(** [app.post('/api/save', ...)]; [path] and [content] are the fields
    of the body. *)
Definition api_save (path content : option string)
  : M FileSystem (http_response api_body) :=
  try_catch
    (if negb (truthy_field path) then ret (Error 400 "path required")
     else
       let rel := default "" path in
       let* file := lift_result (resolveWorkspacePath server_dir cwd (Some rel)) in
       let* _ := fs_mkdir_recursive (Path.dirname file) in
       let* _ := fs_writeFile file (default "" content) in
       ret (Ok200 (OkBody rel None)))
    (fun err => ret (Error 400 err)).

(** [app.post('/api/create', ...)]; [isDirectory] is the truthiness of
    the field. An existing target is no error for a file. *)
Definition api_create (path : option string) (isDirectory : bool)
  : M FileSystem (http_response api_body) :=
  try_catch
    (if negb (truthy_field path) then ret (Error 400 "path required")
     else
       let rel := default "" path in
       let* target := lift_result (resolveWorkspacePath server_dir cwd (Some rel)) in
       if isDirectory then
         let* _ := fs_mkdir_recursive target in
         ret (Ok200 (OkBody rel (Some true)))
       else
         let* _ := fs_mkdir_recursive (Path.dirname target) in
         let* _ :=
           (fun fs =>
              match Fs2.writeFile_exclusive target "" fs with
              | (inl _, fs') => (inl tt, fs')
              | (inr (EEXIST, _), fs') => (inl tt, fs')
              | (inr (_, err), fs') => (inr err, fs')
              end) in
         ret (Ok200 (OkBody rel (Some false))))
    (fun err => ret (Error 400 err)).

(** [app.post('/api/delete', ...)] *)
Definition api_delete (path : option string) : M FileSystem (http_response api_body) :=
  try_catch
    (if negb (truthy_field path) then ret (Error 400 "path required")
     else
       let rel := default "" path in
       let* target := lift_result (resolveWorkspacePath server_dir cwd (Some rel)) in
       let* _ := fs_rm_recursive_force target in
       ret (Ok200 (OkBody rel None)))
    (fun err => ret (Error 400 err)).

End FileApi.

(** ** History: the log and the revert *)

(** [{ hash, author, date, subject }]; a line with fewer than three
    separators leaves [author] or [date] undefined. *)
Record log_entry := {
  l_hash : string;
  l_author : option string;
  l_date : option string;
  l_subject : string
}.

(** The callback of [lines.map] in [gitLog]:
    [const [hash, author, date, ...subj] = line.split('|')]. *)
Definition parse_log_line (line : string) : log_entry :=
  match Str.split "|" line with
  | hash :: rest =>
      {| l_hash := hash;
         l_author := rest !! 0;
         l_date := rest !! 1;
         l_subject := Str.join "|" (List.skipn 2 rest) |}
  | [] =>
      {| l_hash := EmptyString; l_author := None; l_date := None;
         l_subject := EmptyString |}
  end.

(** [r.stdout.trim().split('\n').filter(Boolean)] and the map. *)
Definition parse_log (stdout : string) : list log_entry :=
  map parse_log_line
    (List.filter Str.truthy (Str.split Str.newline (Text.trim stdout))).

(** The line [git log] prints for an entry under the format
    [%H|%an|%ad|%s]. *)
Definition format_log_entry (hash author date subject : string) : string :=
  hash +:+ "|" +:+ author +:+ "|" +:+ date +:+ "|" +:+ subject.

Section History.

Context `{Shell}.
Variable server_dir : string.

Definition gitLog (limit : jsnum) : M FileSystem (list log_entry) :=
  let* _ := ensureGitRepo server_dir in
  let cmd := "git log -n " +:+ Js.to_string limit
               +:+ " --pretty=format:%H|%an|%ad|%s --date=iso" in
  let* stdout := exec cmd (WORKSPACE_ROOT server_dir) in
  ret (parse_log stdout).

Definition gitRevert (hash : string) : M FileSystem git_result :=
  let* _ := ensureGitRepo server_dir in
  try_catch
    (let* _ := exec ("git revert --no-edit " +:+ hash) (WORKSPACE_ROOT server_dir) in
     ret {| g_ok := true; g_error := None |})
    (fun err => ret {| g_ok := false; g_error := Some err |}).

(** [app.get('/git/log', ...)]; [limit] is the query parameter. *)
Definition git_log (limit : option string)
  : M FileSystem (http_response (list log_entry)) :=
  try_catch
    (let n := Text.parseInt (if truthy_field limit then default "" limit else "50") in
     let* logs := gitLog n in
     ret (Ok200 logs))
    (fun err => ret (Error 500 err)).

(** [app.post('/git/revert', ...)] *)
Definition git_revert (hash : option string) : M FileSystem (http_response git_result) :=
  try_catch
    (if negb (truthy_field hash) then ret (Error 400 "hash required")
     else
       let* r := gitRevert (default "" hash) in
       ret (Ok200 r))
    (fun err => ret (Error 500 err)).

End History.

(** ** Streaming: the frames of the server and the client's reading *)

Module Stream.

Definition backslash_n : string := String "\" (String "n" EmptyString).

(** [part.replace(/\n/g, '\\n')] of the server: a line feed becomes a
    backslash and the letter n. *)
Definition escape (part : string) : string :=
  Text.replace_char Str.newline backslash_n part.

(** The texts the server sends for one decoded chunk: the chunk is
    cut at empty lines, blank parts are dropped. *)
Definition payloads (chunk : string) : list string :=
  map escape
      (List.filter (fun part => Str.truthy (Text.trim part))
         (Str.split_str (Str.nl +:+ Str.nl) chunk)).

(** What [res.write] gets for one text. *)
Definition frame (payload : string) : string :=
  "data: " +:+ payload +:+ Str.nl +:+ Str.nl.

Definition frames (chunk : string) : list string := map frame (payloads chunk).

(** The frame of a whole answer, for a backend that does not stream. *)
Definition single_frame (text : string) : string := frame (escape text).

(** [ev.data.replace(/\\n/g, '\n')] of the client: a backslash and the
    letter n become a line feed. *)
Fixpoint unescape (data : string) : string :=
  match data with
  | String "\" (String "n" r) => String Str.newline (unescape r)
  | String c r => String c (unescape r)
  | EmptyString => EmptyString
  end.

(** [es.onmessage] of [startStream]: the text shown grows by the
    decoded data of the event. The data of an event is the line of its
    frame after [data: ]; a line ends at a carriage return as well as at
    a line feed, so the data is the whole payload only where the payload
    holds no carriage return. *)
Definition on_message (accumulated data : string) : string :=
  accumulated +:+ unescape data.

(** Does the text hold a backslash followed by the letter n? *)
Fixpoint has_backslash_n (s : string) : bool :=
  match s with
  | String "\" (String "n" _) => true
  | String _ r => has_backslash_n r
  | EmptyString => false
  end.

End Stream.

(** ** The sheet view of the client: CSV *)

Module Csv.

Definition quote : ascii := "034"%char.
Definition comma : ascii := ","%char.
Definition cr : ascii := "013"%char.

(** The variables of the loop of [parseCSV]; the cells and rows are
    kept last one first. *)
Record state := {
  rows : list (list string);
  cur : list string;
  curCell : string;
  inQuotes : bool
}.

Definition add_char (c : ascii) (st : state) : state :=
  {| rows := rows st; cur := cur st;
     curCell := curCell st +:+ String c EmptyString; inQuotes := inQuotes st |}.

(** The loop of [parseCSV] over the rest of the text. *)
Fixpoint scan (text : string) (st : state) : state :=
  match text with
  | EmptyString => st
  | String ch rest =>
      if inQuotes st then
        if Ascii.eqb ch quote then
          match rest with
          | String nxt rest' =>
              if Ascii.eqb nxt quote then scan rest' (add_char quote st)
              else scan rest {| rows := rows st; cur := cur st; curCell := curCell st;
                                inQuotes := false |}
          | EmptyString =>
              scan rest {| rows := rows st; cur := cur st; curCell := curCell st;
                           inQuotes := false |}
          end
        else scan rest (add_char ch st)
      else if Ascii.eqb ch quote then
        scan rest {| rows := rows st; cur := cur st; curCell := curCell st;
                     inQuotes := true |}
      else if Ascii.eqb ch comma then
        scan rest {| rows := rows st; cur := cur st ++ [curCell st];
                     curCell := EmptyString; inQuotes := false |}
      else if Ascii.eqb ch Str.newline then
        scan rest {| rows := rows st ++ [cur st ++ [curCell st]]; cur := [];
                     curCell := EmptyString; inQuotes := false |}
      else if Ascii.eqb ch cr then scan rest st
      else scan rest (add_char ch st)
  end.

Definition parseCSV (text : string) : list (list string) :=
  let st := scan text {| rows := []; cur := []; curCell := EmptyString;
                         inQuotes := false |} in
  if Str.truthy (curCell st) || negb (Nat.eqb (length (cur st)) 0)
  then rows st ++ [cur st ++ [curCell st]]
  else rows st.

(** [innerText.replace(/\r?\n/g, ' ')] *)
Fixpoint flatten_lines (s : string) : string :=
  match s with
  | String "013" (String "010" r) => String " " (flatten_lines r)
  | String "010" r => String " " (flatten_lines r)
  | String c r => String c (flatten_lines r)
  | EmptyString => EmptyString
  end.

(** One cell of [serializeSheetToCSV], from the text of the cell. *)
Definition serialize_cell (innerText : string) : string :=
  let v := flatten_lines innerText in
  if Text.includes comma v || Text.includes quote v || Text.includes Str.newline v
  then String quote (Text.replace_char quote (String quote (String quote EmptyString)) v
                       +:+ String quote EmptyString)
  else v.

(** [serializeSheetToCSV] on the texts of the cells of the table. *)
Definition serialize (table : list (list string)) : string :=
  Str.join Str.nl (map (fun row => Str.join "," (map serialize_cell row)) table).

End Csv.

(** ** Vocabulary for the properties of the rest of the code *)

(** A commit as [git log] knows it. *)
Record commit := {
  c_hash : string;
  c_author : string;
  c_date : string;
  c_subject : string
}.

(** What [git log] prints under the format of [gitLog]: one line per
    commit, a line feed between the lines. *)
Definition log_line (c : commit) : string :=
  format_log_entry (c_hash c) (c_author c) (c_date c) (c_subject c).

Definition log_output (cs : list commit) : string := Str.join Str.nl (map log_line cs).

Definition entry_of (c : commit) : log_entry :=
  {| l_hash := c_hash c; l_author := Some (c_author c); l_date := Some (c_date c);
     l_subject := c_subject c |}.

Definition starts_clean (s : string) : Prop :=
  match Str.head s with Some c => Str.is_space c = false | None => True end.

Definition ends_clean (s : string) : Prop :=
  match Str.last s with Some c => Str.is_space c = false | None => True end.

(** A commit whose fields are single lines, with no bar in the hash,
    the author and the date, and no white space at the start of the hash
    or at the end of the subject. *)
Definition printable (c : commit) : Prop :=
  Str.count_char "|" (c_hash c) = 0 /\ Str.count_char "|" (c_author c) = 0
  /\ Str.count_char "|" (c_date c) = 0
  /\ Str.count_char Str.newline (c_hash c) = 0
  /\ Str.count_char Str.newline (c_author c) = 0
  /\ Str.count_char Str.newline (c_date c) = 0
  /\ Str.count_char Str.newline (c_subject c) = 0
  /\ starts_clean (c_hash c) /\ ends_clean (c_subject c).

(** A cell text without line break characters, and a table of such
    cells with at least one cell in every row. The last row of a
    sheet that is only one empty cell is not written as a line. *)
Definition one_line (cell : string) : Prop :=
  Str.count_char Str.newline cell = 0 /\ Str.count_char Csv.cr cell = 0.

Definition sheet_ok (table : list (list string)) : Prop :=
  Forall (fun row => row <> [] /\ Forall one_line row) table
  /\ List.last table [EmptyString; EmptyString] <> [EmptyString].

(** The answer of the model after the first two replacements of
    [lightweightRepair]: without its code fences. *)
Definition unfenced (text : string) : string :=
  Repair.strip_final_fence (Repair.strip_fences 0 text).

(** The text holds an opening brace, and after the first of them a
    closing one. *)
Definition holds_object (s : string) : Prop :=
  exists first last,
    Str.indexOf "{" s = Some first /\ Str.lastIndexOf "}" s = Some last /\ first < last.

(** A name of a file or directory: a path component other than the
    two dot names. *)
Definition plain_name (s : string) : Prop :=
  component_ok s /\ s <> "." /\ s <> "..".

(** The answer of a file handler to a path the guard refuses, on a
    file system left as it was. *)
Definition refused (fs : FileSystem) : result (http_response api_body) * FileSystem :=
  (inl (Error 400 "Path outside workspace forbidden"), fs).

(** The paths of the outcomes that succeeded on something other than
    a directory, in order. *)
Definition touched_of (os : list outcome) : list string :=
  omap (fun o => if o_ok o && negb (o_isDirectory o) then o_path o else None) os.

(** An action the loop gives up before any file operation: no object,
    no kind or no path, a path the guard refuses, or a kind that is
    none of the three. *)
Definition stopped_early (server_dir cwd : string) (act : option action) : Prop :=
  invalid_action act = true
  \/ exists a,
       act = Some a
       /\ ((exists e, resolveWorkspacePath server_dir cwd (Some (default "" (act_path a)))
                      = inr e)
           \/ (field_is (act_action a) "create" = false
               /\ field_is (act_action a) "edit" = false
               /\ field_is (act_action a) "delete" = false)).

(** A key of the file system that is neither on the way to [target]
    nor at or below it. *)
Definition unrelated (target : string) (k : list string) : Prop :=
  ~ (k `prefix_of` Path.components target) /\ ~ (Path.components target `prefix_of` k).

(** ** The archive script [zip.js] *)

Module Zip.

Definition outName : string := "personal-copilot-local.zip".

(** The number of leading components two paths share. *)
Fixpoint common (f t : list string) : nat :=
  match f, t with
  | a :: f', b :: t' => if String.eqb a b then S (common f' t') else 0
  | _, _ => 0
  end.

(** [path.relative(from, to)]: both paths are resolved; the result
    climbs out of what only [from] has and descends into what only [to]
    has. *)
Definition relative (cwd from to : string) : string :=
  let f := Path.components (Path.resolve cwd [from]) in
  let t := Path.components (Path.resolve cwd [to]) in
  let n := common f t in
  Str.join "/" (List.repeat ".." (length f - n) ++ List.skipn n t).

(** A pattern for a directory: its name at the start, then a slash
    or a backslash. *)
Definition under (dir rel : string) : bool :=
  String.prefix (dir +:+ "/") rel || String.prefix (dir +:+ "\") rel.

(** [excludePatterns.some(p => p.test(rel))]; the third pattern is
    the name of the archive, from start to end. *)
Definition excluded (rel : string) : bool :=
  under "node_modules" rel || under ".git" rel || String.eqb rel outName.

(** What [archive.file(full, { name })] queues. *)
Record entry := {
  e_full : string;
  e_name : string
}.

(** [addDir]; [depth] bounds the nesting of the calls, and the
    error of its end stands for the overflow of the stack. The file
    system is read and not changed; the archive grows. *)
Fixpoint addDir (depth : nat) (fs : FileSystem) (cwd dir : string) (archive : list entry)
  : result (list entry) :=
  match depth with
  | O => inr "Maximum call stack size exceeded"
  | S depth' =>
      match Fs2.readdir fs dir with
      | inr e => inr e
      | inl items =>
          fold_left
            (fun acc (item : string * bool) =>
               match acc with
               | inr e => inr e
               | inl archive =>
                   let full := Path.join [dir; item.1] in
                   let rel := relative cwd cwd full in
                   if excluded rel then inl archive
                   else if item.2 then addDir depth' fs cwd full archive
                   else inl (archive ++ [{| e_full := full; e_name := rel |}])
               end)
            items (inl archive)
      end
  end.

(** [addDir(process.cwd())] on an empty archive. *)
Definition run (depth : nat) (fs : FileSystem) (cwd : string) : result (list entry) :=
  addDir depth fs cwd cwd [].

End Zip.

(** A file system whose names are plain, as the names a directory
    listing gives are. *)
Definition plain_names (fs : FileSystem) : Prop :=
  forall (k : list string) (n : node), fs !! k = Some n -> Forall plain_name k.

(** Every node has a directory above it. *)
Definition tree (fs : FileSystem) : Prop :=
  forall (k : list string) (x : string) (n : node),
    fs !! (k ++ [x]) = Some n -> Fs.lookup_node fs k = Some Dir.

(** Names below the working directory that the walk of [addDir]
    gets to: no pattern excludes the path of a directory on the way or
    the path itself. *)
Definition reachable (names : list string) : Prop :=
  forall p, p <> [] -> p `prefix_of` names -> Zip.excluded (Str.join "/" p) = false.

(** The entry of the archive for the file at [names] below the
    working directory. *)
Definition entry_at (cwdc names : list string) : Zip.entry :=
  {| Zip.e_full := "/" +:+ Str.join "/" (cwdc ++ names); Zip.e_name := Str.join "/" names |}.

(** An entry of the archive that is as it should be: the entry for
    a regular file at reachable names. *)
Definition archived_well (fs : FileSystem) (cwdc : list string) (e : Zip.entry) : Prop :=
  exists (names : list string) (content : string),
    names <> [] /\ e = entry_at cwdc names
    /\ fs !! (cwdc ++ names) = Some (File content)
    /\ reachable names.

(** Parts of the statements about the reading of CSV: the text left
    to read does not go on with a quote, or ends the line; the state
    with a cell text added; the line written for a row. *)
Definition next_is_no_quote (rest : string) : Prop :=
  match rest with String c _ => Ascii.eqb c Csv.quote = false | EmptyString => True end.

Definition with_cell (cell : string) (st : Csv.state) : Csv.state :=
  {| Csv.rows := Csv.rows st; Csv.cur := Csv.cur st;
     Csv.curCell := Csv.curCell st +:+ cell; Csv.inQuotes := false |}.

Definition csv_line (row : list string) : string :=
  Str.join "," (map Csv.serialize_cell row).

Definition next_ends_line (rest : string) : Prop :=
  match rest with String c _ => c = Str.newline | EmptyString => True end.

(** The first [n] characters of [s] are white space. *)
Definition leading_space (n : nat) (s : string) : Prop :=
  forall i c, i < n -> String.get i s = Some c -> Str.is_space c = true.

(** ** Inputs of the examples *)

Definition commit_1 : commit :=
  {| c_hash := "1f3a"; c_author := "Ada"; c_date := "2024-01-02 10:00:00 +0000";
     c_subject := "fix a|b" |}.

Definition sheet_1 : list (list string) :=
  [["name"; "note"]; ["a,b"; String Csv.quote "q"]; [EmptyString]; ["x"; EmptyString]].

Definition answer_1 : string :=
  "Here you go: ```json" +:+ Str.nl +:+ "{ a: [1, 2, ], " +:+ Str.nl +:+ "``` {} Done.".

(** An action on a path outside the workspace. *)
Definition delete_passwd : action :=
  {| act_action := Some "delete"; act_path := Some "../../etc/passwd";
     act_isDirectory := false; act_content := None; act_selectedHunks := None;
     act_originalDiff := None |}.

(** The test host after three requests: a file saved in a new
    directory, a directory created two levels down, the file [f]
    deleted. *)
Definition saved_1 : FileSystem :=
  Eval vm_compute in
    snd (api_save app_dir root_dir (Some "d/a.txt") (Some "hi") fresh_workspace).

Definition made_1 : FileSystem :=
  Eval vm_compute in snd (api_create app_dir root_dir (Some "d/e") true fresh_workspace).

Definition deleted_1 : FileSystem :=
  Eval vm_compute in snd (api_delete app_dir root_dir (Some "f") workspace_with_f).

(** The state of the apply loop after the creation of [a.txt] beside
    the file [f], and the key of [f]. *)
Definition after_create_a : apply_state :=
  Eval vm_compute in
    match apply_action app_dir root_dir (Some create_a_txt) (loop_start workspace_with_f) with
    | Some (_, st) => st
    | None => loop_start workspace_with_f
    end.

Definition key_of_f : list string := ["app"; "workspace"; "f"].

(** A project directory [/p] with sources, installed packages and an
    archive from an earlier run, and what [zip.js] queues in it. *)
Definition project : FileSystem :=
  <[ ["p"; "node_modules"; "x"; "index.js"] := File "x" ]>
  (<[ ["p"; "node_modules"; "x"] := Dir ]>
  (<[ ["p"; "node_modules"] := Dir ]>
  (<[ ["p"; "src"; "a.js"] := File "a" ]>
  (<[ ["p"; "src"] := Dir ]>
  (<[ ["p"; "personal-copilot-local.zip"] := File "z" ]>
  (<[ ["p"; "README.md"] := File "r" ]>
  (<[ ["p"] := Dir ]> ∅))))))).

Definition project_archive : list Zip.entry :=
  [{| Zip.e_full := "/p/README.md"; Zip.e_name := "README.md" |};
   {| Zip.e_full := "/p/src/a.js"; Zip.e_name := "src/a.js" |}].

(** The edit of [f] with the one hunk of the diff from [text_a] to
    [text_b] under the header the diff has, the state of the apply loop
    after it, and the key of the workspace root. *)
Definition edit_f_original : action :=
  {| act_action := Some "edit"; act_path := Some "f"; act_isDirectory := false;
     act_content := Some text_b;
     act_selectedHunks := Some [Str.join Str.nl ["@@ -1,1 +1,1 @@"; "-a"; "+b"; ""]];
     act_originalDiff := Some diff_a_b |}.

Definition after_edit_f : apply_state :=
  Eval vm_compute in
    match apply_action app_dir root_dir (Some edit_f_original) (loop_start workspace_with_f) with
    | Some (_, st) => st
    | None => loop_start workspace_with_f
    end.

Definition key_of_root : list string := ["app"; "workspace"].

(** The test host after the creation of a file two directories
    down. *)
Definition created_1 : FileSystem :=
  Eval vm_compute in
    snd (api_create app_dir root_dir (Some "d/e/new.txt") false fresh_workspace).

(** * Properties *)

(** ** Strings and paths *)

Lemma split_no_separator (sep : ascii) (s : string) :
  Forall (fun x => Str.count_char sep x = 0) (Str.split sep s).
Proof.
  induction s as [|c r IH]; simpl.
  - repeat constructor.
  - destruct (Ascii.eqb c sep) eqn:E.
    + constructor; [reflexivity | exact IH].
    + destruct (Str.split sep r) as [|h t]; inversion IH; subst;
        constructor; simpl; try rewrite Ascii.eqb_sym, E; simpl; auto.
Qed.

Lemma split_segment (sep : ascii) (x r : string) :
  Str.count_char sep x = 0 ->
  Str.split sep (x +:+ String sep r) = x :: Str.split sep r.
Proof.
  induction x as [|c x IH]; simpl; intros Hx.
  - rewrite Ascii.eqb_refl. reflexivity.
  - destruct (Ascii.eqb sep c) eqn:E; [discriminate|].
    rewrite Ascii.eqb_sym, E, IH; [reflexivity | exact Hx].
Qed.

Lemma split_single (sep : ascii) (x : string) :
  Str.count_char sep x = 0 -> Str.split sep x = [x].
Proof.
  induction x as [|c x IH]; simpl; intros Hx; [reflexivity|].
  destruct (Ascii.eqb sep c) eqn:E; [discriminate|].
  rewrite Ascii.eqb_sym, E, IH; [reflexivity | exact Hx].
Qed.

Lemma split_join (l : list string) :
  Forall component_ok l -> l <> [] -> Str.split Str.slash (Str.join "/" l) = l.
Proof.
  induction 1 as [|x l [_ Hx] Hl IH]; intros Hne; [contradiction|].
  destruct l as [|y l'].
  - simpl. apply split_single. exact Hx.
  - change (Str.join "/" (x :: y :: l'))
      with (x +:+ String Str.slash (Str.join "/" (y :: l'))).
    rewrite split_segment, IH; [reflexivity | discriminate | exact Hx].
Qed.

Lemma components_of_join (l : list string) :
  Forall component_ok l -> Path.components ("/" +:+ Str.join "/" l) = l.
Proof.
  intros Hl. unfold Path.components.
  change ("/" +:+ Str.join "/" l) with (EmptyString +:+ String Str.slash (Str.join "/" l)).
  rewrite split_segment; [|reflexivity].
  rewrite filter_cons_False; [|simpl; discriminate].
  destruct l as [|x l]; [reflexivity|].
  rewrite split_join; [|exact Hl|discriminate].
  clear -Hl. induction Hl as [|y l' [Hy _] _ IH]; [reflexivity|].
  rewrite filter_cons_True; [|exact Hy]. rewrite IH. reflexivity.
Qed.

Lemma components_ok (p : string) : Forall component_ok (Path.components p).
Proof.
  unfold Path.components.
  pose proof (split_no_separator Str.slash p) as Hs.
  induction Hs as [|x l' Hx _ IH]; [constructor|].
  destruct (decide (Str.truthy x = true)) as [Ht|Hf].
  - rewrite filter_cons_True; [|exact Ht]. constructor; [split; assumption | exact IH].
  - rewrite filter_cons_False; [exact IH | exact Hf].
Qed.

Lemma Forall_removelast {A} (P : A -> Prop) (l : list A) :
  Forall P l -> Forall P (removelast l).
Proof.
  induction 1 as [|x l' Hx Hl IH]; simpl; [constructor|].
  destruct l'; [constructor | constructor; assumption].
Qed.

(** The components of the parent are the components but the last. *)
Lemma components_dirname (p : string) :
  Path.components (Path.dirname p) = removelast (Path.components p).
Proof.
  unfold Path.dirname. apply components_of_join, Forall_removelast, components_ok.
Qed.

Lemma prefix_append (x a b : string) :
  String.prefix (x +:+ a) (x +:+ b) = String.prefix a b.
Proof.
  induction x as [|c x IH]; simpl; [reflexivity|].
  destruct (ascii_dec c c); [exact IH | contradiction].
Qed.

Lemma prefix_empty (s : string) : String.prefix EmptyString s = true.
Proof. destruct s; reflexivity. Qed.

Lemma append_empty_r (x : string) : x +:+ EmptyString = x.
Proof.
  induction x as [|c x IH]; [reflexivity|].
  change (String c (x +:+ EmptyString) = String c x). f_equal. exact IH.
Qed.

Lemma prefix_self_append (x r : string) : String.prefix x (x +:+ r) = true.
Proof.
  induction x as [|c x IH]; simpl; [apply prefix_empty|].
  destruct (ascii_dec c c); [exact IH | contradiction].
Qed.

Lemma prefix_join (l1 l2 : list string) :
  l1 `prefix_of` l2 ->
  String.prefix (Str.join "/" l1) (Str.join "/" l2) = true.
Proof.
  intros [k ->]. induction l1 as [|x l1 IH]; [apply prefix_empty|].
  destruct l1 as [|y l1].
  - destruct k as [|z k].
    + simpl. pose proof (prefix_self_append x EmptyString) as Hx.
      rewrite append_empty_r in Hx. exact Hx.
    + change (Str.join "/" ([x] ++ z :: k)) with (x +:+ "/" +:+ Str.join "/" (z :: k)).
      apply prefix_self_append.
  - change (Str.join "/" ((x :: y :: l1) ++ k))
      with (x +:+ String Str.slash (Str.join "/" ((y :: l1) ++ k))).
    change (Str.join "/" (x :: y :: l1))
      with (x +:+ String Str.slash (Str.join "/" (y :: l1))).
    rewrite prefix_append. simpl String.prefix.
    destruct (ascii_dec Str.slash Str.slash); [exact IH | contradiction].
Qed.

Lemma push_segment_ok (allow : bool) (res : list string) (seg : string) :
  Forall component_ok res ->
  Str.count_char Str.slash seg = 0 ->
  Forall component_ok (Path.push_segment allow res seg).
Proof.
  intros Hres Hseg. unfold Path.push_segment.
  destruct (String.eqb seg "") eqn:E0; [exact Hres|].
  destruct (String.eqb seg ".") eqn:E1; [exact Hres|].
  destruct (String.eqb seg "..") eqn:E2.
  - destruct res as [|top rest].
    + destruct allow; repeat constructor.
    + destruct (String.eqb top "..").
      * destruct allow; [|exact Hres]. constructor; [split; reflexivity | exact Hres].
      * inversion Hres; assumption.
  - constructor; [|exact Hres]. split; [|exact Hseg].
    destruct seg; [discriminate | reflexivity].
Qed.

Lemma normalizeSegments_ok (allow : bool) (p : string) :
  Forall component_ok (Path.normalizeSegments allow p).
Proof.
  unfold Path.normalizeSegments. apply Forall_rev.
  pose proof (split_no_separator Str.slash p) as Hs.
  assert (Hnil : Forall component_ok []) by constructor.
  revert Hnil. generalize (@nil string).
  induction Hs as [|seg segs Hseg _ IH]; intros res Hres; simpl; [exact Hres|].
  apply IH, push_segment_ok; assumption.
Qed.

Lemma split_not_nil (sep : ascii) (x : string) : Str.split sep x <> [].
Proof.
  destruct x as [|c x]; simpl; [discriminate|].
  destruct (Ascii.eqb c sep); [discriminate|].
  destruct (Str.split sep x); discriminate.
Qed.

Lemma split_append (sep : ascii) (x r : string) :
  Str.split sep (x +:+ String sep r) = Str.split sep x ++ Str.split sep r.
Proof.
  induction x as [|c x IH].
  - simpl. rewrite Ascii.eqb_refl. reflexivity.
  - change (String c x +:+ String sep r) with (String c (x +:+ String sep r)).
    simpl. destruct (Ascii.eqb c sep); rewrite IH; [reflexivity|].
    pose proof (split_not_nil sep x) as Hx.
    destruct (Str.split sep x); [contradiction | reflexivity].
Qed.

Lemma last_append (x r : string) :
  Str.is_empty r = false -> Str.last (x +:+ r) = Str.last r.
Proof.
  intros Hr. induction x as [|c x IH]; [reflexivity|].
  change (String c x +:+ r) with (String c (x +:+ r)). simpl.
  destruct (x +:+ r) eqn:E; [|exact IH].
  destruct x; [|discriminate]. change (r = EmptyString) in E. rewrite E in Hr.
  discriminate.
Qed.

Lemma join_not_empty (x : string) (l : list string) :
  Str.truthy x = true -> Str.is_empty (Str.join "/" (l ++ [x])) = false.
Proof.
  intros Hx. induction l as [|y l IH].
  - simpl. destruct x; [discriminate | reflexivity].
  - destruct (l ++ [x]) as [|z zs] eqn:E; [destruct l; discriminate|].
    change (Str.join "/" ((y :: l) ++ [x])) with (Str.join "/" (y :: l ++ [x])).
    rewrite E. change (Str.join "/" (y :: z :: zs)) with (y +:+ String Str.slash (Str.join "/" (z :: zs))).
    destruct y; reflexivity.
Qed.

(** ** Workspace guard *)

Example path_normalize_1 : Path.normalize "a/./b/../../c/" = "c/".
Proof. reflexivity. Qed.

Example path_normalize_2 : Path.normalize "../../x" = "../../x".
Proof. reflexivity. Qed.

Example path_resolve_1 :
  Path.resolve "/" ["/app/workspace"; "../../etc/passwd"] = "/etc/passwd".
Proof. reflexivity. Qed.

Example guard_inside :
  resolveWorkspacePath app_dir root_dir (Some "src/../a.txt") = inl "/app/workspace/a.txt".
Proof. reflexivity. Qed.

Example guard_outside :
  resolveWorkspacePath app_dir root_dir (Some "../../etc/passwd")
  = inr "Path outside workspace forbidden".
Proof. reflexivity. Qed.

Example guard_absent : resolveWorkspacePath app_dir root_dir None = inl "/app/workspace".
Proof. reflexivity. Qed.

(** What the guard returns starts with the text of the root. *)
Lemma guard_accepts_prefix server_dir cwd rel resolved :
  resolveWorkspacePath server_dir cwd rel = inl resolved ->
  Str.startsWith resolved (WORKSPACE_ROOT server_dir) = true
  /\ resolved = Path.resolve cwd [WORKSPACE_ROOT server_dir; Path.normalize (default "" rel)].
Proof.
  unfold resolveWorkspacePath.
  destruct (Str.startsWith _ _) eqn:E; simpl; intros Hr; [|discriminate].
  injection Hr as <-. split; [exact E | reflexivity].
Qed.

(** What the guard rejects does not start with the text of the root. *)
Lemma guard_rejects_other server_dir cwd rel e :
  resolveWorkspacePath server_dir cwd rel = inr e ->
  e = "Path outside workspace forbidden"
  /\ Str.startsWith (Path.resolve cwd [WORKSPACE_ROOT server_dir; Path.normalize (default "" rel)])
       (WORKSPACE_ROOT server_dir) = false.
Proof.
  unfold resolveWorkspacePath.
  destruct (Str.startsWith _ _) eqn:E; simpl; intros Hr; [discriminate|].
  injection Hr as <-. split; reflexivity.
Qed.

(** With an absolute root the resolved path is a slash and clean
    components joined by slashes. *)
Lemma resolve_absolute_form (cwd root target : string) :
  Path.isAbsolute root = true ->
  exists segs,
    Path.resolve cwd [root; target] = "/" +:+ Str.join "/" segs
    /\ Forall component_ok segs.
Proof.
  intros Habs. unfold Path.resolve. simpl rev. simpl Path.resolve_scan.
  assert (Hroot : Str.is_empty root = false) by (destruct root; [discriminate | reflexivity]).
  destruct (Str.is_empty target).
  - rewrite Hroot, Habs. eexists; split; [reflexivity | apply normalizeSegments_ok].
  - destruct (Path.isAbsolute target).
    + eexists; split; [reflexivity | apply normalizeSegments_ok].
    + rewrite Hroot, Habs. eexists; split; [reflexivity | apply normalizeSegments_ok].
Qed.

(** The second half of C1: with a workspace root in normal form, a
    path that resolves to the root or below it, component by component,
    is returned by the guard as resolved. *)
Lemma guard_returns_inside (server_dir cwd : string) (rel : option string) :
  WORKSPACE_ROOT server_dir
  = "/" +:+ Str.join "/" (Path.components (WORKSPACE_ROOT server_dir)) ->
  within_workspace server_dir
    (Path.resolve cwd [WORKSPACE_ROOT server_dir; Path.normalize (default "" rel)]) ->
  resolveWorkspacePath server_dir cwd rel
  = inl (Path.resolve cwd [WORKSPACE_ROOT server_dir; Path.normalize (default "" rel)]).
Proof.
  intros Hroot Hin. unfold resolveWorkspacePath, within_workspace in *.
  destruct (resolve_absolute_form cwd (WORKSPACE_ROOT server_dir)
              (Path.normalize (default "" rel))) as (segs & Hres & Hsegs).
  { rewrite Hroot. reflexivity. }
  rewrite Hres in *. rewrite components_of_join in Hin by exact Hsegs.
  unfold Str.startsWith. rewrite Hroot at 1.
  change ("/" +:+ ?x) with (String Str.slash x). simpl String.prefix.
  destruct (ascii_dec Str.slash Str.slash); [|contradiction].
  rewrite (prefix_join _ _ Hin). reflexivity.
Qed.

Example root_in_normal_form :
  WORKSPACE_ROOT app_dir = "/" +:+ Str.join "/" (Path.components (WORKSPACE_ROOT app_dir)).
Proof. reflexivity. Qed.

(** The workspace root of a server in an absolute directory is in
    normal form. *)
Lemma workspace_root_normal (server_dir : string) :
  Path.isAbsolute server_dir = true ->
  WORKSPACE_ROOT server_dir
  = "/" +:+ Str.join "/" (Path.components (WORKSPACE_ROOT server_dir)).
Proof.
  intros Habs.
  assert (Hd : Str.truthy server_dir = true) by (destruct server_dir; [discriminate | reflexivity]).
  assert (Hform : exists segs,
             WORKSPACE_ROOT server_dir = "/" +:+ Str.join "/" segs
             /\ Forall component_ok segs).
  { unfold WORKSPACE_ROOT, Path.join.
    rewrite filter_cons_True by exact Hd. rewrite filter_cons_True by reflexivity.
    rewrite filter_nil.
    change (Str.join "/" [server_dir; "workspace"])
      with (server_dir +:+ String Str.slash "workspace").
    unfold Path.normalize.
    assert (Hne : Str.is_empty (server_dir +:+ String Str.slash "workspace") = false).
    { destruct server_dir; reflexivity. }
    assert (Ha : Path.isAbsolute (server_dir +:+ String Str.slash "workspace") = true).
    { destruct server_dir; [discriminate | exact Habs]. }
    assert (Ht : Path.hasTrailingSeparator (server_dir +:+ String Str.slash "workspace")
                 = false).
    { unfold Path.hasTrailingSeparator. rewrite last_append; reflexivity. }
    rewrite Hne, Ha, Ht. simpl negb.
    assert (Hq : Str.is_empty
                   (Path.normalizeString (server_dir +:+ String Str.slash "workspace") false)
                 = false).
    { unfold Path.normalizeString, Path.normalizeSegments.
      rewrite split_append. change (Str.split Str.slash "workspace") with ["workspace"].
      rewrite fold_left_app. simpl fold_left.
      change (Path.push_segment false ?res "workspace") with ("workspace" :: res).
      simpl rev. apply join_not_empty. reflexivity. }
    rewrite Hq. eexists; split; [reflexivity | apply normalizeSegments_ok]. }
  destruct Hform as (segs & Hroot & Hsegs).
  rewrite Hroot at 2. rewrite components_of_join by exact Hsegs. exact Hroot.
Qed.

(** The second half of C1 for every server in an absolute directory. *)
Lemma guard_returns_inside_absolute (server_dir cwd : string) (rel : option string) :
  Path.isAbsolute server_dir = true ->
  within_workspace server_dir
    (Path.resolve cwd [WORKSPACE_ROOT server_dir; Path.normalize (default "" rel)]) ->
  resolveWorkspacePath server_dir cwd rel
  = inl (Path.resolve cwd [WORKSPACE_ROOT server_dir; Path.normalize (default "" rel)]).
Proof.
  intros Habs. apply guard_returns_inside, workspace_root_normal, Habs.
Qed.

(** C1. The guard compares texts, not components: with the server in
    [/app], the relative path [../workspace-evil/x] resolves to
    [/app/workspace-evil/x], which lies outside the workspace root
    [/app/workspace], and the guard returns it instead of failing. *)
Theorem guard_admits_sibling_of_root :
  WORKSPACE_ROOT app_dir = "/app/workspace"
  /\ resolveWorkspacePath app_dir root_dir (Some "../workspace-evil/x")
     = inl "/app/workspace-evil/x"
  /\ ~ within_workspace app_dir "/app/workspace-evil/x".
Proof.
  split; [reflexivity|]. split; [reflexivity|].
  unfold within_workspace. intros [k Hk]. vm_compute in Hk. discriminate Hk.
Qed.

(** ** Patch engine *)

Example split_header_loses_signs :
  splitDiffIntoHunks diff_a_b
  = [{| header := "@@ 1,1 1,1 @@";
        hunkText := Str.join Str.nl ["@@ 1,1 1,1 @@"; "-a"; "+b"; ""] |}].
Proof. reflexivity. Qed.

(** With the header of the diff itself the same hunk applies. *)
Example original_hunk_applies :
  applySelectedHunks text_a diff_a_b [Str.join Str.nl ["@@ -1,1 +1,1 @@"; "-a"; "+b"; ""]]
  = Some (inl (Applied text_b)).
Proof. reflexivity. Qed.

(** C2. The round trip fails on a one-line change: [diff_a_b] is the
    unified diff from [text_a] to [text_b] (the package applies it), it
    has one hunk, and applying all hunks that [splitDiffIntoHunks] returns
    is rejected, because the header rebuilt for each hunk lacks the signs
    of the two ranges. *)
Theorem round_trip_rejected :
  applyPatch text_a diff_a_b = Some (inl (Some text_b))
  /\ length (splitDiffIntoHunks diff_a_b) = 1
  /\ applySelectedHunks text_a diff_a_b (map hunkText (splitDiffIntoHunks diff_a_b))
     = Some (inl (Rejected "applyPatch returned false")).
Proof. repeat split; reflexivity. Qed.

(** The diff of the long text has two hunks and the package applies it. *)
Example diff_long_applies :
  applyPatch text_long diff_long = Some (inl (Some text_long_changed))
  /\ map header (splitDiffIntoHunks diff_long) = ["@@ 1,5 1,5 @@"; "@@ 8,5 8,5 @@"].
Proof. split; reflexivity. Qed.

(** Each hunk text ends with a line feed and the selected texts are
    joined with one more: two hunks, even with the headers of the diff,
    get an empty line between them, which the package reads as a line of
    context, and the patch is rejected. One hunk alone applies. *)
Example two_selected_hunks_rejected :
  applySelectedHunks text_long diff_long [hunk_first; hunk_last]
  = Some (inl (Rejected "applyPatch returned false"))
  /\ applySelectedHunks text_long diff_long [hunk_first]
     = Some (inl (Applied (Str.join Str.nl
                             ["b"; "1"; "2"; "3"; "4"; "5"; "6"; "7"; "8"; "9"; "10"; "c";
                              ""]))).
Proof. split; reflexivity. Qed.

(** A selection that empties the text: on the empty text, one hunk that
    adds an empty line and marks the line break at the end as missing.
    The package drops the empty lines at the end, all of them, and goes
    on dropping: the call does not return. With a letter on the added
    line the same selection applies. *)
Example emptied_text_never_returns :
  applyPatch EmptyString ("*** f" +:+ Str.nl +:+ "--- f" +:+ Str.nl +:+ hunk_empty_line) = None
  /\ applySelectedHunks EmptyString diff_a_b [hunk_empty_line] = None
  /\ applySelectedHunks EmptyString diff_a_b
       [Str.join Str.nl ["@@ -0,0 +1 @@"; "+x"; "\ No newline at end of file"]]
     = Some (inl (Applied "x")).
Proof. repeat split; reflexivity. Qed.

(** ** Reading the current content *)

(** [getFileContentOrEmpty] never throws, changes nothing, and returns
    the content the specification describes. *)
Lemma getFileContentOrEmpty_run (server_dir cwd relPath : string) (fs : FileSystem) :
  getFileContentOrEmpty server_dir cwd relPath fs
  = (inl (content_or_empty server_dir cwd fs relPath), fs).
Proof.
  unfold getFileContentOrEmpty, content_or_empty, try_catch, bind, lift_result, ret,
    fs_stat, fs_readFile.
  destruct (resolveWorkspacePath server_dir cwd (Some relPath)) as [resolved|e]; simpl;
    [|reflexivity].
  unfold Fs.stat, Fs.readFile.
  destruct (Fs.walk fs resolved) as [[[content|]|]|e] eqn:E; simpl; rewrite ?E; reflexivity.
Qed.

(** ** Proposal builder *)

Section BuilderProperties.

Context `{DiffLib} `{PatchLib}.
Variables server_dir cwd : string.

Lemma preview_run (act : option action) (path after : string) (st : builder_state) :
  preview server_dir cwd act path after st
  = (inl tt,
     {| bs_fs := bs_fs st;
        diffs := diffs st ++
          [let diff := makeUnifiedDiff path (content_or_empty server_dir cwd (bs_fs st) path)
                         after in
           {| d_action := act; d_ok := true; d_diff := Some diff;
              d_hunks := Some (splitDiffIntoHunks diff); d_error := None |}] |}).
Proof.
  unfold preview, bind, builder_fs, zoom, push_diff, modify.
  rewrite getFileContentOrEmpty_run. destruct st; reflexivity.
Qed.

(** One round of the loop appends one entry, the entry of its action,
    and leaves the files alone. *)
Lemma build_diff_run (act : option action) (st : builder_state) :
  exists e,
    build_diff server_dir cwd act st
    = (inl tt, {| bs_fs := bs_fs st; diffs := diffs st ++ [e] |})
    /\ entry_for act e.
Proof.
  unfold build_diff, try_catch, entry_for, previewable.
  destruct act as [a|].
  - destruct (invalid_action (Some a)) eqn:Hinv.
    + eexists; split; [reflexivity|]. simpl. repeat split; eauto.
    + simpl.
      destruct (field_is (act_action a) "delete") eqn:Hd; simpl.
      { rewrite preview_run. eexists; split; [reflexivity|]. simpl.
        repeat split; eauto. }
      destruct (field_is (act_action a) "create") eqn:Hc; simpl.
      { rewrite preview_run. eexists; split; [reflexivity|]. simpl.
        repeat split; eauto. }
      destruct (field_is (act_action a) "edit") eqn:He; simpl.
      { rewrite preview_run. eexists; split; [reflexivity|]. simpl.
        repeat split; eauto. }
      eexists; split; [reflexivity|]. simpl. repeat split; eauto.
  - eexists; split; [reflexivity|]. simpl. repeat split; eauto.
Qed.

Lemma build_diffs_run (acts : list (option action)) (st : builder_state) :
  exists es,
    build_diffs server_dir cwd acts st
    = (inl tt, {| bs_fs := bs_fs st; diffs := diffs st ++ es |})
    /\ Forall2 entry_for acts es.
Proof.
  revert st. induction acts as [|act acts IH]; intros st.
  - exists []. split; [|constructor]. simpl. unfold ret. rewrite app_nil_r.
    destruct st; reflexivity.
  - destruct (build_diff_run act st) as (e & Hrun & He).
    destruct (IH {| bs_fs := bs_fs st; diffs := diffs st ++ [e] |}) as (es & Hrest & Hes).
    exists (e :: es). split; [|constructor; assumption].
    unfold build_diffs in *. simpl. unfold bind. rewrite Hrun, Hrest. simpl.
    rewrite <- app_assoc. reflexivity.
Qed.

Lemma with_diffs_run (acts : list (option action)) (fs : FileSystem) :
  exists es,
    with_diffs (build_diffs server_dir cwd acts) fs = (inl es, fs)
    /\ Forall2 entry_for acts es.
Proof.
  destruct (build_diffs_run acts {| bs_fs := fs; diffs := [] |}) as (es & Hrun & Hes).
  exists es. split; [|assumption]. unfold with_diffs. rewrite Hrun. reflexivity.
Qed.

End BuilderProperties.

(** C7. The proposal builder returns one entry per action, in the order
    of the actions: an action that is no object, lacks a kind or a path, or
    has an unknown kind gets an entry without [ok] and with an error;
    every other action gets an entry with [ok], its diff and its hunks. *)
Theorem builder_one_entry_per_action `{DiffLib} `{PatchLib} (server_dir cwd : string)
    (acts : list (option action)) (fs : FileSystem) :
  exists (es : list diff_entry) (fs' : FileSystem),
    with_diffs (build_diffs server_dir cwd acts) fs = (inl es, fs')
    /\ length es = length acts
    /\ map d_action es = acts
    /\ Forall2 entry_for acts es.
Proof.
  destruct (with_diffs_run server_dir cwd acts fs) as (es & Hrun & Hes).
  exists es, fs. split; [exact Hrun|].
  split; [symmetry; eapply Forall2_length; exact Hes|].
  split; [|exact Hes].
  clear Hrun. induction Hes as [|act e acts es [Hact _] _ IH]; simpl; congruence.
Qed.

Section HandlerFrame.

Context `{DiffLib} `{PatchLib} `{JsonLib} `{ModelBackend}.
Variables server_dir cwd : string.

(** The handler, from the model's text on, leaves the files alone. It
    answers with status 200, unless the parsed object has an [actions]
    value that cannot be iterated: then it throws. *)
Lemma assistant_respond_run (provider : string) (model : option string)
    (repairOnFail : bool) (rawText : string) (fs : FileSystem) :
  (exists body,
      assistant_respond server_dir cwd provider model repairOnFail rawText fs
      = (inl (Ok200 body), fs)
      /\ ab_raw_model_text body = rawText
      /\ ab_provider body = provider)
  \/ (exists p message,
        parse_with_repair rawText provider model repairOnFail = JsObject p
        /\ actions p = Some (ActionsNotIterable message)
        /\ assistant_respond server_dir cwd provider model repairOnFail rawText fs
           = (inr message, fs)).
Proof.
  unfold assistant_respond.
  destruct (parse_with_repair rawText provider model repairOnFail) as [| |p].
  - left. eexists; split; [reflexivity|]. split; reflexivity.
  - left. unfold bind, lift_result. simpl iterate. cbv iota.
    destruct (with_diffs_run server_dir cwd [] fs) as (es & Hrun & _).
    rewrite Hrun. eexists; split; [reflexivity|]. split; reflexivity.
  - unfold bind, lift_result.
    destruct (iterate (actions p)) as [acts|message] eqn:Hit.
    + left. destruct (with_diffs_run server_dir cwd acts fs) as (es & Hrun & _).
      rewrite Hrun. eexists; split; [reflexivity|]. split; reflexivity.
    + right. exists p, message. split; [reflexivity|]. split; [|reflexivity].
      destruct (actions p) as [[items|chars| |m]|]; try discriminate.
      simpl in Hit. congruence.
Qed.

Lemma assistant_respond_frame (provider : string) (model : option string)
    (repairOnFail : bool) (rawText : string) (fs : FileSystem) :
  snd (assistant_respond server_dir cwd provider model repairOnFail rawText fs) = fs.
Proof.
  destruct (assistant_respond_run provider model repairOnFail rawText fs)
    as [(body & -> & _) | (p & message & _ & _ & ->)]; reflexivity.
Qed.

Lemma assistant_frame (req : assistant_request) (fs : FileSystem) :
  snd (assistant server_dir cwd req fs) = fs.
Proof.
  unfold assistant, try_catch.
  destruct (truthy_field (req_message req)); simpl; [|reflexivity].
  destruct (String.eqb (default "openai" (req_provider req)) "openai").
  - unfold bind, lift_result.
    destruct (callOpenAIChat _ _ _ _) as [rawText|e]; simpl; [|reflexivity].
    pose proof (assistant_respond_frame (default "openai" (req_provider req)) (req_model req)
                  (default true (req_repairOnFail req)) rawText fs) as Hf.
    destruct (assistant_respond _ _ _ _ _ _ fs) as [[r|e] fs1]; simpl in Hf; subst fs1; reflexivity.
  - destruct (String.eqb (default "openai" (req_provider req)) "qwen"); [|reflexivity].
    unfold bind, lift_result.
    destruct (callQwen _ _ _ _) as [rawText|e]; simpl; [|reflexivity].
    pose proof (assistant_respond_frame (default "openai" (req_provider req)) (req_model req)
                  (default true (req_repairOnFail req)) rawText fs) as Hf.
    destruct (assistant_respond _ _ _ _ _ _ fs) as [[r|e] fs1]; simpl in Hf; subst fs1; reflexivity.
Qed.

End HandlerFrame.

(** C8. Building a proposal changes no file: reading the current content
    never throws, changes nothing and gives the empty string for a path
    that is missing, a directory or outside the workspace; the loop over
    the actions and the whole handler of [/assistant] end in the file
    system they started in. *)
Theorem builder_is_read_only `{DiffLib} `{PatchLib} `{JsonLib} `{ModelBackend}
    (server_dir cwd : string) :
  (forall (relPath : string) (fs : FileSystem),
      getFileContentOrEmpty server_dir cwd relPath fs
      = (inl (content_or_empty server_dir cwd fs relPath), fs))
  /\ (forall (acts : list (option action)) (st : builder_state),
        bs_fs (snd (build_diffs server_dir cwd acts st)) = bs_fs st)
  /\ (forall (acts : list (option action)) (fs : FileSystem),
        snd (with_diffs (build_diffs server_dir cwd acts) fs) = fs)
  /\ (forall (req : assistant_request) (fs : FileSystem),
        snd (assistant server_dir cwd req fs) = fs).
Proof.
  split; [intros; apply getFileContentOrEmpty_run|].
  split.
  { intros acts st.
    destruct (build_diffs_run server_dir cwd acts st) as (es & -> & _). reflexivity. }
  split.
  { intros acts fs.
    destruct (with_diffs_run server_dir cwd acts fs) as (es & -> & _). reflexivity. }
  intros req fs. apply assistant_frame.
Qed.

(** ** Action parser *)

Example repair_1 :
  lightweightRepair ("Sure! ```json" +:+ Str.nl +:+ "{ actions: [1, 2, ], }" +:+ Str.nl +:+ "```")
  = "{ actions: [1, 2]}".
Proof. reflexivity. Qed.

Lemma parsing_fails_falsy `{JsonLib} `{ModelBackend} (rawText provider : string)
    (model : option string) (repairOnFail : bool) :
  parsing_fails rawText provider model repairOnFail ->
  parse_with_repair rawText provider model repairOnFail = JsFalsy.
Proof.
  intros [Hfirst Hrepair]. unfold parse_with_repair. rewrite Hfirst. simpl.
  destruct Hrepair as [-> | [[e He] | (t & Ht & Hsecond)]].
  - reflexivity.
  - destruct repairOnFail; [|reflexivity]. rewrite He. reflexivity.
  - destruct repairOnFail; [|reflexivity]. rewrite Ht, Hsecond. reflexivity.
Qed.

(** C4. The parser hands the handler a value whatever the raw text: its
    exceptions are caught in [tryParseJSONBlock] and in the repair pass.
    The handler then answers with status 200 and the raw text in the
    response; the one exception is a parse that succeeds with an
    [actions] value the loop cannot iterate, where the handler throws and
    its [catch] answers 500. When structured parsing fails even after
    the one repair pass (or repair is disabled), the response has the
    raw text as the narrative, no action and no diff. In each case the
    files are left alone. *)
Theorem parse_failure_gives_narrative `{DiffLib} `{PatchLib} `{JsonLib} `{ModelBackend}
    (server_dir cwd provider : string) (model : option string) (repairOnFail : bool)
    (rawText : string) (fs : FileSystem) :
  ((exists body,
       assistant_respond server_dir cwd provider model repairOnFail rawText fs
       = (inl (Ok200 body), fs)
       /\ ab_raw_model_text body = rawText)
   \/ (exists p message,
         parse_with_repair rawText provider model repairOnFail = JsObject p
         /\ actions p = Some (ActionsNotIterable message)
         /\ assistant_respond server_dir cwd provider model repairOnFail rawText fs
            = (inr message, fs)))
  /\ (parsing_fails rawText provider model repairOnFail ->
      assistant_respond server_dir cwd provider model repairOnFail rawText fs
      = (inl (Ok200 (narrative_only provider rawText)), fs)).
Proof.
  split.
  - destruct (assistant_respond_run server_dir cwd provider model repairOnFail rawText fs)
      as [(body & Hrun & Hraw & _) | Hthrow].
    + left. exists body. split; assumption.
    + right. exact Hthrow.
  - intros Hfail. unfold assistant_respond.
    rewrite (parsing_fails_falsy _ _ _ _ Hfail). reflexivity.
Qed.

(** An answer of the model that parses, with the number five for
    [actions]: the request fails with status 500. *)
Example actions_not_iterable_is_500 :
  @assistant whole_file jsdiff parses_five answers_five app_dir root_dir
    {| req_message := Some "hello"; req_provider := None; req_model := None;
       req_temperature := None; req_max_tokens := None; req_repairOnFail := None |}
    fresh_workspace
  = (inl (Error 500 "parsed.actions is not iterable"), fresh_workspace).
Proof. reflexivity. Qed.

Lemma parse_failure_gives_narrative_witness :
  parsing_fails "Sure, here you go" "openai" None true
  /\ assistant_respond app_dir root_dir "openai" None true "Sure, here you go" fresh_workspace
     = (inl (Ok200 (narrative_only "openai" "Sure, here you go")), fresh_workspace).
Proof.
  assert (Hfail : parsing_fails "Sure, here you go" "openai" None true).
  { split; [reflexivity|]. right. left. eexists. reflexivity. }
  split; [exact Hfail|].
  exact (proj2 (parse_failure_gives_narrative app_dir root_dir "openai" None true
                  "Sure, here you go" fresh_workspace) Hfail).
Defined.

(** ** The file system *)

(** A path that the walk reaches has its node where a write put it. *)
Lemma walk_from_insert (n : node) (rest seen : list string) (fs : FileSystem)
    (v : option node) :
  Fs.walk_from fs seen rest = inl v ->
  seen ++ rest <> [] ->
  Fs.walk_from (<[seen ++ rest := n]> fs) seen rest = inl (Some n).
Proof.
  revert seen. induction rest as [|x rest IH]; intros seen Hwalk Hne; simpl in *.
  - rewrite app_nil_r in *. destruct seen; [contradiction|]. simpl.
    rewrite lookup_insert_eq. reflexivity.
  - assert (Hseen : Fs.lookup_node (<[seen ++ x :: rest := n]> fs) seen
                    = Fs.lookup_node fs seen).
    { destruct seen as [|y seen]; [reflexivity|]. simpl.
      apply lookup_insert_ne. intros Heq.
      apply (f_equal length) in Heq. simpl in Heq. rewrite length_app in Heq.
      simpl in Heq. lia. }
    rewrite Hseen. destruct (Fs.lookup_node fs seen) as [[content|]|]; try discriminate.
    replace (seen ++ x :: rest) with ((seen ++ [x]) ++ rest) by (rewrite <- app_assoc; reflexivity).
    apply IH; [exact Hwalk|]. destruct seen; discriminate.
Qed.

(** The directories on the way to a path that the walk reaches exist
    already: creating them changes nothing. *)
Lemma mkdir_from_existing (rest seen : list string) (x : string) (fs : FileSystem)
    (v : option node) :
  Fs.walk_from fs seen (rest ++ [x]) = inl v ->
  Fs.mkdir_from fs seen rest = inl fs.
Proof.
  revert seen. induction rest as [|y rest IH]; intros seen Hwalk; simpl in *; [reflexivity|].
  destruct (Fs.lookup_node fs seen) as [[content|]|]; try discriminate.
  assert (Hy : fs !! (seen ++ [y]) = Some Dir).
  { destruct (rest ++ [x]) as [|z zs] eqn:Hrest.
    - destruct rest; discriminate.
    - simpl in Hwalk.
      destruct (Fs.lookup_node fs (seen ++ [y])) as [[content|]|] eqn:Hl; try discriminate.
      destruct seen; exact Hl. }
  rewrite Hy. apply IH. exact Hwalk.
Qed.

Lemma removelast_last {A} (l : list A) (n : A) :
  l <> [] -> exists x, l = removelast l ++ [x].
Proof.
  intros Hl. exists (List.last l n). apply app_removelast_last. exact Hl.
Qed.

(** Writing a file succeeds where a file is, after a parent creation
    that changes nothing, and the file then reads as written. *)
Lemma overwrite_existing (resolved content old : string) (fs : FileSystem) :
  Fs.readFile fs resolved = inl old ->
  Fs.mkdir_recursive (Path.dirname resolved) fs = (inl tt, fs)
  /\ exists fs', Fs.writeFile resolved content fs = (inl tt, fs').
Proof.
  unfold Fs.readFile, Fs.mkdir_recursive, Fs.writeFile, Fs.walk.
  destruct (Fs.walk_from fs [] (Path.components resolved)) as [[[c|]|]|e] eqn:Hwalk;
    try discriminate.
  intros _. split; [|eexists; reflexivity].
  rewrite components_dirname.
  destruct (Path.components resolved) as [|y ys] eqn:Hc; [discriminate|].
  destruct (removelast_last (y :: ys) y) as [x Hx]; [discriminate|].
  rewrite Hx in Hwalk. rewrite (mkdir_from_existing _ _ _ _ _ Hwalk). reflexivity.
Qed.

Lemma read_after_write (resolved content : string) (fs fs' : FileSystem) :
  Fs.writeFile resolved content fs = (inl tt, fs') ->
  Fs.readFile fs' resolved = inl content.
Proof.
  unfold Fs.writeFile, Fs.readFile, Fs.walk.
  destruct (Path.components resolved) as [|y ys] eqn:Hc; [simpl; discriminate|].
  destruct (Fs.walk_from fs [] (y :: ys)) as [v|e] eqn:Hwalk; [|discriminate].
  assert (Hne : [] ++ y :: ys <> []) by discriminate.
  pose proof (walk_from_insert (File content) _ _ _ _ Hwalk Hne) as Hw.
  rewrite app_nil_l in Hw.
  destruct v as [[c|]|]; intros Heq; try discriminate;
    injection Heq as <-; rewrite Hw; reflexivity.
Qed.

(** ** Apply coordinator *)

Lemma field_is_Some (f : option string) (s : string) :
  field_is f s = true -> f = Some s.
Proof.
  destruct f as [x|]; simpl; [|discriminate].
  intros Hx. apply String.eqb_eq in Hx. congruence.
Qed.

Lemma truthy_field_Some (f : option string) :
  truthy_field f = true -> exists s, f = Some s /\ default "" f = s.
Proof. destruct f as [x|]; simpl; [eauto | discriminate]. Qed.

Section CoordinatorProperties.

Context `{PatchLib}.
Variables server_dir cwd : string.

Lemma write_whole_run (kind relPath resolved : string) (content : option string)
    (st : apply_state) :
  write_whole kind relPath resolved content st
  = match Fs.mkdir_recursive (Path.dirname resolved) (st_fs st) with
    | (inr e, fs1) => (inr e, with_fs fs1 st)
    | (inl _, fs1) =>
        match Fs.writeFile resolved (default "" content) fs1 with
        | (inr e, fs2) => (inr e, with_fs fs2 st)
        | (inl _, fs2) =>
            (inl tt, record_success fs2 (succeeded kind relPath false None) relPath st)
        end
    end.
Proof.
  unfold write_whole, bind, apply_fs, zoom, push_outcome, push_touched, modify,
    fs_mkdir_recursive, fs_writeFile. cbv beta.
  destruct (Fs.mkdir_recursive (Path.dirname resolved) (st_fs st)) as [[[]|e] fs1];
    [|reflexivity].
  simpl. destruct (Fs.writeFile resolved (default "" content) fs1) as [[[]|e] fs2];
    reflexivity.
Qed.

Lemma edit_selected_run (act : option action) (a : action) (relPath resolved : string)
    (st : apply_state) :
  edit_selected server_dir cwd act a relPath resolved st
  = match applySelectedHunks (content_or_empty server_dir cwd (st_fs st) relPath)
            (default "" (act_originalDiff a)) (default [] (act_selectedHunks a)) with
    | None => None
    | Some (inr e) => Some (inr e, st)
    | Some (inl (Rejected err)) =>
        Some (inl tt, record_outcome (st_fs st) (failed act err) st)
    | Some (inl (Applied result_text)) =>
        match Fs.writeFile resolved result_text (st_fs st) with
        | (inr e, fs1) => Some (inr e, with_fs fs1 st)
        | (inl _, fs1) =>
            Some (inl tt,
                  record_success fs1
                    (succeeded "edit" relPath false
                       (Some (length (default [] (act_selectedHunks a))))) relPath st)
        end
    end.
Proof.
  unfold edit_selected, bind_d, returns, call, bind, apply_fs, zoom, push_outcome,
    push_touched, modify, fs_writeFile. cbv beta.
  rewrite getFileContentOrEmpty_run. cbv beta iota.
  assert (Hst : {| st_fs := st_fs st; actionsApplied := actionsApplied st;
                   pathsTouched := pathsTouched st |} = st) by (destruct st; reflexivity).
  rewrite Hst.
  destruct (applySelectedHunks _ _ _) as [[[result_text|err]|e]|]; simpl.
  - destruct (Fs.writeFile resolved result_text (st_fs st)) as [[[]|e] fs1]; reflexivity.
  - reflexivity.
  - reflexivity.
  - reflexivity.
Qed.

(** The action as the loop sees it after the check of its fields and
    the guard. *)
Lemma apply_action_valid (a : action) (kind path resolved : string) (st : apply_state) :
  act_action a = Some kind -> Str.truthy kind = true ->
  act_path a = Some path -> Str.truthy path = true ->
  resolveWorkspacePath server_dir cwd (Some path) = inl resolved ->
  apply_action server_dir cwd (Some a) st
  = try_catch_d
      (if String.eqb kind "create" then
         if act_isDirectory a then
           returns
             (let* _ := apply_fs (fs_mkdir_recursive resolved) in
              push_outcome (succeeded "create" path true None))
         else returns (write_whole "create" path resolved (act_content a))
       else if String.eqb kind "edit" then
         if has_selection a then edit_selected server_dir cwd (Some a) a path resolved
         else returns (write_whole "edit" path resolved (act_content a))
       else if String.eqb kind "delete" then
         returns
           (let* _ := apply_fs (fs_rm_recursive_force resolved) in
            let* _ := push_touched path in
            push_outcome (succeeded "delete" path false None))
       else returns (push_outcome (failed (Some a) "unknown action type")))
      (fun err => returns (push_outcome (failed (Some a) err))) st.
Proof.
  intros Hkind Hk Hpath Hp Hres.
  unfold apply_action, invalid_action, field_is, try_catch_d.
  rewrite Hkind, Hpath. simpl. rewrite Hk, Hp. simpl.
  unfold bind_d at 1. unfold returns at 1. unfold lift_result at 1. rewrite Hres.
  reflexivity.
Qed.

(** An action that is no object, or lacks a kind or a path, and an
    action whose path the guard refuses. *)
Lemma apply_action_invalid (act : option action) (st : apply_state) :
  invalid_action act = true ->
  apply_action server_dir cwd act st
  = Some (inl tt, record_outcome (st_fs st) (failed act "invalid action object") st).
Proof.
  intros Hinv. unfold apply_action, try_catch_d.
  destruct act as [a|]; [rewrite Hinv|]; reflexivity.
Qed.

Lemma apply_action_refused (a : action) (kind path : string) (e : exn) (st : apply_state) :
  act_action a = Some kind -> Str.truthy kind = true ->
  act_path a = Some path -> Str.truthy path = true ->
  resolveWorkspacePath server_dir cwd (Some path) = inr e ->
  apply_action server_dir cwd (Some a) st
  = Some (inl tt, record_outcome (st_fs st) (failed (Some a) e) st).
Proof.
  intros Hkind Hk Hpath Hp Hres.
  unfold apply_action, invalid_action, try_catch_d. rewrite Hkind, Hpath. simpl.
  rewrite Hk, Hp. simpl. unfold bind_d at 1. unfold returns at 1.
  unfold lift_result at 1. rewrite Hres. reflexivity.
Qed.

(** One round of the loop, where it returns, does not throw and appends
    one outcome, the outcome of its action; the paths touched only grow.
    It returns unless the action is an edit whose selective apply does
    not. *)
Lemma apply_action_run (act : option action) (st : apply_state) :
  (apply_action server_dir cwd act st = None /\ selection_hangs act)
  \/ exists st',
       apply_action server_dir cwd act st = Some (inl tt, st')
       /\ (exists o, actionsApplied st' = actionsApplied st ++ [o] /\ outcome_for act o)
       /\ (exists touched, pathsTouched st' = pathsTouched st ++ touched).
Proof.
  assert (Hfail : forall (fs : FileSystem) (err : string),
             exists st',
               Some (@inl unit exn tt, record_outcome fs (failed act err) st)
               = Some (inl tt, st')
               /\ (exists o, actionsApplied st' = actionsApplied st ++ [o]
                             /\ outcome_for act o)
               /\ (exists touched, pathsTouched st' = pathsTouched st ++ touched)).
  { intros fs err. eexists; split; [reflexivity|]. simpl. split.
    - eexists; split; [reflexivity|]. left. simpl. eauto.
    - exists []. symmetry; apply app_nil_r. }
  destruct (invalid_action act) eqn:Hinv.
  { right. rewrite (apply_action_invalid act st Hinv). apply (Hfail (st_fs st)). }
  destruct act as [a|]; [|discriminate].
  simpl in Hinv. apply orb_false_elim in Hinv as [Hk Hp].
  apply negb_false_iff in Hk, Hp.
  destruct (act_action a) as [kind|] eqn:Hkind; [|discriminate].
  destruct (act_path a) as [path|] eqn:Hpath; [|discriminate].
  simpl in Hk, Hp.
  destruct (resolveWorkspacePath server_dir cwd (Some path)) as [resolved|e] eqn:Hres.
  2:{ right. rewrite (apply_action_refused a kind path e st Hkind Hk Hpath Hp Hres).
      apply (Hfail (st_fs st)). }
  rewrite (apply_action_valid a kind path resolved st Hkind Hk Hpath Hp Hres).
  assert (Hsucc : forall (fs : FileSystem) (k : string) isDir n,
             kind = k ->
             exists o, actionsApplied st ++ [succeeded k path isDir n]
                       = actionsApplied st ++ [o] /\ outcome_for (Some a) o).
  { intros fs k isDir n <-. eexists; split; [reflexivity|]. right. simpl.
    split; [reflexivity|]. split; [reflexivity|]. exists a, kind, path. eauto. }
  unfold try_catch_d.
  destruct (String.eqb kind "create") eqn:Hc.
  { right. apply String.eqb_eq in Hc. unfold returns. destruct (act_isDirectory a).
    - unfold bind, apply_fs, zoom, fs_mkdir_recursive, push_outcome, modify. cbv beta.
      destruct (Fs.mkdir_recursive resolved (st_fs st)) as [[[]|e] fs1]; simpl.
      + eexists; split; [reflexivity|]. simpl. split; [eapply (Hsucc fs1); eauto|].
        exists []. symmetry; apply app_nil_r.
      + apply (Hfail fs1).
    - rewrite write_whole_run.
      destruct (Fs.mkdir_recursive _ _) as [[[]|e] fs1]; [|apply (Hfail fs1)].
      destruct (Fs.writeFile _ _ _) as [[[]|e] fs2]; [|apply (Hfail fs2)].
      eexists; split; [reflexivity|]. simpl. split; [eapply (Hsucc fs2); eauto|].
      eexists [_]; reflexivity. }
  destruct (String.eqb kind "edit") eqn:He.
  { apply String.eqb_eq in He. destruct (has_selection a) eqn:Hhas.
    - rewrite edit_selected_run.
      destruct (applySelectedHunks _ _ _) as [[[result_text|err]|e]|] eqn:Hsel;
        [| right; apply (Hfail (st_fs st)) | right; apply (Hfail (st_fs st)) |].
      + right. destruct (Fs.writeFile _ _ _) as [[[]|e] fs1]; [|apply (Hfail fs1)].
        eexists; split; [reflexivity|]. simpl. split; [eapply (Hsucc fs1); eauto|].
        eexists [_]; reflexivity.
      + left. split; [reflexivity|]. eexists a, _. split; [reflexivity|].
        split; [rewrite Hkind, He; reflexivity|]. split; [exact Hhas | exact Hsel].
    - right. unfold returns. rewrite write_whole_run.
      destruct (Fs.mkdir_recursive _ _) as [[[]|e] fs1]; [|apply (Hfail fs1)].
      destruct (Fs.writeFile _ _ _) as [[[]|e] fs2]; [|apply (Hfail fs2)].
      eexists; split; [reflexivity|]. simpl. split; [eapply (Hsucc fs2); eauto|].
      eexists [_]; reflexivity. }
  right. unfold returns.
  destruct (String.eqb kind "delete") eqn:Hd.
  { apply String.eqb_eq in Hd.
    unfold bind, apply_fs, zoom, fs_rm_recursive_force, push_outcome, push_touched, modify.
    cbv beta.
    destruct (Fs.rm_recursive_force resolved (st_fs st)) as [[[]|e] fs1]; simpl.
    - eexists; split; [reflexivity|]. simpl. split; [eapply (Hsucc fs1); eauto|].
      eexists [_]; reflexivity.
    - apply (Hfail fs1). }
  apply (Hfail (st_fs st)).
Qed.

Lemma apply_actions_run (acts : list (option action)) (st : apply_state) :
  (apply_actions server_dir cwd acts st = None /\ Exists selection_hangs acts)
  \/ exists st',
       apply_actions server_dir cwd acts st = Some (inl tt, st')
       /\ (exists os, actionsApplied st' = actionsApplied st ++ os
                      /\ Forall2 outcome_for acts os)
       /\ (exists touched, pathsTouched st' = pathsTouched st ++ touched).
Proof.
  revert st. induction acts as [|act acts IH]; intros st.
  - right. exists st. split; [reflexivity|]. split.
    + exists []. split; [symmetry; apply app_nil_r | constructor].
    + exists []. symmetry; apply app_nil_r.
  - unfold apply_actions in *. cbn [for_of_d]. unfold bind_d at 1 2.
    destruct (apply_action_run act st)
      as [[Hnone Hhang] | (st1 & Hrun & (o & Ho & Hfor) & (t1 & Ht1))].
    { left. rewrite Hnone. split; [reflexivity | left; exact Hhang]. }
    rewrite Hrun.
    destruct (IH st1) as [[Hnone Hhang] | (st2 & Hrest & (os & Hos & Hall) & (t2 & Ht2))].
    { left. split; [exact Hnone | right; exact Hhang]. }
    right. exists st2. split; [exact Hrest|]. split.
    + exists (o :: os). split; [|constructor; assumption].
      rewrite Hos, Ho, <- app_assoc. reflexivity.
    + exists (t1 ++ t2). rewrite Ht2, Ht1, <- app_assoc. reflexivity.
Qed.

(** Reading back changes no file and never throws. *)
Lemma read_back_one_run (m : gmap string string) (o : outcome) (fs : FileSystem) :
  read_back_one server_dir cwd m o fs
  = (inl (object_set (Js.show (o_path o)) (read_value server_dir cwd fs (o_path o)) m), fs).
Proof.
  unfold read_back_one, read_value, try_catch, bind, lift_result, fs_readFile, ret.
  destruct (resolveWorkspacePath server_dir cwd (o_path o)) as [resolved|e]; simpl;
    [|reflexivity].
  destruct (Fs.readFile fs resolved); reflexivity.
Qed.

Lemma read_back_run (l : list outcome) (m : gmap string string) (fs : FileSystem) :
  read_back server_dir cwd m l fs
  = (inl (fold_left
            (fun m o =>
               object_set (Js.show (o_path o)) (read_value server_dir cwd fs (o_path o)) m)
            l m), fs).
Proof.
  revert m. induction l as [|o l IH]; intros m; simpl.
  - reflexivity.
  - unfold bind. rewrite read_back_one_run. apply IH.
Qed.

End CoordinatorProperties.

Section HandlerProperties.

Context `{PatchLib} `{Shell}.
Variables server_dir cwd : string.

(** The commit never throws: a failure becomes its result. *)
Lemma gitCommit_run (paths : list string) (message : string) (fs : FileSystem) :
  exists g fs', gitCommit server_dir paths message fs = (inl g, fs').
Proof.
  unfold gitCommit, try_catch.
  match goal with |- context [match ?m fs with _ => _ end] => destruct (m fs) as [[g|e] fs'] end;
    eexists _, _; reflexivity.
Qed.

(** The handler on a batch, from what the loop and the commit give. *)
Lemma apply_batch_exact (acts : list (option action)) (commitMessage : string)
    (fs fs' : FileSystem) (st1 : apply_state) (g : git_result) :
  apply_actions server_dir cwd acts (loop_start fs) = Some (inl tt, st1) ->
  gitCommit server_dir (pathsTouched st1) commitMessage (st_fs st1) = (inl g, fs') ->
  with_arrays (apply_batch server_dir cwd acts commitMessage) fs
  = Some (inl (Ok200
                 {| r_ok := true; r_actionsApplied := actionsApplied st1; r_gitResult := g;
                    r_changedFiles :=
                      fold_left
                        (fun m o =>
                           object_set (Js.show (o_path o))
                             (read_value server_dir cwd fs' (o_path o)) m)
                        (List.filter is_change (actionsApplied st1)) ∅ |}), fs').
Proof.
  intros Hrun Hgit. unfold with_arrays, apply_batch. unfold loop_start in Hrun.
  unfold bind_d at 1. rewrite Hrun. unfold returns.
  unfold bind at 1. unfold gets at 1.
  unfold bind at 1. unfold try_catch, apply_fs at 1, zoom.
  rewrite Hgit. cbv beta iota.
  unfold bind at 1. unfold gets at 1. cbv beta iota.
  unfold bind at 1. unfold apply_fs, zoom. rewrite read_back_run. reflexivity.
Qed.

(** Where the loop does not return, neither does the handler. *)
Lemma apply_batch_none (acts : list (option action)) (commitMessage : string)
    (fs : FileSystem) :
  apply_actions server_dir cwd acts (loop_start fs) = None ->
  with_arrays (apply_batch server_dir cwd acts commitMessage) fs = None.
Proof.
  intros Hrun. unfold with_arrays, apply_batch. unfold loop_start in Hrun.
  unfold bind_d at 1. rewrite Hrun. reflexivity.
Qed.

(** The handler on a batch, where it returns: status 200, [ok], one
    outcome per action, and the changed files read back from the file
    system it ends in. It returns unless the selective apply of an edit
    in the batch does not. *)
Lemma apply_batch_run (acts : list (option action)) (commitMessage : string)
    (fs : FileSystem) :
  (with_arrays (apply_batch server_dir cwd acts commitMessage) fs = None
   /\ Exists selection_hangs acts)
  \/ exists body fs',
       with_arrays (apply_batch server_dir cwd acts commitMessage) fs
       = Some (inl (Ok200 body), fs')
       /\ r_ok body = true
       /\ Forall2 outcome_for acts (r_actionsApplied body)
       /\ r_changedFiles body
          = fold_left
              (fun m o =>
                 object_set (Js.show (o_path o)) (read_value server_dir cwd fs' (o_path o)) m)
              (List.filter is_change (r_actionsApplied body)) ∅.
Proof.
  destruct (apply_actions_run server_dir cwd acts (loop_start fs))
    as [[Hnone Hhang] | (st1 & Hrun & (os & Hos & Hall) & _)].
  { left. split; [exact (apply_batch_none acts commitMessage fs Hnone) | exact Hhang]. }
  destruct (gitCommit_run (pathsTouched st1) commitMessage (st_fs st1)) as (g & fs2 & Hgit).
  right. eexists _, _.
  split; [exact (apply_batch_exact acts commitMessage fs fs2 st1 g Hrun Hgit)|].
  simpl in *. rewrite Hos. split; [reflexivity|]. split; [assumption|reflexivity].
Qed.

(** The same for the handler with its [try]. *)
Lemma assistant_apply_run (acts : list (option action)) (commitMessage : option string)
    (fs : FileSystem) :
  (assistant_apply server_dir cwd
     {| req_actions := ActionsArray acts; req_commitMessage := commitMessage |} fs = None
   /\ Exists selection_hangs acts)
  \/ exists body fs',
       assistant_apply server_dir cwd
         {| req_actions := ActionsArray acts; req_commitMessage := commitMessage |} fs
       = Some (inl (Ok200 body), fs')
       /\ r_ok body = true
       /\ Forall2 outcome_for acts (r_actionsApplied body)
       /\ r_changedFiles body
          = fold_left
              (fun m o =>
                 object_set (Js.show (o_path o)) (read_value server_dir cwd fs' (o_path o)) m)
              (List.filter is_change (r_actionsApplied body)) ∅.
Proof.
  unfold assistant_apply, try_catch_d. cbn [req_actions req_commitMessage].
  destruct (apply_batch_run acts (default "Assistant applied changes" commitMessage) fs)
    as [[Hnone Hhang] | (body & fs' & Hrun & Hrest)].
  - left. rewrite Hnone. split; [reflexivity | exact Hhang].
  - right. exists body, fs'. rewrite Hrun. split; [reflexivity | exact Hrest].
Qed.

End HandlerProperties.



(** C9. A request whose [actions] is an array, or absent, gets status
    200 and the top-level [ok] set, whatever the outcomes of the
    actions and of the commit. The one request without this response is
    the request without any: a batch with an edit whose selective apply
    does not return. *)
Theorem apply_response_ok_is_constant `{PatchLib} `{Shell} (server_dir cwd : string)
    (commitMessage : option string) (fs : FileSystem) :
  (forall acts : list (option action),
      (assistant_apply server_dir cwd
         {| req_actions := ActionsArray acts; req_commitMessage := commitMessage |} fs = None
       /\ Exists selection_hangs acts)
      \/ exists (body : apply_body) (fs' : FileSystem),
           assistant_apply server_dir cwd
             {| req_actions := ActionsArray acts; req_commitMessage := commitMessage |} fs
           = Some (inl (Ok200 body), fs')
           /\ r_ok body = true)
  /\ (exists (body : apply_body) (fs' : FileSystem),
        assistant_apply server_dir cwd
          {| req_actions := ActionsAbsent; req_commitMessage := commitMessage |} fs
        = Some (inl (Ok200 body), fs')
        /\ r_ok body = true).
Proof.
  split.
  - intros acts.
    destruct (assistant_apply_run server_dir cwd acts commitMessage fs)
      as [Hnone | (body & fs' & Hrun & Hok & _)]; [left; exact Hnone|].
    right. exists body, fs'. split; assumption.
  - destruct (apply_batch_run server_dir cwd []
                (default "Assistant applied changes" commitMessage) fs)
      as [[_ Hhang] | (body & fs' & Hrun & Hok & _)]; [inversion Hhang|].
    exists body, fs'. split; [|exact Hok].
    unfold assistant_apply, try_catch_d. cbn [req_actions req_commitMessage].
    rewrite Hrun. reflexivity.
Qed.

(** C3. An edit with a non-empty hunk selection whose selective apply
    fails (the patch engine rejects it or throws) gets a failed outcome
    with an error, and the loop goes on with the file system, and the
    list of touched paths, as they were. *)
Theorem failed_selective_edit_changes_nothing `{PatchLib} (server_dir cwd : string)
    (a : action) (path : string) (st : apply_state) (r : result apply_result) :
  field_is (act_action a) "edit" = true ->
  act_path a = Some path ->
  Str.truthy path = true ->
  has_selection a = true ->
  applySelectedHunks (content_or_empty server_dir cwd (st_fs st) path)
    (default "" (act_originalDiff a)) (default [] (act_selectedHunks a))
  = Some r ->
  (forall result_text, r <> inl (Applied result_text)) ->
  exists err,
    apply_action server_dir cwd (Some a) st
    = Some (inl tt, record_outcome (st_fs st) (failed (Some a) err) st).
Proof.
  intros Hedit Hpath Hp Hsel Hcall Hfail.
  apply field_is_Some in Hedit.
  destruct (resolveWorkspacePath server_dir cwd (Some path)) as [resolved|e] eqn:Hres.
  - rewrite (apply_action_valid server_dir cwd a "edit" path resolved st Hedit eq_refl
               Hpath Hp Hres).
    simpl. rewrite Hsel. unfold try_catch_d. rewrite edit_selected_run, Hcall.
    destruct r as [[result_text|err]|e].
    + exfalso. eapply Hfail. reflexivity.
    + exists err. reflexivity.
    + exists e. reflexivity.
  - exists e. exact (apply_action_refused server_dir cwd a "edit" path e st Hedit eq_refl
                       Hpath Hp Hres).
Qed.

Lemma failed_selective_edit_witness :
  exists err,
    apply_action app_dir root_dir (Some edit_f_selected) (loop_start workspace_with_f)
    = Some (inl tt,
            record_outcome (st_fs (loop_start workspace_with_f))
              (failed (Some edit_f_selected) err) (loop_start workspace_with_f)).
Proof.
  apply (failed_selective_edit_changes_nothing app_dir root_dir edit_f_selected "f"
           (loop_start workspace_with_f) (inl (Rejected "applyPatch returned false")));
    try reflexivity.
  intros result_text. discriminate.
Defined.



(** The edit without content cuts the file [f] to nothing. *)
Example edit_without_content_truncates :
  exists st',
    apply_action app_dir root_dir (Some edit_f_no_content) (loop_start workspace_with_f)
    = Some (inl tt, st')
    /\ Fs.readFile (st_fs st') "/app/workspace/f" = inl "".
Proof. eexists. vm_compute. split; reflexivity. Qed.

(** Every action fails and the commit fails: the response still has
    the top-level [ok]. *)
Example all_failed_still_ok :
  exists body fs',
    assistant_apply app_dir root_dir (batch_request [None; Some edit_f_selected])
      workspace_with_f
    = Some (inl (Ok200 body), fs')
    /\ r_ok body = true
    /\ map o_ok (r_actionsApplied body) = [false; false]
    /\ g_ok (r_gitResult body) = false.
Proof. eexists _, _. vm_compute. repeat split; reflexivity. Qed.

(** ** The changed files *)

Lemma fold_set_dom {A} (key : A -> string) (val : A -> string) (l : list A)
    (m : gmap string string) :
  dom (fold_left (fun m o => object_set (key o) (val o) m) l m)
  = dom m ∪ list_to_set (List.filter own_key (map key l)).
Proof.
  revert m. induction l as [|o l IH]; intros m; simpl.
  - set_solver.
  - rewrite IH. unfold object_set, own_key.
    destruct (String.eqb (key o) "__proto__"); simpl.
    + reflexivity.
    + rewrite dom_insert_L. set_solver.
Qed.

Lemma fold_set_other {A} (key : A -> string) (val : A -> string) (l : list A)
    (m : gmap string string) (k : string) :
  k ∉ map key l ->
  fold_left (fun m o => object_set (key o) (val o) m) l m !! k = m !! k.
Proof.
  revert m. induction l as [|o l IH]; intros m Hk; simpl in *; [reflexivity|].
  apply not_elem_of_cons in Hk as [Hne Hk].
  rewrite (IH _ Hk). unfold object_set.
  destruct (String.eqb (key o) "__proto__"); [reflexivity|].
  rewrite lookup_insert_ne; [reflexivity | congruence].
Qed.

Lemma fold_set_lookup {A} (key : A -> string) (val : A -> string) (f : string -> string)
    (l : list A) (m : gmap string string) (k : string) :
  Forall (fun o => val o = f (key o)) l ->
  k ∈ map key l ->
  own_key k = true ->
  fold_left (fun m o => object_set (key o) (val o) m) l m !! k = Some (f k).
Proof.
  intros Hval. revert m. induction Hval as [|o l Ho Hl IH]; intros m Hk Hown; simpl in *.
  - inversion Hk.
  - destruct (decide (k ∈ map key l)) as [Hin|Hnin]; [apply IH; assumption|].
    apply elem_of_cons in Hk as [->|Hin]; [|contradiction].
    rewrite (fold_set_other _ _ _ _ _ Hnin). unfold object_set.
    unfold own_key in Hown. apply negb_true_iff in Hown. rewrite Hown.
    rewrite lookup_insert_eq, Ho. reflexivity.
Qed.

(** A successful outcome of the loop has a path. *)
Lemma changes_have_paths (acts : list (option action)) (outs : list outcome) :
  Forall2 outcome_for acts outs ->
  Forall (fun o => exists p, o_path o = Some p) (List.filter is_change outs).
Proof.
  induction 1 as [|act o acts outs Ho _ IH]; simpl; [constructor|].
  destruct (is_change o) eqn:Hc; [|exact IH].
  constructor; [|exact IH].
  destruct Ho as [(Hok & _) | (_ & _ & a & kind & path & _ & _ & _ & _ & Hp)].
  - unfold is_change in Hc. rewrite Hok in Hc. discriminate.
  - eauto.
Qed.

Section ChangedFiles.

Context `{PatchLib} `{Shell}.
Variables server_dir cwd : string.

(** The keys of [changedFiles] and what each one maps to. *)
Lemma changed_files_run (acts : list (option action)) (commitMessage : option string)
    (fs : FileSystem) :
  (assistant_apply server_dir cwd
     {| req_actions := ActionsArray acts; req_commitMessage := commitMessage |} fs = None
   /\ Exists selection_hangs acts)
  \/ exists body fs',
       assistant_apply server_dir cwd
         {| req_actions := ActionsArray acts; req_commitMessage := commitMessage |} fs
       = Some (inl (Ok200 body), fs')
       /\ Forall2 outcome_for acts (r_actionsApplied body)
       /\ dom (r_changedFiles body)
          = list_to_set (List.filter own_key (changed_paths (r_actionsApplied body)))
       /\ (forall p, p ∈ changed_paths (r_actionsApplied body) ->
                     own_key p = true ->
                     r_changedFiles body !! p
                     = Some (read_value server_dir cwd fs' (Some p))).
Proof.
  destruct (assistant_apply_run server_dir cwd acts commitMessage fs)
    as [Hnone | (body & fs' & Hrun & _ & Hall & Hfiles)]; [left; exact Hnone|].
  right. exists body, fs'. split; [exact Hrun|].
  split; [exact Hall|]. rewrite Hfiles. split.
  - rewrite fold_set_dom, dom_empty_L. unfold changed_paths. set_solver.
  - intros p Hp Hown.
    apply (fold_set_lookup (fun o => Js.show (o_path o))
             (fun o => read_value server_dir cwd fs' (o_path o))
             (fun k => read_value server_dir cwd fs' (Some k))); [|exact Hp|exact Hown].
    eapply Forall_impl; [exact (changes_have_paths acts _ Hall)|].
    intros o [q Hq]. simpl. rewrite Hq. reflexivity.
Qed.

Lemma keeps_ret {A : Type} (k : list string) (a : A) : keeps k (ret a).
Proof. intros fs. reflexivity. Qed.

Lemma keeps_gets {A : Type} (k : list string) (f : FileSystem -> A) : keeps k (gets f).
Proof. intros fs. reflexivity. Qed.

Lemma keeps_bind {A B : Type} (k : list string) (m : M FileSystem A) (f : A -> M FileSystem B) :
  keeps k m -> (forall a, keeps k (f a)) -> keeps k (bind m f).
Proof.
  intros Hm Hf fs. unfold bind. specialize (Hm fs).
  destruct (m fs) as [[a|e] fs1]; simpl in *; [|exact Hm].
  rewrite (Hf a fs1). exact Hm.
Qed.

Lemma keeps_try_catch {A : Type} (k : list string) (m : M FileSystem A)
    (h : exn -> M FileSystem A) :
  keeps k m -> (forall e, keeps k (h e)) -> keeps k (try_catch m h).
Proof.
  intros Hm Hh fs. unfold try_catch. specialize (Hm fs).
  destruct (m fs) as [[a|e] fs1]; simpl in *; [exact Hm|].
  rewrite (Hh e fs1). exact Hm.
Qed.

(** The commit leaves a node alone when every command does. *)
Lemma gitCommit_keeps (k : list string) (paths : list string) (message : string) :
  exec_keeps k -> keeps k (gitCommit server_dir paths message).
Proof.
  intros Hkeep.
  assert (Hexec : forall command dir, keeps k (exec command dir)).
  { intros command dir fs. apply Hkeep. }
  unfold gitCommit. apply keeps_try_catch; [|intros; apply keeps_ret].
  apply keeps_bind.
  { unfold ensureGitRepo. apply keeps_bind; [apply keeps_gets|].
    intros present. destruct (negb present); [|apply keeps_ret].
    apply keeps_try_catch; [|intros; apply keeps_ret].
    apply keeps_bind; [apply Hexec | intros; apply keeps_ret]. }
  intros _. apply keeps_bind.
  { destruct paths; apply Hexec. }
  intros _. apply keeps_bind; [apply Hexec | intros; apply keeps_ret].
Qed.

End ChangedFiles.

Section Example6.

Context `{PatchLib} `{Shell}.

Lemma walk_workspace_child (fs : FileSystem) (name : string) :
  fs !! ["app"] = Some Dir ->
  fs !! ["app"; "workspace"] = Some Dir ->
  Fs.walk_from fs [] ["app"; "workspace"; name] = inl (fs !! ["app"; "workspace"; name]).
Proof.
  intros Ha Hw. cbn [Fs.walk_from Fs.lookup_node app]. rewrite Ha, Hw. reflexivity.
Qed.

Lemma create_a_txt_run (st : apply_state) :
  st_fs st !! ["app"] = Some Dir ->
  st_fs st !! ["app"; "workspace"] = Some Dir ->
  st_fs st !! ["app"; "workspace"; "a.txt"] <> Some Dir ->
  apply_action app_dir root_dir (Some create_a_txt) st
  = Some (inl tt,
          record_success (<[ ["app"; "workspace"; "a.txt"] := File "x" ]> (st_fs st))
            (succeeded "create" "a.txt" false None) "a.txt" st).
Proof.
  intros Ha Hw Hf.
  rewrite (apply_action_valid app_dir root_dir create_a_txt "create" "a.txt"
             "/app/workspace/a.txt" st eq_refl eq_refl eq_refl eq_refl eq_refl).
  cbn [String.eqb Ascii.eqb Bool.eqb act_isDirectory create_a_txt act_content].
  unfold try_catch_d, returns. rewrite write_whole_run.
  unfold Fs.mkdir_recursive.
  change (Path.components (Path.dirname "/app/workspace/a.txt")) with ["app"; "workspace"].
  cbn [Fs.mkdir_from app]. rewrite Ha, Hw.
  unfold Fs.writeFile, Fs.walk.
  change (Path.components "/app/workspace/a.txt") with ["app"; "workspace"; "a.txt"].
  rewrite (walk_workspace_child _ _ Ha Hw).
  destruct (st_fs st !! ["app"; "workspace"; "a.txt"]) as [[content|]|];
    [reflexivity | contradiction | reflexivity].
Qed.

Lemma delete_missing_txt_run (st : apply_state) :
  st_fs st !! ["app"] = Some Dir ->
  st_fs st !! ["app"; "workspace"] = Some Dir ->
  apply_action app_dir root_dir (Some delete_missing_txt) st
  = Some (inl tt,
          record_success
            (filter (fun kv => ~ (["app"; "workspace"; "missing.txt"] `prefix_of` kv.1))
               (st_fs st))
            (succeeded "delete" "missing.txt" false None) "missing.txt" st).
Proof.
  intros Ha Hw.
  rewrite (apply_action_valid app_dir root_dir delete_missing_txt "delete" "missing.txt"
             "/app/workspace/missing.txt" st eq_refl eq_refl eq_refl eq_refl eq_refl).
  cbn [String.eqb Ascii.eqb Bool.eqb].
  unfold try_catch_d, returns, bind, apply_fs, zoom, fs_rm_recursive_force,
    Fs.rm_recursive_force, Fs.through_file, push_touched, push_outcome, modify.
  change (Path.components "/app/workspace/missing.txt")
    with ["app"; "workspace"; "missing.txt"].
  cbn [removelast Fs.walk_from Fs.lookup_node app]. rewrite Ha, Hw. reflexivity.
Qed.

Lemma lookup_after_rm (fs : FileSystem) (gone k : list string) :
  ~ (gone `prefix_of` k) ->
  filter (fun kv : list string * node => ~ (gone `prefix_of` kv.1)) fs !! k = fs !! k.
Proof.
  intros Hk. destruct (fs !! k) as [n|] eqn:Hfs.
  - apply map_lookup_filter_Some. split; [exact Hfs | exact Hk].
  - apply map_lookup_filter_None. left. exact Hfs.
Qed.

Lemma example_batch_run (fs : FileSystem) (commitMessage : option string) :
  fs !! ["app"] = Some Dir ->
  fs !! ["app"; "workspace"] = Some Dir ->
  fs !! ["app"; "workspace"; "a.txt"] <> Some Dir ->
  exec_keeps ["app"] ->
  exec_keeps ["app"; "workspace"] ->
  exec_keeps ["app"; "workspace"; "a.txt"] ->
  exists body fs',
    assistant_apply app_dir root_dir
      {| req_actions := ActionsArray [Some create_a_txt; Some delete_missing_txt];
         req_commitMessage := commitMessage |} fs
    = Some (inl (Ok200 body), fs')
    /\ r_actionsApplied body
       = [succeeded "create" "a.txt" false None; succeeded "delete" "missing.txt" false None]
    /\ r_changedFiles body = {[ "a.txt" := "x" ]}
    /\ Fs.readFile fs' "/app/workspace/a.txt" = inl "x".
Proof.
  intros Ha Hw Hf Ka Kw Kf.
  set (fs1 := <[ ["app"; "workspace"; "a.txt"] := File "x" ]> fs).
  set (fs2 := filter (fun kv : list string * node =>
                        ~ (["app"; "workspace"; "missing.txt"] `prefix_of` kv.1)) fs1).
  assert (Ha1 : fs1 !! ["app"] = Some Dir).
  { unfold fs1. rewrite lookup_insert_ne; [exact Ha | discriminate]. }
  assert (Hw1 : fs1 !! ["app"; "workspace"] = Some Dir).
  { unfold fs1. rewrite lookup_insert_ne; [exact Hw | discriminate]. }
  assert (Hf1 : fs1 !! ["app"; "workspace"; "a.txt"] = Some (File "x")).
  { unfold fs1. apply lookup_insert_eq. }
  assert (Ha2 : fs2 !! ["app"] = Some Dir).
  { unfold fs2. rewrite lookup_after_rm; [exact Ha1|]. intros [rest Hrest]. discriminate. }
  assert (Hw2 : fs2 !! ["app"; "workspace"] = Some Dir).
  { unfold fs2. rewrite lookup_after_rm; [exact Hw1|]. intros [rest Hrest]. discriminate. }
  assert (Hf2 : fs2 !! ["app"; "workspace"; "a.txt"] = Some (File "x")).
  { unfold fs2. rewrite lookup_after_rm; [exact Hf1|]. intros [rest Hrest]. discriminate. }
  set (st1 := record_success fs1 (succeeded "create" "a.txt" false None) "a.txt"
                (loop_start fs)).
  set (st2 := record_success fs2 (succeeded "delete" "missing.txt" false None) "missing.txt"
                st1).
  assert (Hrun : apply_actions app_dir root_dir [Some create_a_txt; Some delete_missing_txt]
                   (loop_start fs) = Some (inl tt, st2)).
  { unfold apply_actions. cbn [for_of_d]. unfold bind_d.
    rewrite (create_a_txt_run (loop_start fs) Ha Hw Hf). cbv beta iota.
    change (st_fs (loop_start fs)) with fs. fold fs1. fold st1.
    rewrite (delete_missing_txt_run st1 Ha1 Hw1). reflexivity. }
  destruct (gitCommit_run app_dir (pathsTouched st2)
              (default "Assistant applied changes" commitMessage) (st_fs st2))
    as (g & fs3 & Hgit).
  assert (Hkeep : forall k, exec_keeps k -> fs3 !! k = fs2 !! k).
  { intros k Hk.
    pose proof (gitCommit_keeps app_dir k (pathsTouched st2)
                  (default "Assistant applied changes" commitMessage) Hk (st_fs st2)) as Hg.
    rewrite Hgit in Hg. exact Hg. }
  assert (Hread : Fs.readFile fs3 "/app/workspace/a.txt" = inl "x").
  { unfold Fs.readFile, Fs.walk.
    change (Path.components "/app/workspace/a.txt") with ["app"; "workspace"; "a.txt"].
    rewrite walk_workspace_child.
    - rewrite (Hkeep _ Kf), Hf2. reflexivity.
    - rewrite (Hkeep _ Ka). exact Ha2.
    - rewrite (Hkeep _ Kw). exact Hw2. }
  eexists _, fs3. split.
  { unfold assistant_apply, try_catch_d. cbn [req_actions req_commitMessage].
    rewrite (apply_batch_exact app_dir root_dir _ _ fs fs3 st2 g Hrun Hgit). reflexivity. }
  cbn [r_actionsApplied r_changedFiles]. split; [reflexivity|]. split; [|exact Hread].
  change (List.filter is_change (actionsApplied st2))
    with [succeeded "create" "a.txt" false None].
  cbn [fold_left succeeded o_path Js.show default].
  unfold read_value.
  change (resolveWorkspacePath app_dir root_dir (Some "a.txt"))
    with (@inl string exn "/app/workspace/a.txt").
  cbv beta iota. rewrite Hread. unfold object_set.
  change (String.eqb "a.txt" "__proto__") with false. cbv iota. apply insert_empty.
Qed.

End Example6.




(** A file named [__proto__] is created and read back, and is no key
    of [changedFiles]. *)
Example proto_path_is_no_key :
  exists body fs',
    assistant_apply app_dir root_dir (batch_request [Some create_proto]) fresh_workspace
    = Some (inl (Ok200 body), fs')
    /\ changed_paths (r_actionsApplied body) = ["__proto__"]
    /\ r_changedFiles body = ∅
    /\ Fs.readFile fs' "/app/workspace/__proto__" = inl "x".
Proof. eexists _, _. vm_compute. repeat split; reflexivity. Qed.

(** * Properties of the rest of the code *)

(** ** More on strings *)

Lemma count_char_cons (c d : ascii) (r : string) :
  Str.count_char c (String d r) = (if Ascii.eqb c d then 1 else 0) + Str.count_char c r.
Proof. reflexivity. Qed.

Lemma count_zero_cons (c d : ascii) (r : string) :
  Str.count_char c (String d r) = 0 -> Ascii.eqb d c = false /\ Str.count_char c r = 0.
Proof.
  rewrite count_char_cons, Ascii.eqb_sym. destruct (Ascii.eqb d c); simpl; intros; [lia | auto].
Qed.

Lemma count_char_append (c : ascii) (x y : string) :
  Str.count_char c (x +:+ y) = Str.count_char c x + Str.count_char c y.
Proof.
  induction x as [|d x IH]; [reflexivity|].
  change (String d x +:+ y) with (String d (x +:+ y)). simpl. rewrite IH. lia.
Qed.

(** ** Streaming *)

Lemma escape_cons (c : ascii) (r : string) :
  Stream.escape (String c r)
  = if Ascii.eqb c Str.newline then String "\" (String "n" (Stream.escape r))
    else String c (Stream.escape r).
Proof. unfold Stream.escape. simpl. destruct (Ascii.eqb c Str.newline); reflexivity. Qed.

(** The client's decoding sees through the server's encoding. *)
Lemma unescape_escape (s : string) :
  Stream.unescape (Stream.escape s) = Stream.unescape s.
Proof.
  assert (Hboth : forall n s, String.length s <= n ->
             Stream.unescape (Stream.escape s) = Stream.unescape s).
  { clear s. induction n as [|n IH]; intros s Hlen.
    - destruct s; [reflexivity | simpl in Hlen; lia].
    - destruct s as [|c r]; [reflexivity|]. simpl in Hlen.
      rewrite escape_cons.
      destruct (Ascii.eqb c Str.newline) eqn:Ec.
      + apply Ascii.eqb_eq in Ec. subst c.
        change (Stream.unescape (String "\" (String "n" (Stream.escape r))))
          with (String Str.newline (Stream.unescape (Stream.escape r))).
        rewrite IH by lia. reflexivity.
      + destruct r as [|d r'].
        * reflexivity.
        * rewrite escape_cons.
          destruct (Ascii.eqb d Str.newline) eqn:Ed.
          { apply Ascii.eqb_eq in Ed. subst d.
            transitivity (String c (Stream.unescape (Stream.escape (String Str.newline r')))).
            - rewrite escape_cons. simpl Ascii.eqb. cbv iota.
              destruct c as [[] [] [] [] [] [] [] []]; reflexivity.
            - rewrite IH by (simpl in *; lia).
              destruct c as [[] [] [] [] [] [] [] []]; reflexivity. }
          { destruct (Ascii.eqb c "\") eqn:Eb.
            - apply Ascii.eqb_eq in Eb. subst c.
              destruct (Ascii.eqb d "n") eqn:En.
              + apply Ascii.eqb_eq in En. subst d.
                change (Stream.unescape (String "\" (String "n" (Stream.escape r'))))
                  with (String Str.newline (Stream.unescape (Stream.escape r'))).
                rewrite IH by (simpl in *; lia). reflexivity.
              + transitivity (String "\"%char (Stream.unescape (Stream.escape (String d r')))).
                * rewrite escape_cons, Ed.
                  destruct d as [[] [] [] [] [] [] [] []]; try reflexivity; discriminate En.
                * rewrite IH by (simpl in *; lia).
                  destruct d as [[] [] [] [] [] [] [] []]; try reflexivity; discriminate En.
            - transitivity (String c (Stream.unescape (Stream.escape (String d r')))).
              + rewrite escape_cons, Ed.
                destruct c as [[] [] [] [] [] [] [] []]; try reflexivity; discriminate Eb.
              + rewrite IH by (simpl in *; lia).
                destruct c as [[] [] [] [] [] [] [] []]; try reflexivity; discriminate Eb. } }
  apply (Hboth (String.length s)). lia.
Qed.

Lemma unescape_length (s : string) :
  String.length (Stream.unescape s) <= String.length s
  /\ (Stream.has_backslash_n s = true ->
      String.length (Stream.unescape s) < String.length s).
Proof.
  assert (Hboth : forall n s, String.length s <= n ->
             String.length (Stream.unescape s) <= String.length s
             /\ (Stream.has_backslash_n s = true ->
                 String.length (Stream.unescape s) < String.length s)).
  { clear s. induction n as [|n IH]; intros s Hlen.
    - destruct s; [split; [reflexivity | discriminate] | simpl in Hlen; lia].
    - destruct s as [|c r]; [split; [reflexivity | discriminate]|].
      destruct (Ascii.eqb c "\") eqn:Eb.
      + apply Ascii.eqb_eq in Eb. subst c.
        destruct r as [|d r']; [split; [reflexivity | discriminate]|].
        destruct (Ascii.eqb d "n") eqn:En.
        * apply Ascii.eqb_eq in En. subst d.
          change (Stream.unescape (String "\" (String "n" r')))
            with (String Str.newline (Stream.unescape r')).
          destruct (IH r') as [Hle _]; [simpl in *; lia|]. simpl. split; intros; lia.
        * assert (Hu : Stream.unescape (String "\" (String d r'))
                       = String "\" (Stream.unescape (String d r'))).
          { destruct d as [[] [] [] [] [] [] [] []]; try reflexivity; discriminate En. }
          assert (Hh : Stream.has_backslash_n (String "\" (String d r'))
                       = Stream.has_backslash_n (String d r')).
          { destruct d as [[] [] [] [] [] [] [] []]; try reflexivity; discriminate En. }
          rewrite Hu, Hh. destruct (IH (String d r')) as [Hle Hlt]; [simpl in *; lia|].
          split; [simpl in *; lia|]. intros Hb. specialize (Hlt Hb). simpl in *; lia.
      + assert (Hu : Stream.unescape (String c r) = String c (Stream.unescape r)).
        { destruct c as [[] [] [] [] [] [] [] []]; try reflexivity; discriminate Eb. }
        assert (Hh : Stream.has_backslash_n (String c r) = Stream.has_backslash_n r).
        { destruct c as [[] [] [] [] [] [] [] []]; try reflexivity; discriminate Eb. }
        rewrite Hu, Hh. destruct (IH r) as [Hle Hlt]; [simpl in *; lia|].
        split; [simpl; lia|]. intros Hb. specialize (Hlt Hb). simpl; lia. }
  apply (Hboth (String.length s)). lia.
Qed.

Lemma unescape_plain (s : string) :
  Stream.has_backslash_n s = false -> Stream.unescape s = s.
Proof.
  assert (Hboth : forall n s, String.length s <= n ->
             Stream.has_backslash_n s = false -> Stream.unescape s = s).
  { clear s. induction n as [|n IH]; intros s Hlen Hs.
    - destruct s; [reflexivity | simpl in Hlen; lia].
    - destruct s as [|c r]; [reflexivity|].
      destruct (Ascii.eqb c "\") eqn:Eb.
      + apply Ascii.eqb_eq in Eb. subst c.
        destruct r as [|d r']; [reflexivity|].
        destruct (Ascii.eqb d "n") eqn:En.
        * apply Ascii.eqb_eq in En. subst d. discriminate Hs.
        * assert (Hu : Stream.unescape (String "\" (String d r'))
                       = String "\" (Stream.unescape (String d r'))).
          { destruct d as [[] [] [] [] [] [] [] []]; try reflexivity; discriminate En. }
          assert (Hh : Stream.has_backslash_n (String "\" (String d r'))
                       = Stream.has_backslash_n (String d r')).
          { destruct d as [[] [] [] [] [] [] [] []]; try reflexivity; discriminate En. }
          rewrite Hu. rewrite Hh in Hs. rewrite IH; [reflexivity | simpl in *; lia | exact Hs].
      + assert (Hu : Stream.unescape (String c r) = String c (Stream.unescape r)).
        { destruct c as [[] [] [] [] [] [] [] []]; try reflexivity; discriminate Eb. }
        assert (Hh : Stream.has_backslash_n (String c r) = Stream.has_backslash_n r).
        { destruct c as [[] [] [] [] [] [] [] []]; try reflexivity; discriminate Eb. }
        rewrite Hu. rewrite Hh in Hs. rewrite IH; [reflexivity | simpl in *; lia | exact Hs]. }
  apply (Hboth (String.length s)). lia.
Qed.

(** X21. For a text without a carriage return, so that the data of the
    event is the whole of what the server wrote: the client reads back
    what the server encoded exactly when the text holds no backslash
    followed by the letter n; such a pair, as in the source text of a
    program, reaches the reader as a line feed. *)
Theorem stream_decoding_round_trip (part : string) :
  Str.count_char "013"%char part = 0 ->
  Stream.on_message EmptyString (Stream.escape part) = part
  <-> Stream.has_backslash_n part = false.
Proof.
  intros _. unfold Stream.on_message.
  change (EmptyString +:+ ?x) with x. rewrite unescape_escape. split.
  - intros Heq. destruct (Stream.has_backslash_n part) eqn:Hb; [|reflexivity].
    destruct (unescape_length part) as [_ Hlt]. specialize (Hlt Hb).
    rewrite Heq in Hlt. lia.
  - apply unescape_plain.
Qed.

Lemma escape_no_newline (s : string) :
  Str.count_char Str.newline (Stream.escape s) = 0.
Proof.
  induction s as [|c r IH]; [reflexivity|].
  rewrite escape_cons. destruct (Ascii.eqb c Str.newline) eqn:Ec.
  - exact IH.
  - change (Str.count_char Str.newline (String c (Stream.escape r)))
      with ((if Ascii.eqb Str.newline c then 1 else 0)
            + Str.count_char Str.newline (Stream.escape r)).
    rewrite Ascii.eqb_sym, Ec. exact IH.
Qed.

(** X20. Every frame written for a chunk is one [data:] line and the empty
    line that ends the event: its text is not empty and holds no line
    feed. *)
Theorem stream_frames_single_line (chunk : string) :
  Forall (fun f => exists payload,
            f = "data: " +:+ payload +:+ Str.nl +:+ Str.nl
            /\ Str.count_char Str.newline payload = 0
            /\ Str.truthy payload = true)
         (Stream.frames chunk).
Proof.
  unfold Stream.frames, Stream.payloads.
  rewrite Forall_map, Forall_map. apply List.Forall_forall. intros part Hin.
  apply List.filter_In in Hin. destruct Hin as [_ Htrim].
  exists (Stream.escape part). split; [reflexivity|]. split; [apply escape_no_newline|].
  destruct part as [|c r]; [discriminate Htrim|].
  rewrite escape_cons. destruct (Ascii.eqb c Str.newline); reflexivity.
Qed.

(** ** History *)

Lemma join_split (sep : ascii) (s : string) :
  Str.join (String sep EmptyString) (Str.split sep s) = s.
Proof.
  induction s as [|c r IH]; [reflexivity|].
  simpl Str.split. destruct (Ascii.eqb c sep) eqn:Ec.
  - apply Ascii.eqb_eq in Ec. subst c.
    pose proof (split_not_nil sep r) as Hne.
    destruct (Str.split sep r) as [|h t] eqn:Es; [contradiction|].
    change (Str.join (String sep EmptyString) (EmptyString :: h :: t))
      with (String sep (Str.join (String sep EmptyString) (h :: t))).
    rewrite IH. reflexivity.
  - pose proof (split_not_nil sep r) as Hne.
    destruct (Str.split sep r) as [|h t] eqn:Es; [contradiction|].
    destruct t as [|h' t'].
    + simpl in *. rewrite IH. reflexivity.
    + change (Str.join (String sep EmptyString) (String c h :: h' :: t'))
        with (String c (Str.join (String sep EmptyString) (h :: h' :: t'))).
      rewrite IH. reflexivity.
Qed.

Lemma append_assoc (x y z : string) : (x +:+ y) +:+ z = x +:+ (y +:+ z).
Proof.
  induction x as [|c x IH]; [reflexivity|].
  change (String c x +:+ y) with (String c (x +:+ y)).
  change (String c (x +:+ y) +:+ z) with (String c ((x +:+ y) +:+ z)).
  rewrite IH. reflexivity.
Qed.

(** One line of the log gives back its four fields; bars in the
    subject stay in the subject. *)
Lemma parse_log_line_format (hash author date subject : string) :
  Str.count_char "|" hash = 0 -> Str.count_char "|" author = 0 ->
  Str.count_char "|" date = 0 ->
  parse_log_line (format_log_entry hash author date subject)
  = {| l_hash := hash; l_author := Some author; l_date := Some date;
       l_subject := subject |}.
Proof.
  intros Hh Ha Hd. unfold parse_log_line.
  change (format_log_entry hash author date subject)
    with (hash +:+ String "|" (author +:+ String "|" (date +:+ String "|" subject))).
  rewrite (split_segment "|" hash _ Hh), (split_segment "|" author _ Ha),
    (split_segment "|" date _ Hd).
  simpl. f_equal. apply (join_split "|").
Qed.

Lemma split_join_lines (sep : ascii) (l : list string) :
  Forall (fun x => Str.count_char sep x = 0) l -> l <> [] ->
  Str.split sep (Str.join (String sep EmptyString) l) = l.
Proof.
  induction l as [|x l IH]; intros Hl Hne; [contradiction|].
  inversion Hl as [|? ? Hx Hl']; subst.
  destruct l as [|y l'].
  - simpl. apply split_single, Hx.
  - change (Str.join (String sep EmptyString) (x :: y :: l'))
      with (x +:+ String sep (Str.join (String sep EmptyString) (y :: l'))).
    rewrite split_segment by exact Hx. rewrite IH; [reflexivity | exact Hl' | discriminate].
Qed.

Lemma trim_end_clean (s : string) : ends_clean s -> Text.trim_end s = s.
Proof.
  unfold ends_clean. induction s as [|c r IH]; intros Hs; [reflexivity|].
  simpl Text.trim_end. destruct r as [|d r'].
  - simpl in *. rewrite Hs. reflexivity.
  - rewrite IH by exact Hs. reflexivity.
Qed.

Lemma trim_clean (s : string) : starts_clean s -> ends_clean s -> Text.trim s = s.
Proof.
  intros Hs He. unfold Text.trim.
  assert (Hd : Str.drop_while Str.is_space s = s).
  { destruct s as [|c r]; [reflexivity|]. unfold starts_clean in Hs. simpl in *.
    rewrite Hs. reflexivity. }
  rewrite Hd. apply trim_end_clean, He.
Qed.

Lemma head_append (x r : string) :
  Str.head (x +:+ r) = match Str.head x with Some c => Some c | None => Str.head r end.
Proof. destruct x; reflexivity. Qed.

Lemma log_line_not_empty (c : commit) : Str.truthy (log_line c) = true.
Proof.
  unfold log_line, format_log_entry. destruct (c_hash c); reflexivity.
Qed.

Lemma log_line_starts_clean (c : commit) : starts_clean (c_hash c) -> starts_clean (log_line c).
Proof.
  unfold log_line, format_log_entry, starts_clean. rewrite head_append.
  destruct (Str.head (c_hash c)); [tauto | reflexivity].
Qed.

Lemma log_line_ends_clean (c : commit) : ends_clean (c_subject c) -> ends_clean (log_line c).
Proof.
  unfold log_line, format_log_entry, ends_clean.
  rewrite <- !append_assoc.
  destruct (c_subject c) as [|d r] eqn:Es.
  - intros _. rewrite append_empty_r. rewrite last_append by reflexivity. reflexivity.
  - rewrite last_append by reflexivity. tauto.
Qed.

Lemma join_starts_clean (x : string) (l : list string) :
  Str.truthy x = true -> starts_clean x -> starts_clean (Str.join Str.nl (x :: l)).
Proof.
  intros Hx Hs. unfold starts_clean in *. destruct l as [|y l']; [exact Hs|].
  change (Str.join Str.nl (x :: y :: l')) with (x +:+ Str.nl +:+ Str.join Str.nl (y :: l')).
  rewrite head_append. destruct x; [discriminate | exact Hs].
Qed.

Lemma join_ends_clean (l : list string) :
  Forall (fun x => Str.truthy x = true /\ ends_clean x) l -> ends_clean (Str.join Str.nl l).
Proof.
  induction l as [|x l IH]; intros Hl; [exact I|].
  inversion Hl as [|? ? [Hx He] Hl']; subst.
  destruct l as [|y l']; [exact He|].
  change (Str.join Str.nl (x :: y :: l')) with (x +:+ (Str.nl +:+ Str.join Str.nl (y :: l'))).
  unfold ends_clean. rewrite last_append by reflexivity.
  change (Str.nl +:+ ?z) with (String Str.newline z).
  specialize (IH Hl'). unfold ends_clean in IH.
  inversion Hl' as [|? ? [Hy _] _]; subst.
  assert (Hne : Str.is_empty (Str.join Str.nl (y :: l')) = false).
  { destruct l'; [destruct y; [discriminate | reflexivity]|].
    destruct y; [discriminate | reflexivity]. }
  destruct (Str.join Str.nl (y :: l')) as [|d r] eqn:Ej; [discriminate|]. exact IH.
Qed.

(** X16. The parsing in [gitLog], and only that: a text of one line per
    commit, each line the hash, the author, the date and the subject
    with a bar between them, is read by the lines after the command as
    these commits, field by field and in order, where the commits are
    printable. A subject may hold bars. Nothing is said of what the
    command of [gitLog] prints. *)
Theorem log_parsing_reads_back (cs : list commit) :
  Forall printable cs ->
  parse_log (log_output cs) = map entry_of cs.
Proof.
  intros Hcs. unfold parse_log, log_output.
  destruct cs as [|c cs']; [reflexivity|].
  assert (Htrim : Text.trim (Str.join Str.nl (map log_line (c :: cs')))
                  = Str.join Str.nl (map log_line (c :: cs'))).
  { apply trim_clean.
    - simpl map. apply join_starts_clean; [apply log_line_not_empty|].
      apply log_line_starts_clean. inversion Hcs as [|? ? Hc _]; subst. apply Hc.
    - apply join_ends_clean. rewrite Forall_map. eapply Forall_impl; [exact Hcs|].
      intros x Hx. split; [apply log_line_not_empty|]. apply log_line_ends_clean, Hx. }
  rewrite Htrim.
  rewrite (split_join_lines Str.newline).
  - assert (Hf : List.filter Str.truthy (map log_line (c :: cs')) = map log_line (c :: cs')).
    { generalize (c :: cs'). intros l. induction l as [|x l IH]; [reflexivity|].
      simpl. rewrite log_line_not_empty, IH. reflexivity. }
    rewrite Hf, map_map. apply map_ext_Forall. eapply Forall_impl; [exact Hcs|].
    intros x (Hh & Ha & Hd & _). apply parse_log_line_format; assumption.
  - rewrite Forall_map. eapply Forall_impl; [exact Hcs|].
    intros x (_ & _ & _ & Hh & Ha & Hd & Hs & _). simpl.
    unfold log_line, format_log_entry. rewrite !count_char_append. simpl. lia.
  - discriminate.
Qed.

(** ** The sheet view: CSV *)

Lemma scan_plain (cell rest : string) (st : Csv.state) :
  Csv.inQuotes st = false ->
  Str.count_char Csv.quote cell = 0 -> Str.count_char Csv.comma cell = 0 ->
  Str.count_char Str.newline cell = 0 -> Str.count_char Csv.cr cell = 0 ->
  Csv.scan (cell +:+ rest) st = Csv.scan rest (with_cell cell st).
Proof.
  revert st. induction cell as [|c r IH]; intros st Hq H1 H2 H3 H4.
  - unfold with_cell. rewrite append_empty_r. destruct st; simpl in *; subst; reflexivity.
  - apply count_zero_cons in H1, H2, H3, H4.
    destruct H1 as [E1 H1], H2 as [E2 H2], H3 as [E3 H3], H4 as [E4 H4].
    change (String c r +:+ rest) with (String c (r +:+ rest)).
    simpl Csv.scan. rewrite Hq, E1, E2, E3, E4.
    rewrite IH by (try assumption; reflexivity).
    f_equal. unfold with_cell, Csv.add_char; simpl. f_equal.
    rewrite append_assoc. reflexivity.
Qed.

Lemma scan_quoted (cell rest : string) (st : Csv.state) :
  Csv.inQuotes st = true -> next_is_no_quote rest ->
  Csv.scan (Text.replace_char Csv.quote (String Csv.quote (String Csv.quote EmptyString)) cell
              +:+ String Csv.quote rest) st
  = Csv.scan rest (with_cell cell st).
Proof.
  revert st. induction cell as [|c r IH]; intros st Hq Hrest.
  - change (Csv.scan (String Csv.quote rest) st = Csv.scan rest (with_cell EmptyString st)).
    unfold with_cell. rewrite append_empty_r.
    simpl Csv.scan. rewrite Hq. simpl Ascii.eqb. cbv iota.
    destruct rest as [|d rest'].
    + reflexivity.
    + simpl in Hrest. rewrite Hrest. reflexivity.
  - simpl Text.replace_char. destruct (Ascii.eqb c Csv.quote) eqn:Ec.
    + apply Ascii.eqb_eq in Ec. subst c.
      change (Csv.scan (String Csv.quote (String Csv.quote
                 (Text.replace_char Csv.quote (String Csv.quote (String Csv.quote EmptyString)) r
                    +:+ String Csv.quote rest))) st
              = Csv.scan rest (with_cell (String Csv.quote r) st)).
      simpl Csv.scan. rewrite Hq. simpl Ascii.eqb. cbv iota.
      rewrite IH by (try assumption; reflexivity).
      f_equal. unfold with_cell, Csv.add_char; simpl. f_equal.
      rewrite append_assoc. reflexivity.
    + change (String c ?x +:+ ?y) with (String c (x +:+ y)).
      simpl Csv.scan. rewrite Hq, Ec.
      rewrite IH by (try assumption; reflexivity).
      f_equal. unfold with_cell, Csv.add_char; simpl. f_equal.
      rewrite append_assoc. reflexivity.
Qed.

Lemma flatten_one_line (cell : string) :
  Str.count_char Str.newline cell = 0 -> Csv.flatten_lines cell = cell.
Proof.
  assert (Hboth : forall n s, String.length s <= n ->
             Str.count_char Str.newline s = 0 -> Csv.flatten_lines s = s).
  { clear cell. induction n as [|n IH]; intros s Hlen Hs.
    - destruct s; [reflexivity | simpl in Hlen; lia].
    - destruct s as [|c r]; [reflexivity|].
      apply count_zero_cons in Hs. destruct Hs as [Ec Hs].
      destruct (Ascii.eqb c Csv.cr) eqn:Er.
      + apply Ascii.eqb_eq in Er. subst c.
        destruct r as [|d r']; [reflexivity|].
        pose proof Hs as Hs'. apply count_zero_cons in Hs'. destruct Hs' as [Ed Hs'].
        transitivity (String Csv.cr (Csv.flatten_lines (String d r'))).
        * destruct d as [[] [] [] [] [] [] [] []]; try reflexivity; discriminate Ed.
        * rewrite IH; [reflexivity | simpl in *; lia | exact Hs].
      + transitivity (String c (Csv.flatten_lines r)).
        * destruct c as [[] [] [] [] [] [] [] []]; try reflexivity;
            try discriminate Er; discriminate Ec.
        * rewrite IH; [reflexivity | simpl in *; lia | exact Hs]. }
  apply (Hboth (String.length cell)). lia.
Qed.

Lemma includes_false (c : ascii) (s : string) :
  Text.includes c s = false -> Str.count_char c s = 0.
Proof.
  unfold Text.includes. destruct (Str.count_char c s); [reflexivity | discriminate].
Qed.

(** Reading one written cell adds the text of the cell. *)
Lemma scan_cell (cell rest : string) (st : Csv.state) :
  Csv.inQuotes st = false -> one_line cell -> next_is_no_quote rest ->
  Csv.scan (Csv.serialize_cell cell +:+ rest) st = Csv.scan rest (with_cell cell st).
Proof.
  intros Hq [Hn Hr] Hrest. unfold Csv.serialize_cell.
  rewrite (flatten_one_line cell Hn).
  destruct (Text.includes Csv.comma cell || Text.includes Csv.quote cell
            || Text.includes Str.newline cell) eqn:E.
  - change (String Csv.quote ?x +:+ rest) with (String Csv.quote (x +:+ rest)).
    rewrite append_assoc.
    change (String Csv.quote EmptyString +:+ rest) with (String Csv.quote rest).
    simpl Csv.scan at 1. rewrite Hq. simpl Ascii.eqb. cbv iota.
    rewrite scan_quoted by (try assumption; reflexivity).
    unfold with_cell; simpl. reflexivity.
  - apply orb_false_iff in E. destruct E as [E E3].
    apply orb_false_iff in E. destruct E as [E1 E2].
    apply scan_plain; auto using includes_false.
Qed.

(** Reading one written row: the cells before the last one join the
    row being read, the last one is the cell being read. *)
Lemma scan_row (row : list string) (cell rest : string) (st : Csv.state) :
  Csv.inQuotes st = false -> Csv.curCell st = EmptyString ->
  Forall one_line (cell :: row) -> next_ends_line rest ->
  Csv.scan (csv_line (cell :: row) +:+ rest) st
  = Csv.scan rest
      {| Csv.rows := Csv.rows st;
         Csv.cur := Csv.cur st ++ removelast (cell :: row);
         Csv.curCell := List.last (cell :: row) EmptyString;
         Csv.inQuotes := false |}.
Proof.
  revert cell st. induction row as [|c row IH]; intros cell st Hq Hc Hrow Hrest.
  - inversion Hrow as [|? ? Hcell _]; subst.
    unfold csv_line. simpl map. simpl Str.join.
    rewrite scan_cell; [|exact Hq|exact Hcell|].
    + unfold with_cell. rewrite Hc. simpl. rewrite app_nil_r. reflexivity.
    + destruct rest; [exact I|]. simpl in Hrest. subst. reflexivity.
  - inversion Hrow as [|? ? Hcell Hrow']; subst.
    unfold csv_line. simpl map.
    change (Str.join "," (Csv.serialize_cell cell :: Csv.serialize_cell c
                            :: map Csv.serialize_cell row))
      with (Csv.serialize_cell cell +:+ String Csv.comma (csv_line (c :: row))).
    rewrite append_assoc.
    change (String Csv.comma ?x +:+ rest) with (String Csv.comma (x +:+ rest)).
    rewrite scan_cell; [|exact Hq|exact Hcell|reflexivity].
    simpl Csv.scan at 1.
    rewrite IH; [|reflexivity|reflexivity|exact Hrow'|exact Hrest].
    rewrite Hc. simpl. rewrite <- app_assoc. reflexivity.
Qed.

Lemma scan_line_feed (rest : string) (st : Csv.state) :
  Csv.inQuotes st = false ->
  Csv.scan (String Str.newline rest) st
  = Csv.scan rest
      {| Csv.rows := Csv.rows st ++ [Csv.cur st ++ [Csv.curCell st]]; Csv.cur := [];
         Csv.curCell := EmptyString; Csv.inQuotes := false |}.
Proof. intros Hq. simpl. rewrite Hq. reflexivity. Qed.

Lemma scan_table (table : list (list string)) (row : list string) (done : list (list string)) :
  Forall (fun row => row <> [] /\ Forall one_line row) (row :: table) ->
  Csv.scan (Csv.serialize (row :: table))
    {| Csv.rows := done; Csv.cur := []; Csv.curCell := EmptyString; Csv.inQuotes := false |}
  = {| Csv.rows := done ++ removelast (row :: table);
       Csv.cur := removelast (List.last (row :: table) []);
       Csv.curCell := List.last (List.last (row :: table) []) EmptyString;
       Csv.inQuotes := false |}.
Proof.
  revert row done. induction table as [|r table IH]; intros row done Hall.
  - inversion Hall as [|? ? [Hne Hrow] _]; subst.
    destruct row as [|cell row]; [contradiction|].
    change (Csv.serialize [cell :: row]) with (csv_line (cell :: row)).
    rewrite <- (append_empty_r (csv_line (cell :: row))).
    rewrite scan_row; [|reflexivity|reflexivity|exact Hrow|exact I].
    simpl. rewrite app_nil_r. reflexivity.
  - inversion Hall as [|? ? [Hne Hrow] Hall']; subst.
    destruct row as [|cell row]; [contradiction|].
    change (Csv.serialize ((cell :: row) :: r :: table))
      with (csv_line (cell :: row) +:+ String Str.newline (Csv.serialize (r :: table))).
    rewrite scan_row; [|reflexivity|reflexivity|exact Hrow|reflexivity].
    rewrite scan_line_feed by reflexivity. cbn [Csv.rows Csv.cur Csv.curCell app].
    rewrite <- (app_removelast_last (l := cell :: row) EmptyString) by discriminate.
    rewrite (IH r (done ++ [cell :: row]) Hall').
    rewrite <- app_assoc. reflexivity.
Qed.

(** X22. The sheet written as CSV reads back as the same sheet. *)
Theorem csv_round_trip (table : list (list string)) :
  sheet_ok table -> Csv.parseCSV (Csv.serialize table) = table.
Proof.
  intros [Hall Hlast]. unfold Csv.parseCSV.
  destruct table as [|row table]; [reflexivity|].
  change (Csv.scan (Csv.serialize (row :: table)) _)
    with (Csv.scan (Csv.serialize (row :: table))
            {| Csv.rows := []; Csv.cur := []; Csv.curCell := EmptyString;
               Csv.inQuotes := false |}).
  rewrite scan_table by exact Hall. cbv zeta. cbn [Csv.rows Csv.cur Csv.curCell app].
  assert (Hne : List.last (row :: table) [EmptyString; EmptyString] <> []
                /\ List.last (row :: table) [] = List.last (row :: table) [EmptyString; EmptyString]).
  { clear Hlast. revert row Hall. induction table as [|r table IH]; intros row Hall.
    - inversion Hall as [|? ? [Hne _] _]; subst. split; [exact Hne | reflexivity].
    - inversion Hall as [|? ? _ Hall']; subst. apply (IH r Hall'). }
  destruct Hne as [Hne Hsame]. rewrite Hsame.
  set (lastrow := List.last (row :: table) [EmptyString; EmptyString]) in *.
  assert (Hcond : Str.truthy (List.last lastrow EmptyString)
                  || negb (Nat.eqb (length (removelast lastrow)) 0) = true).
  { destruct lastrow as [|c [|c' l]]; [contradiction| |].
    - simpl. destruct c; [contradiction|reflexivity].
    - apply orb_true_iff. right. simpl. reflexivity. }
  rewrite Hcond.
  rewrite <- (app_removelast_last (l := lastrow) EmptyString) by exact Hne.
  unfold lastrow.
  rewrite <- (app_removelast_last (l := row :: table) [EmptyString; EmptyString]) by discriminate.
  reflexivity.
Qed.

(** ** The repair of the model's answer *)

Lemma count_char_repeat_same (c : ascii) (n : nat) :
  Str.count_char c (Str.repeat (String c EmptyString) n) = n.
Proof.
  induction n as [|n IH]; [reflexivity|].
  change (Str.repeat (String c EmptyString) (S n))
    with (String c (Str.repeat (String c EmptyString) n)).
  rewrite count_char_cons, Ascii.eqb_refl, IH. reflexivity.
Qed.

Lemma count_char_repeat_other (c d : ascii) (n : nat) :
  Ascii.eqb c d = false -> Str.count_char c (Str.repeat (String d EmptyString) n) = 0.
Proof.
  intros Hcd. induction n as [|n IH]; [reflexivity|].
  change (Str.repeat (String d EmptyString) (S n))
    with (String d (Str.repeat (String d EmptyString) n)).
  rewrite count_char_cons, Hcd, IH. reflexivity.
Qed.

(** X18. What [lightweightRepair] returns never has more opening braces
    than closing ones. *)
Theorem repair_closes_braces (text : string) :
  Str.count_char "{" (lightweightRepair text) <= Str.count_char "}" (lightweightRepair text).
Proof.
  unfold lightweightRepair. cbv zeta.
  set (block := Repair.strip_trailing_commas 0 _).
  unfold Repair.balance_braces. cbv zeta.
  destruct (Nat.ltb (Str.count_char "}" block) (Str.count_char "{" block)) eqn:E.
  - apply Nat.ltb_lt in E. rewrite !count_char_append.
    rewrite count_char_repeat_same, count_char_repeat_other by reflexivity. lia.
  - apply Nat.ltb_ge in E. exact E.
Qed.

Lemma indexOf_get (c : ascii) (s : string) (i : nat) :
  Str.indexOf c s = Some i -> String.get i s = Some c.
Proof.
  revert i. induction s as [|d r IH]; intros i; [discriminate|].
  simpl. destruct (Ascii.eqb c d) eqn:E.
  - intros Hi. injection Hi as <-. apply Ascii.eqb_eq in E. subst. reflexivity.
  - destruct (Str.indexOf c r) as [j|]; [|discriminate].
    intros Hi. injection Hi as <-. simpl. apply IH. reflexivity.
Qed.

Lemma lastIndexOf_get (c : ascii) (s : string) (i : nat) :
  Str.lastIndexOf c s = Some i -> String.get i s = Some c.
Proof.
  revert i. induction s as [|d r IH]; intros i; [discriminate|].
  simpl. destruct (Str.lastIndexOf c r) as [j|].
  - intros Hi. injection Hi as <-. simpl. apply IH. reflexivity.
  - destruct (Ascii.eqb c d) eqn:E; [|discriminate].
    intros Hi. injection Hi as <-. apply Ascii.eqb_eq in E. subst. reflexivity.
Qed.

Lemma substring_head (i n : nat) (s : string) :
  Str.head (String.substring i (S n) s) = String.get i s.
Proof.
  revert i. induction s as [|d r IH]; intros i.
  - destruct i; reflexivity.
  - destruct i as [|i]; [reflexivity|]. simpl. apply IH.
Qed.

Lemma substring_last (i n : nat) (s : string) (c : ascii) :
  String.get (i + n) s = Some c -> Str.last (String.substring i (S n) s) = Some c.
Proof.
  revert i n. induction s as [|d r IH]; intros i n.
  - destruct i, n; discriminate.
  - destruct i as [|i].
    + destruct n as [|n].
      * simpl. intros Hg. destruct r; exact Hg.
      * simpl String.get. intros Hg.
        change (String.substring 0 (S (S n)) (String d r))
          with (String d (String.substring 0 (S n) r)).
        specialize (IH 0 n Hg).
        destruct (String.substring 0 (S n) r) eqn:Es; [discriminate IH | exact IH].
    + simpl. apply IH.
Qed.

Lemma isolate_object_delimited (s : string) :
  holds_object s ->
  Str.head (Repair.isolate_object s) = Some "{"%char
  /\ Str.last (Repair.isolate_object s) = Some "}"%char.
Proof.
  intros (first & last & Hf & Hl & Hlt). unfold Repair.isolate_object.
  rewrite Hf, Hl. apply Nat.ltb_lt in Hlt as Hlt'. rewrite Hlt'.
  unfold Str.slice. replace (last + 1 - first) with (S (last - first)) by lia. split.
  - rewrite substring_head. apply indexOf_get, Hf.
  - apply substring_last. replace (first + (last - first)) with last by lia.
    apply lastIndexOf_get, Hl.
Qed.

Lemma drop_while_space (s : string) :
  leading_space (String.length s - String.length (Str.drop_while Str.is_space s)) s.
Proof.
  induction s as [|d r IH]; intros i c Hi Hg; [discriminate|].
  simpl in Hi. destruct (Str.is_space d) eqn:Ed.
  - destruct i as [|i]; simpl in Hg.
    + injection Hg as <-. exact Ed.
    + apply (IH i c); [|exact Hg].
      assert (String.length (Str.drop_while Str.is_space r) <= String.length r).
      { clear. induction r as [|e r IH]; simpl; [lia|]. destruct (Str.is_space e); simpl; lia. }
      lia.
  - simpl in Hi. lia.
Qed.

Lemma last_cons (c : ascii) (r : string) :
  Str.last (String c r) = match Str.last r with Some d => Some d | None => Some c end.
Proof.
  destruct r as [|a r]; [reflexivity|].
  change (Str.last (String c (String a r))) with (Str.last (String a r)).
  assert (Hsome : exists d, Str.last (String a r) = Some d).
  { clear. revert a. induction r as [|b r IH]; intros a; [eexists; reflexivity|].
    change (Str.last (String a (String b r))) with (Str.last (String b r)). apply IH. }
  destruct Hsome as [d ->]. reflexivity.
Qed.

Lemma last_none (s : string) : Str.last s = None -> s = EmptyString.
Proof.
  destruct s as [|c r]; [reflexivity|]. rewrite last_cons.
  destruct (Str.last r); discriminate.
Qed.

(** The removal of trailing commas keeps a final closing brace. *)
Lemma strip_trailing_commas_last (s : string) (skip : nat) :
  leading_space skip s -> Str.last s = Some "}"%char ->
  Str.last (Repair.strip_trailing_commas skip s) = Some "}"%char.
Proof.
  revert skip. induction s as [|c r IH]; intros skip Hsp Hlast; [discriminate|].
  rewrite last_cons in Hlast.
  destruct skip as [|k].
  - destruct (Str.last r) as [d|] eqn:El.
    + assert (Hkeep : Str.last (String c (Repair.strip_trailing_commas 0 r))
                      = Some "}"%char).
      { rewrite last_cons. rewrite (IH 0); [reflexivity | intros i ? Hi; lia | exact Hlast]. }
      simpl Repair.strip_trailing_commas.
      destruct (Ascii.eqb c ","); [|exact Hkeep].
      destruct (Str.head (Str.drop_while Str.is_space r)) as [b|]; [|exact Hkeep].
      destruct (Repair.is_closing b); [|exact Hkeep].
      apply IH; [apply drop_while_space | exact Hlast].
    + apply last_none in El. subst r. simpl.
      destruct (Ascii.eqb c ","); exact Hlast.
  - simpl Repair.strip_trailing_commas.
    assert (Hc : Str.is_space c = true) by (apply (Hsp 0 c); [lia | reflexivity]).
    destruct (Str.last r) as [d|] eqn:El.
    + apply IH; [|exact Hlast]. intros i e Hi Hg. apply (Hsp (S i) e); [lia | exact Hg].
    + injection Hlast as ->. discriminate Hc.
Qed.

(** X19. When the answer without its fences holds an object, what
    [lightweightRepair] returns starts with the first opening brace and
    ends with a closing one: the prose around the object is cut off. *)
Theorem repair_isolates_object (text : string) :
  holds_object (unfenced text) ->
  Str.head (lightweightRepair text) = Some "{"%char
  /\ Str.last (lightweightRepair text) = Some "}"%char.
Proof.
  intros Hobj. apply isolate_object_delimited in Hobj. destruct Hobj as [Hh Hl].
  unfold lightweightRepair, unfenced in *. cbv zeta.
  set (obj := Repair.isolate_object _) in *.
  assert (Hh' : Str.head (Repair.strip_trailing_commas 0 obj) = Some "{"%char).
  { destruct obj as [|c r]; [discriminate|]. simpl in Hh. injection Hh as ->. reflexivity. }
  assert (Hl' : Str.last (Repair.strip_trailing_commas 0 obj) = Some "}"%char).
  { apply strip_trailing_commas_last; [intros i ? Hi; lia | exact Hl]. }
  set (block := Repair.strip_trailing_commas 0 obj) in *.
  unfold Repair.balance_braces. cbv zeta.
  destruct (Nat.ltb _ _) eqn:E; [|split; assumption].
  apply Nat.ltb_lt in E. split.
  - rewrite head_append, Hh'. reflexivity.
  - destruct (Str.count_char "{" block - Str.count_char "}" block) as [|n] eqn:En; [lia|].
    rewrite last_append by reflexivity.
    clear. induction n as [|n IH]; [reflexivity|].
    change (Str.repeat "}" (S (S n))) with (String "}" (Str.repeat "}" (S n))).
    rewrite last_cons, IH. reflexivity.
Qed.

(** ** More on the workspace guard *)

Lemma push_segment_plain (allow : bool) (res : list string) (seg : string) :
  plain_name seg -> Path.push_segment allow res seg = seg :: res.
Proof.
  intros [[Ht _] [Hd Hdd]]. unfold Path.push_segment.
  destruct (String.eqb_spec seg ""); [subst; discriminate|].
  destruct (String.eqb_spec seg "."); [contradiction|].
  destruct (String.eqb_spec seg ".."); [contradiction|]. reflexivity.
Qed.

Lemma fold_push_plain (allow : bool) (l res : list string) :
  Forall plain_name l -> fold_left (Path.push_segment allow) l res = rev l ++ res.
Proof.
  revert res. induction l as [|x l IH]; intros res Hl; [reflexivity|].
  inversion Hl as [|? ? Hx Hl']; subst. simpl fold_left.
  rewrite push_segment_plain by exact Hx. rewrite IH by exact Hl'.
  simpl. rewrite <- app_assoc. reflexivity.
Qed.

(** Without leave to climb above the root, the segments kept are
    plain names. *)
Lemma fold_push_keeps_plain (l res : list string) :
  Forall plain_name res ->
  Forall (fun x => Str.count_char Str.slash x = 0) l ->
  Forall plain_name (fold_left (Path.push_segment false) l res).
Proof.
  revert res. induction l as [|x l IH]; intros res Hres Hl; [exact Hres|].
  inversion Hl as [|? ? Hx Hl']; subst. simpl fold_left. apply IH; [|exact Hl'].
  unfold Path.push_segment.
  destruct (String.eqb_spec x ""); [exact Hres|].
  destruct (String.eqb_spec x "."); [exact Hres|].
  destruct (String.eqb_spec x "..").
  - destruct res as [|top rest]; [constructor|].
    inversion Hres; subst. destruct (String.eqb top ".."); assumption.
  - constructor; [|exact Hres]. repeat split; try assumption.
    destruct x; [contradiction | reflexivity].
Qed.

Lemma normalizeSegments_plain (p : string) :
  Forall plain_name (Path.normalizeSegments false p).
Proof.
  unfold Path.normalizeSegments. apply Forall_rev.
  apply fold_push_keeps_plain; [constructor | apply split_no_separator].
Qed.

Lemma plain_component (s : string) : plain_name s -> component_ok s.
Proof. intros [H _]. exact H. Qed.

(** The scan of a path written in normal form. *)
Lemma fold_push_normal_form (allow : bool) (segs : list string) :
  Forall plain_name segs ->
  fold_left (Path.push_segment allow) (Str.split Str.slash ("/" +:+ Str.join "/" segs)) []
  = rev segs.
Proof.
  intros Hs. change ("/" +:+ ?x) with (String Str.slash x). simpl Str.split.
  simpl fold_left. destruct segs as [|s segs]; [reflexivity|].
  rewrite split_join; [|eapply Forall_impl; [exact Hs | apply plain_component] | discriminate].
  change (Path.push_segment allow [] "") with (@nil string).
  rewrite fold_push_plain by exact Hs. apply app_nil_r.
Qed.

(** The workspace root of a server in an absolute directory: the
    plain names of the directory, then [workspace]. *)
Lemma workspace_root_form (server_dir : string) :
  Path.isAbsolute server_dir = true ->
  WORKSPACE_ROOT server_dir
  = "/" +:+ Str.join "/" (Path.normalizeSegments false server_dir ++ ["workspace"]).
Proof.
  intros Habs.
  assert (Hd : Str.truthy server_dir = true) by (destruct server_dir; [discriminate | reflexivity]).
  unfold WORKSPACE_ROOT, Path.join.
  rewrite filter_cons_True by exact Hd. rewrite filter_cons_True by reflexivity.
  rewrite filter_nil.
  change (Str.join "/" [server_dir; "workspace"])
    with (server_dir +:+ String Str.slash "workspace").
  unfold Path.normalize.
  assert (Hne : Str.is_empty (server_dir +:+ String Str.slash "workspace") = false).
  { destruct server_dir; reflexivity. }
  assert (Ha : Path.isAbsolute (server_dir +:+ String Str.slash "workspace") = true).
  { destruct server_dir; [discriminate | exact Habs]. }
  assert (Ht : Path.hasTrailingSeparator (server_dir +:+ String Str.slash "workspace")
               = false).
  { unfold Path.hasTrailingSeparator. rewrite last_append; reflexivity. }
  rewrite Hne, Ha, Ht. simpl negb.
  assert (Hsegs : Path.normalizeSegments false (server_dir +:+ String Str.slash "workspace")
                  = Path.normalizeSegments false server_dir ++ ["workspace"]).
  { unfold Path.normalizeSegments.
    rewrite split_append. change (Str.split Str.slash "workspace") with ["workspace"].
    rewrite fold_left_app. simpl fold_left.
    change (Path.push_segment false ?res "workspace") with ("workspace" :: res).
    reflexivity. }
  unfold Path.normalizeString. rewrite Hsegs.
  rewrite join_not_empty by reflexivity. reflexivity.
Qed.

Lemma workspace_root_components (server_dir : string) :
  Path.isAbsolute server_dir = true ->
  Path.components (WORKSPACE_ROOT server_dir)
  = Path.normalizeSegments false server_dir ++ ["workspace"].
Proof.
  intros Habs. rewrite workspace_root_form by exact Habs.
  apply components_of_join. apply Forall_app. split.
  - apply normalizeSegments_ok.
  - repeat constructor.
Qed.

(** [path.resolve] of an absolute root and a relative target: the
    segments of the target are scanned after those of the root. *)
Lemma resolve_relative (cwd root target : string) :
  Path.isAbsolute root = true ->
  Str.is_empty target = false -> Path.isAbsolute target = false ->
  Path.resolve cwd [root; target]
  = "/" +:+ Str.join "/"
      (rev (fold_left (Path.push_segment false) (Str.split Str.slash target)
              (fold_left (Path.push_segment false) (Str.split Str.slash root) []))).
Proof.
  intros Habs Hne Hrel. unfold Path.resolve. simpl rev. simpl Path.resolve_scan.
  assert (Hroot : Str.is_empty root = false) by (destruct root; [discriminate | reflexivity]).
  rewrite Hne, Hrel, Hroot, Habs. cbv iota beta. simpl negb. cbv iota.
  unfold Path.normalizeString, Path.normalizeSegments.
  change (root +:+ "/" +:+ target +:+ "/" +:+ "")
    with (root +:+ String Str.slash (target +:+ String Str.slash EmptyString)).
  rewrite split_append, split_append, !fold_left_app. reflexivity.
Qed.

(** The same below the workspace root. *)
Lemma resolve_below_root (server_dir cwd target : string) :
  Path.isAbsolute server_dir = true ->
  Str.is_empty target = false -> Path.isAbsolute target = false ->
  Path.resolve cwd [WORKSPACE_ROOT server_dir; target]
  = "/" +:+ Str.join "/"
      (rev (fold_left (Path.push_segment false) (Str.split Str.slash target)
              ("workspace" :: rev (Path.normalizeSegments false server_dir)))).
Proof.
  intros Habs Hne Hrel.
  rewrite resolve_relative; [|rewrite workspace_root_form by exact Habs; reflexivity
                             |exact Hne|exact Hrel].
  rewrite workspace_root_form by exact Habs.
  rewrite fold_push_normal_form.
  - rewrite rev_app_distr. reflexivity.
  - apply Forall_app. split; [apply normalizeSegments_plain|].
    repeat constructor; discriminate.
Qed.

Lemma prefix_refl (x : string) : String.prefix x x = true.
Proof. rewrite <- (append_empty_r x) at 2. apply prefix_self_append. Qed.

Lemma join_snoc (l : list string) :
  exists pre, forall a, Str.join "/" (l ++ [a]) = pre +:+ a.
Proof.
  induction l as [|x l [pre IH]].
  - exists EmptyString. reflexivity.
  - exists (x +:+ "/" +:+ pre). intros a.
    assert (Hj : Str.join "/" ((x :: l) ++ [a]) = x +:+ "/" +:+ Str.join "/" (l ++ [a])).
    { simpl. destruct (l ++ [a]) eqn:E; [destruct l; discriminate E | reflexivity]. }
    rewrite Hj, IH, !append_assoc. reflexivity.
Qed.

Lemma join_app (l1 l2 : list string) :
  l1 <> [] -> l2 <> [] ->
  Str.join "/" (l1 ++ l2) = Str.join "/" l1 +:+ "/" +:+ Str.join "/" l2.
Proof.
  intros H1 H2. induction l1 as [|x l1 IH]; [contradiction|].
  destruct l1 as [|y l1].
  - simpl. destruct l2; [contradiction | reflexivity].
  - change (Str.join "/" ((x :: y :: l1) ++ l2))
      with (x +:+ "/" +:+ Str.join "/" ((y :: l1) ++ l2)).
    rewrite IH by discriminate.
    change (Str.join "/" (x :: y :: l1)) with (x +:+ "/" +:+ Str.join "/" (y :: l1)).
    rewrite !append_assoc. reflexivity.
Qed.

Lemma count_zero_head (c : ascii) (s : string) (d : ascii) :
  Str.count_char c s = 0 -> Str.head s = Some d -> Ascii.eqb d c = false.
Proof.
  destruct s as [|e r]; [discriminate|]. intros Hc Hh. injection Hh as <-.
  apply count_zero_cons in Hc. apply Hc.
Qed.

Lemma count_zero_last (c : ascii) (s : string) (d : ascii) :
  Str.count_char c s = 0 -> Str.last s = Some d -> Ascii.eqb d c = false.
Proof.
  induction s as [|e r IH]; [discriminate|]. intros Hc Hl.
  apply count_zero_cons in Hc. destruct Hc as [He Hc].
  destruct r as [|e' r']; [injection Hl as <-; exact He|].
  apply IH; [exact Hc | exact Hl].
Qed.

Lemma last_some (s : string) : Str.truthy s = true -> exists d, Str.last s = Some d.
Proof.
  induction s as [|c r IH]; [discriminate|]. intros _.
  destruct r as [|c' r']; [eexists; reflexivity|]. apply IH. reflexivity.
Qed.

(** A relative path of plain names is its own normal form. *)
Lemma normalize_plain (names : list string) :
  names <> [] -> Forall plain_name names ->
  Path.normalize (Str.join "/" names) = Str.join "/" names
  /\ Str.is_empty (Str.join "/" names) = false
  /\ Path.isAbsolute (Str.join "/" names) = false.
Proof.
  intros Hne Hall.
  assert (Hcomp : Forall component_ok names).
  { eapply Forall_impl; [exact Hall | apply plain_component]. }
  destruct (exists_last Hne) as (front & x & ->).
  apply Forall_app in Hall as Hall'. destruct Hall' as [_ Hx].
  inversion Hx as [|? ? [[Hxt Hxs] _] _]; subst.
  assert (Hempty : Str.is_empty (Str.join "/" (front ++ [x])) = false).
  { apply join_not_empty, Hxt. }
  assert (Habs : Path.isAbsolute (Str.join "/" (front ++ [x])) = false).
  { unfold Path.isAbsolute.
    destruct (front ++ [x]) as [|y l] eqn:E; [reflexivity|].
    inversion Hcomp as [|? ? [Hyt Hys] _]; subst.
    assert (Hh : Str.head (Str.join "/" (y :: l)) = Str.head y).
    { destruct l; [reflexivity|].
      change (Str.join "/" (y :: s :: l)) with (y +:+ "/" +:+ Str.join "/" (s :: l)).
      rewrite head_append. destruct y; [discriminate | reflexivity]. }
    rewrite Hh. destruct (Str.head y) as [c|] eqn:Ec; [|reflexivity].
    apply (count_zero_head _ _ _ Hys Ec). }
  assert (Htrail : Path.hasTrailingSeparator (Str.join "/" (front ++ [x])) = false).
  { unfold Path.hasTrailingSeparator. destruct (join_snoc front) as [pre Hpre].
    rewrite Hpre, last_append by (destruct x; [discriminate | reflexivity]).
    destruct (Str.last x) as [c|] eqn:Ec; [|reflexivity].
    apply (count_zero_last _ _ _ Hxs Ec). }
  split; [|split; assumption].
  unfold Path.normalize. rewrite Hempty, Habs, Htrail. simpl negb.
  unfold Path.normalizeString, Path.normalizeSegments.
  rewrite split_join by (try exact Hcomp; destruct front; discriminate).
  rewrite fold_push_plain by exact Hall. rewrite app_nil_r, rev_involutive.
  rewrite Hempty. reflexivity.
Qed.

Section GuardProperties.

Variables server_dir cwd : string.
Hypothesis server_dir_absolute : Path.isAbsolute server_dir = true.

(** X1. A relative path of plain names is accepted and denotes the path
    of these names below the workspace root. *)
Theorem guard_accepts_plain_names (names : list string) :
  names <> [] -> Forall plain_name names ->
  resolveWorkspacePath server_dir cwd (Some (Str.join "/" names))
  = inl (WORKSPACE_ROOT server_dir +:+ "/" +:+ Str.join "/" names)
  /\ Path.components (WORKSPACE_ROOT server_dir +:+ "/" +:+ Str.join "/" names)
     = Path.components (WORKSPACE_ROOT server_dir) ++ names.
Proof.
  intros Hne Hall. destruct (normalize_plain names Hne Hall) as (Hnorm & Hempty & Hrel).
  assert (Hcomp : Forall component_ok names).
  { eapply Forall_impl; [exact Hall | apply plain_component]. }
  assert (Hres : Path.resolve cwd [WORKSPACE_ROOT server_dir; Str.join "/" names]
                 = WORKSPACE_ROOT server_dir +:+ "/" +:+ Str.join "/" names
                 /\ WORKSPACE_ROOT server_dir +:+ "/" +:+ Str.join "/" names
                    = "/" +:+ Str.join "/"
                        ((Path.normalizeSegments false server_dir ++ ["workspace"]) ++ names)).
  { rewrite resolve_below_root by assumption.
    rewrite split_join by assumption. rewrite fold_push_plain by exact Hall.
    rewrite rev_app_distr, rev_involutive. simpl rev. rewrite rev_involutive.
    rewrite (workspace_root_form server_dir server_dir_absolute).
    rewrite (join_app (_ ++ ["workspace"]) names); [|destruct (Path.normalizeSegments false server_dir); discriminate|exact Hne].
    rewrite !append_assoc. split; reflexivity. }
  destruct Hres as [Hres Hform].
  assert (Hcomps : Path.components (WORKSPACE_ROOT server_dir +:+ "/" +:+ Str.join "/" names)
                   = Path.components (WORKSPACE_ROOT server_dir) ++ names).
  { rewrite Hform, workspace_root_components by exact server_dir_absolute.
    apply components_of_join. apply Forall_app. split; [|exact Hcomp].
    apply Forall_app. split; [apply normalizeSegments_ok | repeat constructor]. }
  split; [|exact Hcomps].
  rewrite <- Hres at 1. rewrite <- Hnorm at 2.
  apply (guard_returns_inside_absolute server_dir cwd (Some (Str.join "/" names))
           server_dir_absolute).
  unfold within_workspace. simpl default. rewrite Hnorm, Hres, Hcomps.
  apply prefix_app_r. reflexivity.
Qed.

(** X2. No path, the empty path and the path of one dot all denote the
    workspace root itself. *)
Theorem guard_default_is_root :
  resolveWorkspacePath server_dir cwd None = inl (WORKSPACE_ROOT server_dir)
  /\ resolveWorkspacePath server_dir cwd (Some EmptyString) = inl (WORKSPACE_ROOT server_dir)
  /\ resolveWorkspacePath server_dir cwd (Some ".") = inl (WORKSPACE_ROOT server_dir).
Proof.
  assert (Hres : Path.resolve cwd [WORKSPACE_ROOT server_dir; "."] = WORKSPACE_ROOT server_dir).
  { rewrite resolve_below_root by (try reflexivity; exact server_dir_absolute).
    change (Str.split Str.slash ".") with ["."]. simpl fold_left.
    change (Path.push_segment false ?res ".") with res.
    simpl rev. rewrite rev_involutive. symmetry.
    apply workspace_root_form, server_dir_absolute. }
  assert (Hguard : forall rel, Path.normalize (default "" rel) = "." ->
             resolveWorkspacePath server_dir cwd rel = inl (WORKSPACE_ROOT server_dir)).
  { intros rel Hn. unfold resolveWorkspacePath. rewrite Hn, Hres.
    unfold Str.startsWith. rewrite prefix_refl. reflexivity. }
  repeat split; apply Hguard; reflexivity.
Qed.

(** With an absolute root the resolved path is a slash and plain
    names joined by slashes. *)
Lemma resolve_absolute_plain (root target : string) :
  Path.isAbsolute root = true ->
  exists segs,
    Path.resolve cwd [root; target] = "/" +:+ Str.join "/" segs
    /\ Forall plain_name segs.
Proof.
  intros Habs. unfold Path.resolve. simpl rev. simpl Path.resolve_scan.
  assert (Hroot : Str.is_empty root = false) by (destruct root; [discriminate | reflexivity]).
  destruct (Str.is_empty target).
  - rewrite Hroot, Habs. eexists; split; [reflexivity | apply normalizeSegments_plain].
  - destruct (Path.isAbsolute target).
    + eexists; split; [reflexivity | apply normalizeSegments_plain].
    + rewrite Hroot, Habs. eexists; split; [reflexivity | apply normalizeSegments_plain].
Qed.

(** X3. Whatever the guard returns is an absolute path in normal form:
    its components are plain names, with no dot or double dot left, and
    the path is the slash-separated text of these components. *)
Theorem guard_returns_normal_form (rel : option string) (resolved : string) :
  resolveWorkspacePath server_dir cwd rel = inl resolved ->
  resolved = "/" +:+ Str.join "/" (Path.components resolved)
  /\ Forall plain_name (Path.components resolved).
Proof.
  intros Hr. apply guard_accepts_prefix in Hr. destruct Hr as [_ ->].
  destruct (resolve_absolute_plain (WORKSPACE_ROOT server_dir)
              (Path.normalize (default "" rel))) as (segs & Hres & Hsegs).
  { rewrite workspace_root_form by exact server_dir_absolute. reflexivity. }
  rewrite Hres. rewrite components_of_join.
  - split; [reflexivity | exact Hsegs].
  - eapply Forall_impl; [exact Hsegs | apply plain_component].
Qed.

(** X4. The guard compares texts: for every sibling of the workspace
    root whose name starts with [workspace], the path through the parent
    directory is returned, though it lies outside the workspace. *)
Theorem guard_admits_every_such_sibling (suffix : string) :
  Str.truthy suffix = true -> Str.count_char Str.slash suffix = 0 ->
  exists resolved,
    resolveWorkspacePath server_dir cwd (Some ("../workspace" +:+ suffix)) = inl resolved
    /\ ~ within_workspace server_dir resolved.
Proof.
  intros Hne Hslash.
  set (sibling := "workspace" +:+ suffix).
  assert (Hsplit : Str.split Str.slash ("../workspace" +:+ suffix) = [".."; sibling]).
  { change ("../workspace" +:+ suffix) with (".." +:+ String Str.slash sibling).
    rewrite split_segment by reflexivity. rewrite split_single; [reflexivity|].
    unfold sibling. rewrite count_char_append. rewrite Hslash. reflexivity. }
  assert (Hlast : Path.hasTrailingSeparator ("../workspace" +:+ suffix) = false).
  { unfold Path.hasTrailingSeparator.
    rewrite last_append by (destruct suffix; [discriminate | reflexivity]).
    destruct (Str.last suffix) as [c|] eqn:Ec; [|reflexivity].
    apply (count_zero_last _ _ _ Hslash Ec). }
  assert (Hnorm : Path.normalize ("../workspace" +:+ suffix) = "../workspace" +:+ suffix).
  { unfold Path.normalize. rewrite Hlast.
    change (Str.is_empty ("../workspace" +:+ suffix)) with false.
    change (Path.isAbsolute ("../workspace" +:+ suffix)) with false.
    cbv iota. simpl negb. unfold Path.normalizeString, Path.normalizeSegments.
    rewrite Hsplit. reflexivity. }
  assert (Hres : Path.resolve cwd [WORKSPACE_ROOT server_dir; "../workspace" +:+ suffix]
                 = "/" +:+ Str.join "/" (Path.normalizeSegments false server_dir ++ [sibling])).
  { rewrite resolve_below_root by (try reflexivity; exact server_dir_absolute).
    rewrite Hsplit. simpl fold_left.
    change (Path.push_segment false ("workspace" :: ?res) "..") with res.
    change (Path.push_segment false ?res sibling) with (sibling :: res).
    simpl rev. rewrite rev_involutive. reflexivity. }
  exists ("/" +:+ Str.join "/" (Path.normalizeSegments false server_dir ++ [sibling])).
  split.
  - unfold resolveWorkspacePath. simpl default. rewrite Hnorm, Hres.
    rewrite workspace_root_form by exact server_dir_absolute.
    unfold Str.startsWith.
    destruct (join_snoc (Path.normalizeSegments false server_dir)) as [pre Hpre].
    rewrite !Hpre. rewrite <- !append_assoc, prefix_append.
    unfold sibling. rewrite prefix_self_append. reflexivity.
  - unfold within_workspace. rewrite workspace_root_components by exact server_dir_absolute.
    rewrite components_of_join.
    + intros [k Hk]. rewrite <- app_assoc in Hk. apply app_inv_head in Hk.
      injection Hk as Hk _. unfold sibling in Hk.
      destruct suffix; [discriminate Hne | discriminate Hk].
    + apply Forall_app. split; [apply normalizeSegments_ok|].
      repeat constructor. unfold sibling. rewrite count_char_append, Hslash. reflexivity.
Qed.

End GuardProperties.

(** ** More on the file system *)

Lemma walk_from_lookup (fs : FileSystem) (rest seen : list string) (v : option node) :
  Fs.walk_from fs seen rest = inl v -> v = Fs.lookup_node fs (seen ++ rest).
Proof.
  revert seen. induction rest as [|x rest IH]; intros seen; simpl.
  - rewrite app_nil_r. intros Hv. injection Hv as <-. reflexivity.
  - destruct (Fs.lookup_node fs seen) as [[c|]|]; try discriminate.
    intros Hw. apply IH in Hw. rewrite <- app_assoc in Hw. exact Hw.
Qed.

(** The walk looks only at the nodes on its way. *)
Lemma walk_from_agree (fs fs' : FileSystem) (rest seen : list string) :
  (forall j, seen `prefix_of` j -> j `prefix_of` seen ++ rest -> fs' !! j = fs !! j) ->
  Fs.walk_from fs' seen rest = Fs.walk_from fs seen rest.
Proof.
  revert seen. induction rest as [|x rest IH]; intros seen Hagree; simpl.
  - assert (Hl : Fs.lookup_node fs' seen = Fs.lookup_node fs seen).
    { destruct seen; [reflexivity|]. simpl. apply Hagree; [reflexivity|].
      rewrite app_nil_r. reflexivity. }
    rewrite Hl. reflexivity.
  - assert (Hl : Fs.lookup_node fs' seen = Fs.lookup_node fs seen).
    { destruct seen; [reflexivity|]. simpl. apply Hagree; [reflexivity|].
      apply prefix_app_r. reflexivity. }
    rewrite Hl. destruct (Fs.lookup_node fs seen) as [[c|]|]; try reflexivity.
    apply IH. intros j Hj1 Hj2. apply Hagree.
    + transitivity (seen ++ [x]); [apply prefix_app_r; reflexivity | exact Hj1].
    + rewrite <- app_assoc in Hj2. exact Hj2.
Qed.

(** Creating directories loses nothing and leaves the nodes above
    the starting point alone. *)
Lemma mkdir_from_grows (rest seen : list string) (fs fs' : FileSystem) :
  Fs.mkdir_from fs seen rest = inl fs' ->
  fs ⊆ fs' /\ (forall j, length j <= length seen -> fs' !! j = fs !! j).
Proof.
  revert seen fs. induction rest as [|x rest IH]; intros seen fs; simpl.
  - intros Heq. injection Heq as <-. split; [reflexivity | auto].
  - destruct (fs !! (seen ++ [x])) as [[c|]|] eqn:Hk.
    + discriminate.
    + intros Hm. apply IH in Hm. destruct Hm as [Hsub Hsame]. split; [exact Hsub|].
      intros j Hj. apply Hsame. rewrite length_app. simpl. lia.
    + intros Hm. apply IH in Hm. destruct Hm as [Hsub Hsame]. split.
      * transitivity (<[seen ++ [x] := Dir]> fs); [apply insert_subseteq, Hk | exact Hsub].
      * intros j Hj. rewrite Hsame by (rewrite length_app; simpl; lia).
        apply lookup_insert_ne. intros Heq. subst j. rewrite length_app in Hj. simpl in Hj. lia.
Qed.

(** After the directories of a path are created the walk of the
    path ends at a directory. *)
Lemma mkdir_from_walk (rest seen : list string) (fs fs' : FileSystem) :
  Fs.mkdir_from fs seen rest = inl fs' ->
  Fs.lookup_node fs seen = Some Dir ->
  Fs.walk_from fs' seen rest = inl (Some Dir).
Proof.
  revert seen fs. induction rest as [|x rest IH]; intros seen fs.
  - simpl. intros Heq Hseen. injection Heq as <-. rewrite Hseen. reflexivity.
  - intros Hm Hseen.
    assert (Hseen' : Fs.lookup_node fs' seen = Some Dir).
    { destruct seen as [|y seen]; [reflexivity|].
      apply mkdir_from_grows in Hm as [_ Hsame].
      change (fs' !! (y :: seen) = Some Dir). rewrite Hsame by reflexivity. exact Hseen. }
    simpl in *. rewrite Hseen'.
    destruct (fs !! (seen ++ [x])) as [[c|]|] eqn:Hk; try discriminate.
    + apply (IH _ _ Hm). destruct seen; exact Hk.
    + apply (IH _ _ Hm).
      assert (Hl : Fs.lookup_node (<[seen ++ [x] := Dir]> fs) (seen ++ [x])
                   = <[seen ++ [x] := Dir]> fs !! (seen ++ [x])).
      { destruct seen; reflexivity. }
      rewrite Hl. apply lookup_insert_eq.
Qed.

(** [mkdir] with [recursive]: on success the path is a directory and
    every node that was there is still there. *)
Lemma mkdir_recursive_ok (p : string) (fs fs' : FileSystem) :
  Fs.mkdir_recursive p fs = (inl tt, fs') ->
  Fs.walk fs' p = inl (Some Dir) /\ fs ⊆ fs'.
Proof.
  unfold Fs.mkdir_recursive, Fs.walk.
  destruct (Fs.mkdir_from fs [] (Path.components p)) as [fs1|e] eqn:Hm; [|discriminate].
  intros Heq. injection Heq as <-. split.
  - apply (mkdir_from_walk _ _ _ _ Hm). reflexivity.
  - apply (mkdir_from_grows _ _ _ _ Hm).
Qed.

(** On failure nothing changes. *)
Lemma mkdir_recursive_failed (p : string) (fs fs' : FileSystem) (e : exn) :
  Fs.mkdir_recursive p fs = (inr e, fs') -> fs' = fs.
Proof.
  unfold Fs.mkdir_recursive.
  destruct (Fs.mkdir_from fs [] (Path.components p)); intros Heq; [discriminate|].
  injection Heq as _ <-. reflexivity.
Qed.

(** Where the walk of a path succeeds, the directories above it
    exist: creating them changes nothing. *)
Lemma mkdir_dirname_existing (p : string) (fs : FileSystem) (v : option node) :
  Fs.walk fs p = inl v -> Fs.mkdir_recursive (Path.dirname p) fs = (inl tt, fs).
Proof.
  unfold Fs.walk, Fs.mkdir_recursive. rewrite components_dirname. intros Hwalk.
  destruct (Path.components p) as [|y ys] eqn:Hc; [reflexivity|].
  destruct (removelast_last (y :: ys) y) as [x Hx]; [discriminate|].
  rewrite Hx in Hwalk. rewrite (mkdir_from_existing _ _ _ _ _ Hwalk). reflexivity.
Qed.

Lemma readFile_walk (fs : FileSystem) (p content : string) :
  Fs.readFile fs p = inl content <-> Fs.walk fs p = inl (Some (File content)).
Proof.
  unfold Fs.readFile. destruct (Fs.walk fs p) as [[[c|]|]|e]; split; intros Heq;
    try discriminate; injection Heq as ->; reflexivity.
Qed.

(** After the removal of a path the walk of the path finds nothing,
    except at the root of the file system, which always is. *)
Lemma walk_after_rm (fs : FileSystem) (p : string) (n : node) :
  Fs.walk (filter (fun kv : list string * node => ~ (Path.components p `prefix_of` kv.1)) fs) p
  = inl (Some n) ->
  Path.components p = [].
Proof.
  unfold Fs.walk. intros Hw. apply walk_from_lookup in Hw. simpl in Hw.
  destruct (Path.components p) as [|y ys] eqn:Hc; [reflexivity|].
  simpl in Hw. symmetry in Hw. apply map_lookup_filter_Some in Hw.
  destruct Hw as [_ Hno]. exfalso. apply Hno. reflexivity.
Qed.

(** The removal of a path leaves the walk to its parent as it was. *)
Lemma walk_parent_after_rm (fs : FileSystem) (k : list string) :
  Fs.walk_from (filter (fun kv : list string * node => ~ (k `prefix_of` kv.1)) fs) []
    (removelast k)
  = Fs.walk_from fs [] (removelast k).
Proof.
  destruct k as [|y ys]; [reflexivity|].
  apply walk_from_agree. intros j _ Hj. apply lookup_after_rm.
  intros Hk. rewrite app_nil_l in Hj.
  apply prefix_length in Hj. apply prefix_length in Hk.
  assert (Hlen : length (removelast (y :: ys)) < length (y :: ys)).
  { destruct (removelast_last (y :: ys) y) as [x Hx]; [discriminate|].
    rewrite Hx at 2. rewrite length_app. simpl. lia. }
  lia.
Qed.

Lemma rm_twice (fs : FileSystem) (k : list string) :
  filter (fun kv : list string * node => ~ (k `prefix_of` kv.1))
    (filter (fun kv : list string * node => ~ (k `prefix_of` kv.1)) fs)
  = filter (fun kv : list string * node => ~ (k `prefix_of` kv.1)) fs.
Proof.
  apply map_eq. intros j. apply option_eq. intros n.
  rewrite !map_lookup_filter_Some. tauto.
Qed.

(** ** File API *)

Section FileApiProperties.

Variables server_dir cwd : string.

Lemma api_read_run (p file : string) (fs : FileSystem) :
  Str.truthy p = true -> resolveWorkspacePath server_dir cwd (Some p) = inl file ->
  api_read server_dir cwd (Some p) fs
  = (inl match Fs.walk fs file with
         | inl (Some Dir) => Error 400 "path is directory"
         | inl (Some (File content)) => Ok200 (ReadBody p content)
         | inl None => Error 400 (Fs.message ENOENT "stat" file)
         | inr e => Error 400 (Fs.message e "stat" file)
         end, fs).
Proof.
  intros Hp Hr. unfold api_read, try_catch, bind, lift_result, fs_stat, fs_readFile, ret.
  change (truthy_field (Some p)) with (Str.truthy p). rewrite Hp. change (negb true) with false. cbv iota. change (default "" (Some p)) with p. rewrite Hr.
  cbv beta iota. unfold Fs.stat.
  destruct (Fs.walk fs file) as [[[c|]|]|e] eqn:E;
    cbv beta iota delta [Fs.isDirectory]; unfold Fs.readFile; rewrite ?E; reflexivity.
Qed.

Lemma api_save_run (p file : string) (content : option string) (fs : FileSystem) :
  Str.truthy p = true -> resolveWorkspacePath server_dir cwd (Some p) = inl file ->
  api_save server_dir cwd (Some p) content fs
  = match Fs.mkdir_recursive (Path.dirname file) fs with
    | (inr e, fs1) => (inl (Error 400 e), fs1)
    | (inl _, fs1) =>
        match Fs.writeFile file (default "" content) fs1 with
        | (inr e, fs2) => (inl (Error 400 e), fs2)
        | (inl _, fs2) => (inl (Ok200 (OkBody p None)), fs2)
        end
    end.
Proof.
  intros Hp Hr. unfold api_save, try_catch, bind, lift_result, fs_mkdir_recursive,
    fs_writeFile, ret.
  change (truthy_field (Some p)) with (Str.truthy p). rewrite Hp. change (negb true) with false. cbv iota. change (default "" (Some p)) with p. rewrite Hr.
  destruct (Fs.mkdir_recursive (Path.dirname file) fs) as [[[]|e] fs1]; [|reflexivity].
  destruct (Fs.writeFile file (default "" content) fs1) as [[[]|e] fs2]; reflexivity.
Qed.

Lemma api_create_file_run (p target : string) (fs : FileSystem) :
  Str.truthy p = true -> resolveWorkspacePath server_dir cwd (Some p) = inl target ->
  api_create server_dir cwd (Some p) false fs
  = match Fs.mkdir_recursive (Path.dirname target) fs with
    | (inr e, fs1) => (inl (Error 400 e), fs1)
    | (inl _, fs1) =>
        match Fs2.writeFile_exclusive target "" fs1 with
        | (inl _, fs2) => (inl (Ok200 (OkBody p (Some false))), fs2)
        | (inr (EEXIST, _), fs2) => (inl (Ok200 (OkBody p (Some false))), fs2)
        | (inr (_, e), fs2) => (inl (Error 400 e), fs2)
        end
    end.
Proof.
  intros Hp Hr. unfold api_create, try_catch, bind, lift_result, fs_mkdir_recursive, ret.
  change (truthy_field (Some p)) with (Str.truthy p). rewrite Hp. change (negb true) with false. cbv iota. change (default "" (Some p)) with p. rewrite Hr.
  destruct (Fs.mkdir_recursive (Path.dirname target) fs) as [[[]|e] fs1]; [|reflexivity].
  destruct (Fs2.writeFile_exclusive target "" fs1) as [[[]|[[] e]] fs2]; reflexivity.
Qed.

Lemma api_create_directory_run (p target : string) (fs : FileSystem) :
  Str.truthy p = true -> resolveWorkspacePath server_dir cwd (Some p) = inl target ->
  api_create server_dir cwd (Some p) true fs
  = match Fs.mkdir_recursive target fs with
    | (inr e, fs1) => (inl (Error 400 e), fs1)
    | (inl _, fs1) => (inl (Ok200 (OkBody p (Some true))), fs1)
    end.
Proof.
  intros Hp Hr. unfold api_create, try_catch, bind, lift_result, fs_mkdir_recursive, ret.
  change (truthy_field (Some p)) with (Str.truthy p). rewrite Hp. change (negb true) with false. cbv iota. change (default "" (Some p)) with p. rewrite Hr.
  destruct (Fs.mkdir_recursive target fs) as [[[]|e] fs1]; reflexivity.
Qed.

Lemma api_delete_run (p target : string) (fs : FileSystem) :
  Str.truthy p = true -> resolveWorkspacePath server_dir cwd (Some p) = inl target ->
  api_delete server_dir cwd (Some p) fs
  = match Fs.rm_recursive_force target fs with
    | (inr e, fs1) => (inl (Error 400 e), fs1)
    | (inl _, fs1) => (inl (Ok200 (OkBody p None)), fs1)
    end.
Proof.
  intros Hp Hr. unfold api_delete, try_catch, bind, lift_result, fs_rm_recursive_force, ret.
  change (truthy_field (Some p)) with (Str.truthy p). rewrite Hp. change (negb true) with false. cbv iota. change (default "" (Some p)) with p. rewrite Hr.
  destruct (Fs.rm_recursive_force target fs) as [[[]|e] fs1]; reflexivity.
Qed.

(** A handler that answers 200 was given a path, and the guard let
    the path through. *)
Lemma api_save_ok_path (path content : option string) (fs fs' : FileSystem) (body : api_body) :
  api_save server_dir cwd path content fs = (inl (Ok200 body), fs') ->
  exists p file, path = Some p /\ Str.truthy p = true
                 /\ resolveWorkspacePath server_dir cwd (Some p) = inl file.
Proof.
  unfold api_save, try_catch, bind, lift_result, ret.
  destruct path as [p|]; [|discriminate].
  change (truthy_field (Some p)) with (Str.truthy p).
  destruct (Str.truthy p) eqn:Hp; [|discriminate]. change (negb true) with false. cbv iota.
  change (default "" (Some p)) with p.
  destruct (resolveWorkspacePath server_dir cwd (Some p)) as [file|e] eqn:Hr; [|discriminate].
  intros _. exists p, file. auto.
Qed.

Lemma api_create_ok_path (path : option string) (isDirectory : bool) (fs fs' : FileSystem)
    (body : api_body) :
  api_create server_dir cwd path isDirectory fs = (inl (Ok200 body), fs') ->
  exists p file, path = Some p /\ Str.truthy p = true
                 /\ resolveWorkspacePath server_dir cwd (Some p) = inl file.
Proof.
  unfold api_create, try_catch, bind, lift_result, ret.
  destruct path as [p|]; [|discriminate].
  change (truthy_field (Some p)) with (Str.truthy p).
  destruct (Str.truthy p) eqn:Hp; [|discriminate]. change (negb true) with false. cbv iota.
  change (default "" (Some p)) with p.
  destruct (resolveWorkspacePath server_dir cwd (Some p)) as [file|e] eqn:Hr; [|discriminate].
  intros _. exists p, file. auto.
Qed.

Lemma api_delete_ok_path (path : option string) (fs fs' : FileSystem) (body : api_body) :
  api_delete server_dir cwd path fs = (inl (Ok200 body), fs') ->
  exists p file, path = Some p /\ Str.truthy p = true
                 /\ resolveWorkspacePath server_dir cwd (Some p) = inl file.
Proof.
  unfold api_delete, try_catch, bind, lift_result, ret.
  destruct path as [p|]; [|discriminate].
  change (truthy_field (Some p)) with (Str.truthy p).
  destruct (Str.truthy p) eqn:Hp; [|discriminate]. change (negb true) with false. cbv iota.
  change (default "" (Some p)) with p.
  destruct (resolveWorkspacePath server_dir cwd (Some p)) as [file|e] eqn:Hr; [|discriminate].
  intros _. exists p, file. auto.
Qed.

(** X6. What was saved is what is read: after a save that answered 200,
    reading the same path answers 200 with the saved content, the empty
    text for a save without content. *)
Theorem saved_file_reads_back (path content : option string) (fs fs' : FileSystem)
    (body : api_body) :
  api_save server_dir cwd path content fs = (inl (Ok200 body), fs') ->
  api_read server_dir cwd path fs'
  = (inl (Ok200 (ReadBody (default "" path) (default "" content))), fs').
Proof.
  intros Hsave. destruct (api_save_ok_path _ _ _ _ _ Hsave) as (p & file & -> & Hp & Hr).
  rewrite (api_save_run p file content fs Hp Hr) in Hsave.
  destruct (Fs.mkdir_recursive (Path.dirname file) fs) as [[[]|e] fs1]; [|discriminate].
  destruct (Fs.writeFile file (default "" content) fs1) as [[[]|e] fs2] eqn:Hw; [|discriminate].
  injection Hsave as _ <-.
  rewrite (api_read_run p file fs2 Hp Hr).
  apply read_after_write in Hw. apply readFile_walk in Hw. rewrite Hw. reflexivity.
Qed.

(** X8. Creating a file never overwrites: where the path exists already,
    as a file or as a directory, the handler answers 200 and the file
    system is as it was. *)
Theorem create_keeps_existing (p target : string) (fs : FileSystem) :
  Str.truthy p = true ->
  resolveWorkspacePath server_dir cwd (Some p) = inl target ->
  Fs.existsSync fs target = true ->
  api_create server_dir cwd (Some p) false fs
  = (inl (Ok200 (OkBody p (Some false))), fs).
Proof.
  intros Hp Hr Hex. rewrite (api_create_file_run p target fs Hp Hr).
  unfold Fs.existsSync in Hex.
  destruct (Fs.walk fs target) as [[n|]|e] eqn:Hw; try discriminate.
  rewrite (mkdir_dirname_existing _ _ _ Hw).
  unfold Fs2.writeFile_exclusive. rewrite Hw. reflexivity.
Qed.

(** X9. A created directory is a directory: after a creation with
    [isDirectory] that answered 200, reading the path answers 400 with
    the message for a directory, and nothing that was there is lost. *)
Theorem created_directory_is_directory (path : option string) (fs fs' : FileSystem)
    (body : api_body) :
  api_create server_dir cwd path true fs = (inl (Ok200 body), fs') ->
  api_read server_dir cwd path fs' = (inl (Error 400 "path is directory"), fs')
  /\ fs ⊆ fs'.
Proof.
  intros Hc. destruct (api_create_ok_path _ _ _ _ _ Hc) as (p & target & -> & Hp & Hr).
  rewrite (api_create_directory_run p target fs Hp Hr) in Hc.
  destruct (Fs.mkdir_recursive target fs) as [[[]|e] fs1] eqn:Hm; [|discriminate].
  injection Hc as _ <-. apply mkdir_recursive_ok in Hm. destruct Hm as [Hw Hsub].
  split; [|exact Hsub].
  rewrite (api_read_run p target fs1 Hp Hr), Hw. reflexivity.
Qed.

(** X10. What was deleted is gone, and deleting again is no error: after
    a deletion that answered 200, reading the path answers 400, and the
    same deletion answers 200 again and changes nothing. *)
Theorem deleted_path_is_gone (path : option string) (fs fs' : FileSystem) (body : api_body) :
  api_delete server_dir cwd path fs = (inl (Ok200 body), fs') ->
  (exists e, api_read server_dir cwd path fs' = (inl (Error 400 e), fs'))
  /\ api_delete server_dir cwd path fs' = (inl (Ok200 body), fs').
Proof.
  intros Hd. destruct (api_delete_ok_path _ _ _ _ Hd) as (p & target & -> & Hp & Hr).
  rewrite (api_delete_run p target fs Hp Hr) in Hd.
  unfold Fs.rm_recursive_force in Hd.
  destruct (Fs.through_file fs target) eqn:Ht; [discriminate|].
  injection Hd as <- <-. split.
  - rewrite (api_read_run p target _ Hp Hr).
    destruct (Fs.walk _ target) as [[[c|]|]|e] eqn:Hw; eauto.
    pose proof (walk_after_rm _ _ _ Hw) as Hc. unfold Fs.walk in Hw.
    rewrite Hc in Hw. discriminate Hw.
  - rewrite (api_delete_run p target _ Hp Hr). unfold Fs.rm_recursive_force.
    assert (Ht' : Fs.through_file
                    (filter (fun kv : list string * node =>
                               ~ (Path.components target `prefix_of` kv.1)) fs) target
                  = false).
    { unfold Fs.through_file in *. rewrite walk_parent_after_rm. exact Ht. }
    rewrite Ht', rm_twice. reflexivity.
Qed.

(** X11. A path the guard refuses reaches no file operation: each of the
    five handlers answers 400 with the message of the guard and leaves
    the file system as it was. *)
Theorem refused_path_changes_nothing (p e : string) (content : option string)
    (isDirectory : bool) (fs : FileSystem) :
  Str.truthy p = true ->
  resolveWorkspacePath server_dir cwd (Some p) = inr e ->
  api_list server_dir cwd (Some p) fs = refused fs
  /\ api_read server_dir cwd (Some p) fs = refused fs
  /\ api_save server_dir cwd (Some p) content fs = refused fs
  /\ api_create server_dir cwd (Some p) isDirectory fs = refused fs
  /\ api_delete server_dir cwd (Some p) fs = refused fs.
Proof.
  intros Hp Hr. unfold refused.
  destruct (guard_rejects_other _ _ _ _ Hr) as [-> _].
  unfold api_list, api_read, api_save, api_create, api_delete, try_catch, bind,
    lift_result, ret.
  change (truthy_field (Some p)) with (Str.truthy p). rewrite Hp.
  change (negb true) with false. cbv iota.
  change (default "" (Some p)) with p. rewrite Hr. repeat split; reflexivity.
Qed.

(** X12. Listing and reading are read-only and always answer: whatever
    the request, the file system is as it was. *)
Theorem list_and_read_change_nothing (path : option string) (fs : FileSystem) :
  (exists r, api_list server_dir cwd path fs = (inl r, fs))
  /\ (exists r, api_read server_dir cwd path fs = (inl r, fs)).
Proof.
  split.
  - unfold api_list, try_catch, bind, lift_result, ret.
    destruct (resolveWorkspacePath server_dir cwd _) as [dir|e]; [|eauto].
    destruct (Fs2.readdir fs dir); eauto.
  - unfold api_read, try_catch, bind, lift_result, fs_stat, fs_readFile, ret.
    destruct (negb (truthy_field path)); [eauto|].
    destruct (resolveWorkspacePath server_dir cwd _) as [file|e]; [|eauto].
    destruct (Fs.stat fs file) as [n|e]; [|eauto].
    destruct (Fs.isDirectory n); [eauto|].
    destruct (Fs.readFile fs file); eauto.
Qed.

Lemma child_name_spec (k key : list string) (name : string) :
  Fs2.child_name k key = Some name <-> key = k ++ [name].
Proof.
  revert key. induction k as [|a k IH]; intros key.
  - destruct key as [|b [|c key]]; simpl; split; intros Heq; try discriminate;
      injection Heq as ->; reflexivity.
  - destruct key as [|b key]; simpl; [split; discriminate|].
    destruct (String.eqb_spec a b) as [->|Hne].
    + rewrite IH. split; intros Heq; [subst; reflexivity | injection Heq as ->; reflexivity].
    + split; [discriminate|]. intros Heq. injection Heq as -> _. contradiction.
Qed.

(** The entries of a directory are the nodes one name below it. *)
Lemma children_spec (fs : FileSystem) (k : list string) (name : string) (isdir : bool) :
  (name, isdir) ∈ Fs2.children fs k
  <-> exists n, fs !! (k ++ [name]) = Some n /\ isdir = Fs.isDirectory n.
Proof.
  unfold Fs2.children. rewrite list_elem_of_omap. split.
  - intros ([key n] & Hin & Hf). apply elem_of_map_to_list in Hin. simpl in Hf.
    destruct (Fs2.child_name k key) as [name'|] eqn:Hc; [|discriminate].
    injection Hf as -> <-. apply child_name_spec in Hc. subst key. eauto.
  - intros (n & Hl & ->). exists (k ++ [name], n). split.
    + apply elem_of_map_to_list. exact Hl.
    + simpl. assert (Hc : Fs2.child_name k (k ++ [name]) = Some name).
      { apply child_name_spec. reflexivity. }
      rewrite Hc. reflexivity.
Qed.

Lemma walk_from_parent (fs : FileSystem) (rest seen : list string) (x : string)
    (v : option node) :
  Fs.walk_from fs seen (rest ++ [x]) = inl v ->
  Fs.walk_from fs seen rest = inl (Some Dir).
Proof.
  revert seen. induction rest as [|y rest IH]; intros seen; simpl.
  - destruct (Fs.lookup_node fs seen) as [[c|]|]; try discriminate. reflexivity.
  - destruct (Fs.lookup_node fs seen) as [[c|]|]; try discriminate. apply IH.
Qed.

(** X7. A saved file shows in the listing of its directory: after a save
    that answered 200, listing a path that denotes the directory of the
    file answers 200 with an item that has the name of the file and is
    no directory. *)
Theorem saved_file_is_listed (p q file : string) (content : option string)
    (fs fs' : FileSystem) (body : api_body) :
  api_save server_dir cwd (Some p) content fs = (inl (Ok200 body), fs') ->
  resolveWorkspacePath server_dir cwd (Some p) = inl file ->
  Str.truthy q = true ->
  resolveWorkspacePath server_dir cwd (Some q) = inl (Path.dirname file) ->
  exists items name,
    api_list server_dir cwd (Some q) fs' = (inl (Ok200 (ListBody q items)), fs')
    /\ List.last (Path.components file) EmptyString = name
    /\ Exists (fun it => li_name it = name /\ li_isDirectory it = false) items.
Proof.
  intros Hsave Hr Hq Hrq.
  destruct (api_save_ok_path _ _ _ _ _ Hsave) as (p' & file' & Hp' & Hp & Hr').
  injection Hp' as <-. clear Hr'.
  rewrite (api_save_run p file content fs Hp Hr) in Hsave.
  destruct (Fs.mkdir_recursive (Path.dirname file) fs) as [[[]|e] fs1]; [|discriminate].
  destruct (Fs.writeFile file (default "" content) fs1) as [[[]|e] fs2] eqn:Hw; [|discriminate].
  injection Hsave as _ <-.
  pose proof (read_after_write _ _ _ _ Hw) as Hread. apply readFile_walk in Hread.
  unfold Fs.walk in Hread.
  destruct (Path.components file) as [|y ys] eqn:Hc; [discriminate Hread|].
  destruct (removelast_last (y :: ys) y) as [x Hx]; [discriminate|].
  assert (Hlast : List.last (y :: ys) EmptyString = x).
  { rewrite Hx. apply last_last. }
  rewrite Hx in Hread.
  pose proof (walk_from_parent _ _ _ _ _ Hread) as Hdir.
  apply walk_from_lookup in Hread. rewrite app_nil_l in Hread.
  unfold api_list, try_catch, bind, lift_result, ret.
  change (truthy_field (Some q)) with (Str.truthy q). rewrite Hq.
  change (default "" (Some q)) with q. rewrite Hrq.
  unfold Fs2.readdir, Fs.walk. rewrite components_dirname, Hc, Hdir.
  eexists _, x. split; [reflexivity|]. split; [exact Hlast|].
  apply Exists_exists.
  exists {| li_name := x; li_path := Text.replace_char "\" "/" (Path.join [q; x]);
            li_isDirectory := false |}.
  split; [|split; reflexivity].
  apply list_elem_of_In, in_map_iff. exists (x, false). split; [reflexivity|].
  apply list_elem_of_In. apply children_spec.
  exists (File (default "" content)). split; [|reflexivity].
  destruct (removelast (y :: ys) ++ [x]) eqn:E; [destruct (removelast (y :: ys)); discriminate E|].
  simpl in Hread. symmetry. exact Hread.
Qed.

End FileApiProperties.

(** ** More on the apply coordinator *)

Section MoreCoordinatorProperties.

Context `{PatchLib} `{Shell}.
Variables server_dir cwd : string.

(** One round of the loop that returns appends one outcome, and one
    path exactly when the outcome succeeded on something other than a
    directory. *)
Lemma apply_action_touched (act : option action) (st : apply_state) :
  (apply_action server_dir cwd act st = None /\ selection_hangs act)
  \/ exists st' o,
       apply_action server_dir cwd act st = Some (inl tt, st')
       /\ actionsApplied st' = actionsApplied st ++ [o]
       /\ pathsTouched st' = pathsTouched st ++ touched_of [o].
Proof.
  assert (Hfail : forall (fs : FileSystem) (err : string),
             exists st' o,
               Some (@inl unit exn tt, record_outcome fs (failed act err) st)
               = Some (inl tt, st')
               /\ actionsApplied st' = actionsApplied st ++ [o]
               /\ pathsTouched st' = pathsTouched st ++ touched_of [o]).
  { intros fs err. eexists _, _; split; [reflexivity|]. simpl. split; [reflexivity|].
    symmetry; apply app_nil_r. }
  destruct (invalid_action act) eqn:Hinv.
  { right. rewrite (apply_action_invalid server_dir cwd act st Hinv).
    apply (Hfail (st_fs st)). }
  destruct act as [a|]; [|discriminate].
  simpl in Hinv. apply orb_false_elim in Hinv as [Hk Hp].
  apply negb_false_iff in Hk, Hp.
  destruct (act_action a) as [kind|] eqn:Hkind; [|discriminate].
  destruct (act_path a) as [path|] eqn:Hpath; [|discriminate].
  simpl in Hk, Hp.
  destruct (resolveWorkspacePath server_dir cwd (Some path)) as [resolved|e] eqn:Hres.
  2:{ right.
      rewrite (apply_action_refused server_dir cwd a kind path e st Hkind Hk Hpath Hp Hres).
      apply (Hfail (st_fs st)). }
  rewrite (apply_action_valid server_dir cwd a kind path resolved st Hkind Hk Hpath Hp Hres).
  unfold try_catch_d.
  destruct (String.eqb kind "create") eqn:Hc.
  { right. unfold returns. destruct (act_isDirectory a).
    - unfold bind, apply_fs, zoom, fs_mkdir_recursive, push_outcome, modify. cbv beta.
      destruct (Fs.mkdir_recursive resolved (st_fs st)) as [[[]|e] fs1]; simpl.
      + eexists _, _; split; [reflexivity|]. simpl. split; [reflexivity|].
        symmetry; apply app_nil_r.
      + apply (Hfail fs1).
    - rewrite write_whole_run.
      destruct (Fs.mkdir_recursive _ _) as [[[]|e] fs1]; [|apply (Hfail fs1)].
      destruct (Fs.writeFile _ _ _) as [[[]|e] fs2]; [|apply (Hfail fs2)].
      eexists _, _; split; [reflexivity|]. simpl. split; reflexivity. }
  destruct (String.eqb kind "edit") eqn:He.
  { apply String.eqb_eq in He. destruct (has_selection a) eqn:Hhas.
    - rewrite edit_selected_run.
      destruct (applySelectedHunks _ _ _) as [[[result_text|err]|e]|] eqn:Hsel;
        [| right; apply (Hfail (st_fs st)) | right; apply (Hfail (st_fs st)) |].
      + right. destruct (Fs.writeFile _ _ _) as [[[]|e] fs1]; [|apply (Hfail fs1)].
        eexists _, _; split; [reflexivity|]. simpl. split; reflexivity.
      + left. split; [reflexivity|]. eexists a, _. split; [reflexivity|].
        split; [rewrite Hkind, He; reflexivity|]. split; [exact Hhas | exact Hsel].
    - right. unfold returns. rewrite write_whole_run.
      destruct (Fs.mkdir_recursive _ _) as [[[]|e] fs1]; [|apply (Hfail fs1)].
      destruct (Fs.writeFile _ _ _) as [[[]|e] fs2]; [|apply (Hfail fs2)].
      eexists _, _; split; [reflexivity|]. simpl. split; reflexivity. }
  right. unfold returns.
  destruct (String.eqb kind "delete") eqn:Hd.
  { unfold bind, apply_fs, zoom, fs_rm_recursive_force, push_outcome, push_touched, modify.
    cbv beta.
    destruct (Fs.rm_recursive_force resolved (st_fs st)) as [[[]|e] fs1]; simpl.
    - eexists _, _; split; [reflexivity|]. simpl. split; reflexivity.
    - apply (Hfail fs1). }
  apply (Hfail (st_fs st)).
Qed.

Lemma touched_of_app (os1 os2 : list outcome) :
  touched_of (os1 ++ os2) = touched_of os1 ++ touched_of os2.
Proof. unfold touched_of. apply omap_app. Qed.

Lemma apply_actions_touched (acts : list (option action)) (st : apply_state) :
  (apply_actions server_dir cwd acts st = None /\ Exists selection_hangs acts)
  \/ exists st' os,
       apply_actions server_dir cwd acts st = Some (inl tt, st')
       /\ actionsApplied st' = actionsApplied st ++ os
       /\ pathsTouched st' = pathsTouched st ++ touched_of os.
Proof.
  revert st. induction acts as [|act acts IH]; intros st.
  - right. exists st, []. split; [reflexivity|]. split; symmetry; apply app_nil_r.
  - unfold apply_actions in *. cbn [for_of_d]. unfold bind_d at 1 2.
    destruct (apply_action_touched act st)
      as [[Hnone Hhang] | (st1 & o & Hrun & Ho & Ht1)].
    { left. rewrite Hnone. split; [reflexivity | left; exact Hhang]. }
    rewrite Hrun.
    destruct (IH st1) as [[Hnone Hhang] | (st2 & os & Hrest & Hos & Ht2)].
    { left. split; [exact Hnone | right; exact Hhang]. }
    right. exists st2, (o :: os). split; [exact Hrest|]. split.
    + rewrite Hos, Ho, <- app_assoc. reflexivity.
    + rewrite Ht2, Ht1, <- app_assoc. rewrite <- touched_of_app. reflexivity.
Qed.

(** X13. Where the loop over the actions returns, it does not throw, and
    the paths handed to the commit are the paths of the outcomes that
    succeeded on something other than a directory, in the order of the
    outcomes: a batch of failures and directory creations alone hands
    over no path. The loop returns unless the batch has an edit whose
    selective apply does not. *)
Theorem touched_paths_are_successes (acts : list (option action)) (fs : FileSystem) :
  (apply_actions server_dir cwd acts (loop_start fs) = None
   /\ Exists selection_hangs acts)
  \/ exists st',
       apply_actions server_dir cwd acts (loop_start fs) = Some (inl tt, st')
       /\ pathsTouched st' = touched_of (actionsApplied st').
Proof.
  destruct (apply_actions_touched acts (loop_start fs))
    as [Hnone | (st' & os & Hrun & Hos & Ht)]; [left; exact Hnone|].
  right. exists st'. split; [exact Hrun|]. rewrite Ht, Hos. reflexivity.
Qed.

(** X14. An action that is given up before any file operation changes no
    file and touches no path; its one outcome is a failure. *)
Theorem stopped_action_changes_nothing (act : option action) (st : apply_state) :
  stopped_early server_dir cwd act ->
  exists err,
    apply_action server_dir cwd act st
    = Some (inl tt, record_outcome (st_fs st) (failed act err) st).
Proof.
  intros Hstop. unfold apply_action, try_catch_d.
  destruct act as [a|]; [|eexists; reflexivity].
  destruct (invalid_action (Some a)) eqn:Hinv; [eexists; reflexivity|].
  destruct Hstop as [Hstop|(a' & Ha & Hstop)]; [congruence|].
  injection Ha as <-.
  unfold bind_d at 1. unfold returns at 1. unfold lift_result at 1.
  destruct Hstop as [[e He]|(Hc & He & Hd)].
  - rewrite He. eexists; reflexivity.
  - destruct (resolveWorkspacePath server_dir cwd _) as [resolved|e]; [|eexists; reflexivity].
    rewrite Hc, He, Hd. eexists; reflexivity.
Qed.

(** X15. A directory creation that succeeds leaves a directory at the
    path, loses nothing and touches no path; one that fails changes no
    file. *)
Theorem directory_action_makes_directory (a : action) (path resolved : string)
    (st : apply_state) :
  act_action a = Some "create" -> act_isDirectory a = true ->
  act_path a = Some path -> Str.truthy path = true ->
  resolveWorkspacePath server_dir cwd (Some path) = inl resolved ->
  exists st' o,
    apply_action server_dir cwd (Some a) st = Some (inl tt, st')
    /\ actionsApplied st' = actionsApplied st ++ [o]
    /\ pathsTouched st' = pathsTouched st
    /\ (if o_ok o
        then Fs.stat (st_fs st') resolved = inl Dir /\ st_fs st ⊆ st_fs st'
        else st_fs st' = st_fs st).
Proof.
  intros Hkind Hdir Hpath Hp Hres.
  rewrite (apply_action_valid server_dir cwd a "create" path resolved st Hkind eq_refl
             Hpath Hp Hres).
  change (String.eqb "create" "create") with true. cbv iota. rewrite Hdir.
  unfold try_catch_d, returns, bind, apply_fs, zoom, fs_mkdir_recursive, push_outcome,
    modify. cbv beta.
  destruct (Fs.mkdir_recursive resolved (st_fs st)) as [[[]|e] fs1] eqn:Hm; simpl.
  - eexists _, _; split; [reflexivity|]. simpl. repeat split.
    + apply mkdir_recursive_ok in Hm. unfold Fs.stat. rewrite (proj1 Hm). reflexivity.
    + apply mkdir_recursive_ok in Hm. apply Hm.
  - eexists _, _; split; [reflexivity|]. simpl. repeat split.
    apply mkdir_recursive_failed in Hm. exact Hm.
Qed.

End MoreCoordinatorProperties.

(** ** Start of the server *)

(** Where the creation of directories fails, a file is on the way: a
    node of the file system as it was, at a prefix of the path. *)
Lemma mkdir_from_blocked (rest seen : list string) (fs : FileSystem) (e : errno) :
  Fs.mkdir_from fs seen rest = inr e ->
  exists k c, k `prefix_of` seen ++ rest /\ fs !! k = Some (File c).
Proof.
  revert seen fs. induction rest as [|x rest IH]; intros seen fs; simpl; [discriminate|].
  destruct (fs !! (seen ++ [x])) as [[c|]|] eqn:Hk.
  - intros _. exists (seen ++ [x]), c. split; [|exact Hk].
    exists rest. rewrite <- app_assoc. reflexivity.
  - intros Hm. apply IH in Hm. destruct Hm as (k & c & Hpre & Hc).
    rewrite <- app_assoc in Hpre. eauto.
  - intros Hm. apply IH in Hm. destruct Hm as (k & c & Hpre & Hc).
    rewrite <- app_assoc in Hpre. exists k, c. split; [exact Hpre|].
    rewrite lookup_insert_ne in Hc; [exact Hc|].
    intros Heq. subst k. rewrite lookup_insert_eq in Hc. discriminate.
Qed.

(** X5. [ensureWorkspace] never throws and loses nothing. Afterwards the
    workspace root is a directory; the one exception is a file on the
    way to the root, at the root or above it, and then the file system
    is as it was. *)
Theorem ensureWorkspace_makes_root (server_dir : string) (fs : FileSystem) :
  exists fs',
    ensureWorkspace server_dir fs = (inl tt, fs')
    /\ fs ⊆ fs'
    /\ (Fs.stat fs' (WORKSPACE_ROOT server_dir) = inl Dir
        \/ (fs' = fs
            /\ exists k c, k `prefix_of` Path.components (WORKSPACE_ROOT server_dir)
                           /\ fs !! k = Some (File c))).
Proof.
  unfold ensureWorkspace, try_catch, fs_mkdir_recursive, ret.
  destruct (Fs.mkdir_recursive (WORKSPACE_ROOT server_dir) fs) as [[[]|e] fs1] eqn:Hm.
  - exists fs1. apply mkdir_recursive_ok in Hm. destruct Hm as [Hw Hsub].
    split; [reflexivity|]. split; [exact Hsub|]. left. unfold Fs.stat. rewrite Hw. reflexivity.
  - exists fs1. unfold Fs.mkdir_recursive in Hm.
    destruct (Fs.mkdir_from fs [] (Path.components (WORKSPACE_ROOT server_dir)))
      as [fs2|e2] eqn:Hfrom; [discriminate|].
    injection Hm as _ <-.
    split; [reflexivity|]. split; [reflexivity|]. right. split; [reflexivity|].
    apply mkdir_from_blocked in Hfrom. exact Hfrom.
Qed.

(** ** History *)

Section HistoryProperties.

Context `{Shell}.
Variable server_dir : string.

Lemma ensureGitRepo_run (fs : FileSystem) :
  exists fs', ensureGitRepo server_dir fs = (inl tt, fs').
Proof.
  unfold ensureGitRepo, bind, gets, try_catch, ret.
  destruct (negb (Fs.existsSync fs _)); [|eauto].
  destruct (exec "git init" (WORKSPACE_ROOT server_dir) fs) as [[out|e] fs1]; eauto.
Qed.

(** X17. The answer to a revert, for each result of the command: with
    a hash in the request the repository is made sure of first, which
    never throws, and then [git revert --no-edit] with the hash is run
    in the workspace root. Where the command succeeds the answer is 200
    with [{ ok: true }]; where it fails the answer is still 200, with
    [{ ok: false, error }] and the message of the failure. The file
    system is as the command left it. *)
Theorem revert_failure_is_reported (hash : string) (fs : FileSystem) :
  Str.truthy hash = true ->
  exists fs1,
    ensureGitRepo server_dir fs = (inl tt, fs1)
    /\ git_revert server_dir (Some hash) fs
       = match exec ("git revert --no-edit " +:+ hash) (WORKSPACE_ROOT server_dir) fs1 with
         | (inl _, fs2) => (inl (Ok200 {| g_ok := true; g_error := None |}), fs2)
         | (inr err, fs2) => (inl (Ok200 {| g_ok := false; g_error := Some err |}), fs2)
         end.
Proof.
  intros Hh. unfold git_revert, gitRevert.
  change (truthy_field (Some hash)) with (Str.truthy hash). rewrite Hh.
  change (negb true) with false. cbv iota. change (default "" (Some hash)) with hash.
  unfold try_catch at 1. unfold bind at 1. unfold bind at 1.
  destruct (ensureGitRepo_run fs) as [fs1 Hrepo]. rewrite Hrepo.
  exists fs1. split; [reflexivity|].
  unfold try_catch, bind, ret.
  destruct (exec _ (WORKSPACE_ROOT server_dir) fs1) as [[out|e] fs2]; reflexivity.
Qed.

End HistoryProperties.

(** ** What an operation leaves alone *)

Lemma mkdir_from_frame (rest seen : list string) (fs fs' : FileSystem) (k : list string) :
  Fs.mkdir_from fs seen rest = inl fs' ->
  ~ (k `prefix_of` seen ++ rest) ->
  fs' !! k = fs !! k.
Proof.
  revert seen fs. induction rest as [|x rest IH]; intros seen fs; simpl.
  - intros Heq _. injection Heq as <-. reflexivity.
  - intros Hm Hk.
    assert (Hk' : ~ (k `prefix_of` (seen ++ [x]) ++ rest)).
    { rewrite <- app_assoc. exact Hk. }
    destruct (fs !! (seen ++ [x])) as [[c|]|] eqn:Hl; try discriminate.
    + apply (IH _ _ Hm Hk').
    + rewrite (IH _ _ Hm Hk'). apply lookup_insert_ne. intros <-. apply Hk.
      apply prefix_app. exists rest. reflexivity || (simpl; reflexivity).
Qed.

Lemma prefix_removelast (k l : list string) :
  k `prefix_of` removelast l -> k `prefix_of` l.
Proof.
  intros Hk. destruct l as [|y ys]; [exact Hk|].
  destruct (removelast_last (y :: ys) y) as [x Hx]; [discriminate|].
  rewrite Hx. apply prefix_app_r. exact Hk.
Qed.

(** The three changing operations, each on its own path. *)
Lemma mkdir_recursive_frame (p : string) (fs fs' : FileSystem) (r : result unit)
    (k : list string) :
  Fs.mkdir_recursive p fs = (r, fs') ->
  ~ (k `prefix_of` Path.components p) ->
  fs' !! k = fs !! k.
Proof.
  unfold Fs.mkdir_recursive.
  destruct (Fs.mkdir_from fs [] (Path.components p)) as [fs1|e] eqn:Hm;
    intros Heq Hk; injection Heq as _ <-; [|reflexivity].
  apply (mkdir_from_frame _ _ _ _ _ Hm). exact Hk.
Qed.

Lemma writeFile_frame (p content : string) (fs fs' : FileSystem) (r : result unit)
    (k : list string) :
  Fs.writeFile p content fs = (r, fs') ->
  k <> Path.components p ->
  fs' !! k = fs !! k.
Proof.
  unfold Fs.writeFile.
  destruct (Fs.walk fs p) as [[[c|]|]|e]; intros Heq Hk; injection Heq as _ <-;
    try reflexivity; apply lookup_insert_ne; congruence.
Qed.

Lemma writeFile_exclusive_frame (p content : string) (fs fs' : FileSystem)
    (r : unit + errno * exn) (k : list string) :
  Fs2.writeFile_exclusive p content fs = (r, fs') ->
  k <> Path.components p ->
  fs' !! k = fs !! k.
Proof.
  unfold Fs2.writeFile_exclusive.
  destruct (Fs.walk fs p) as [[n|]|e]; intros Heq Hk; injection Heq as _ <-;
    try reflexivity; apply lookup_insert_ne; congruence.
Qed.

Lemma rm_recursive_force_frame (p : string) (fs fs' : FileSystem) (r : result unit)
    (k : list string) :
  Fs.rm_recursive_force p fs = (r, fs') ->
  ~ (Path.components p `prefix_of` k) ->
  fs' !! k = fs !! k.
Proof.
  unfold Fs.rm_recursive_force.
  destruct (Fs.through_file fs p); intros Heq Hk; injection Heq as _ <-; [reflexivity|].
  apply lookup_after_rm. exact Hk.
Qed.

Lemma unrelated_dirname (target : string) (k : list string) :
  unrelated target k -> ~ (k `prefix_of` Path.components (Path.dirname target)).
Proof.
  intros [Hup _] Hk. apply Hup. rewrite components_dirname in Hk.
  apply prefix_removelast, Hk.
Qed.

Lemma unrelated_not_target (target : string) (k : list string) :
  unrelated target k -> k <> Path.components target.
Proof. intros [Hup _] ->. apply Hup. reflexivity. Qed.

Section FrameProperties.

Context `{PatchLib} `{Shell}.
Variables server_dir cwd : string.

(** X23. A file handler changes nothing outside the path of its request:
    a node that is neither on the way to the resolved path nor at or
    below it is after the request what it was before, whether the request
    succeeded or not. *)
Theorem file_request_stays_on_its_path (p target : string) (content : option string)
    (isDirectory : bool) (fs : FileSystem) (k : list string) :
  resolveWorkspacePath server_dir cwd (Some p) = inl target ->
  unrelated target k ->
  snd (api_save server_dir cwd (Some p) content fs) !! k = fs !! k
  /\ snd (api_create server_dir cwd (Some p) isDirectory fs) !! k = fs !! k
  /\ snd (api_delete server_dir cwd (Some p) fs) !! k = fs !! k.
Proof.
  intros Hr Hk.
  pose proof (unrelated_dirname _ _ Hk) as Hdir.
  pose proof (unrelated_not_target _ _ Hk) as Hne.
  destruct (Str.truthy p) eqn:Hp.
  2:{ unfold api_save, api_create, api_delete, try_catch, ret.
      change (truthy_field (Some p)) with (Str.truthy p). rewrite Hp.
      repeat split; reflexivity. }
  split; [|split].
  - rewrite (api_save_run server_dir cwd p target content fs Hp Hr).
    destruct (Fs.mkdir_recursive (Path.dirname target) fs) as [[[]|e] fs1] eqn:Hm;
      [|apply (mkdir_recursive_frame _ _ _ _ _ Hm Hdir)].
    destruct (Fs.writeFile target (default "" content) fs1) as [[[]|e] fs2] eqn:Hw; simpl;
      rewrite (writeFile_frame _ _ _ _ _ _ Hw Hne);
      apply (mkdir_recursive_frame _ _ _ _ _ Hm Hdir).
  - destruct isDirectory.
    + rewrite (api_create_directory_run server_dir cwd p target fs Hp Hr).
      destruct (Fs.mkdir_recursive target fs) as [[[]|e] fs1] eqn:Hm; simpl;
        apply (mkdir_recursive_frame _ _ _ _ _ Hm (proj1 Hk)).
    + rewrite (api_create_file_run server_dir cwd p target fs Hp Hr).
      destruct (Fs.mkdir_recursive (Path.dirname target) fs) as [[[]|e] fs1] eqn:Hm;
        [|apply (mkdir_recursive_frame _ _ _ _ _ Hm Hdir)].
      destruct (Fs2.writeFile_exclusive target "" fs1) as [[[]|[[] e]] fs2] eqn:Hw; simpl;
        rewrite (writeFile_exclusive_frame _ _ _ _ _ _ Hw Hne);
        apply (mkdir_recursive_frame _ _ _ _ _ Hm Hdir).
  - rewrite (api_delete_run server_dir cwd p target fs Hp Hr).
    destruct (Fs.rm_recursive_force target fs) as [[[]|e] fs1] eqn:Hm; simpl;
      apply (rm_recursive_force_frame _ _ _ _ _ Hm (proj2 Hk)).
Qed.

(** X24. An action of a batch changes nothing outside its own path: a
    node that is neither on the way to the resolved path of the action
    nor at or below it is after the action what it was before, whatever
    the outcome. *)
Theorem action_stays_on_its_path (a : action) (resolved : string) (st st' : apply_state)
    (k : list string) :
  resolveWorkspacePath server_dir cwd (Some (default "" (act_path a))) = inl resolved ->
  unrelated resolved k ->
  apply_action server_dir cwd (Some a) st = Some (inl tt, st') ->
  st_fs st' !! k = st_fs st !! k.
Proof.
  intros Hres Hk.
  pose proof (unrelated_dirname _ _ Hk) as Hdir.
  pose proof (unrelated_not_target _ _ Hk) as Hne.
  assert (Hfail : forall (fs : FileSystem) (err : string),
             fs !! k = st_fs st !! k ->
             Some (@inl unit exn tt, record_outcome fs (failed (Some a) err) st)
             = Some (inl tt, st') ->
             st_fs st' !! k = st_fs st !! k).
  { intros fs err Hfs Heq. injection Heq as <-. exact Hfs. }
  destruct (invalid_action (Some a)) eqn:Hinv.
  { rewrite (apply_action_invalid server_dir cwd (Some a) st Hinv).
    apply (Hfail (st_fs st)). reflexivity. }
  simpl in Hinv. apply orb_false_elim in Hinv as [Hkd Hp].
  apply negb_false_iff in Hkd, Hp.
  destruct (act_action a) as [kind|] eqn:Hkind; [|discriminate].
  destruct (act_path a) as [path|] eqn:Hpath; [|discriminate].
  simpl in Hkd, Hp. change (default "" (Some path)) with path in Hres.
  rewrite (apply_action_valid server_dir cwd a kind path resolved st Hkind Hkd Hpath Hp Hres).
  assert (Hwhole : forall kd,
             try_catch_d (returns (write_whole kd path resolved (act_content a)))
               (fun err => returns (push_outcome (failed (Some a) err))) st
             = Some (inl tt, st') ->
             st_fs st' !! k = st_fs st !! k).
  { intros kd. unfold try_catch_d, returns. rewrite write_whole_run.
    destruct (Fs.mkdir_recursive _ _) as [[[]|e] fs1] eqn:Hm.
    2:{ apply (Hfail fs1 e). apply (mkdir_recursive_frame _ _ _ _ _ Hm Hdir). }
    destruct (Fs.writeFile _ _ _) as [[[]|e] fs2] eqn:Hw.
    2:{ apply (Hfail fs2 e). rewrite (writeFile_frame _ _ _ _ _ _ Hw Hne).
        apply (mkdir_recursive_frame _ _ _ _ _ Hm Hdir). }
    intros Heq. injection Heq as <-. simpl.
    rewrite (writeFile_frame _ _ _ _ _ _ Hw Hne).
    apply (mkdir_recursive_frame _ _ _ _ _ Hm Hdir). }
  destruct (String.eqb kind "create") eqn:Hc.
  { destruct (act_isDirectory a); [|apply Hwhole].
    unfold try_catch_d, returns, bind, apply_fs, zoom, fs_mkdir_recursive, push_outcome,
      modify. cbv beta.
    destruct (Fs.mkdir_recursive resolved (st_fs st)) as [[[]|e] fs1] eqn:Hm; simpl.
    - intros Heq. injection Heq as <-. simpl.
      apply (mkdir_recursive_frame _ _ _ _ _ Hm (proj1 Hk)).
    - apply (Hfail fs1 e). apply (mkdir_recursive_frame _ _ _ _ _ Hm (proj1 Hk)). }
  destruct (String.eqb kind "edit") eqn:He.
  { destruct (has_selection a); [|apply Hwhole].
    unfold try_catch_d. rewrite edit_selected_run.
    destruct (applySelectedHunks _ _ _) as [[[result_text|err]|e]|];
      [| apply (Hfail (st_fs st)); reflexivity | apply (Hfail (st_fs st)); reflexivity
       | discriminate].
    destruct (Fs.writeFile _ _ _) as [[[]|e] fs1] eqn:Hw.
    - intros Heq. injection Heq as <-. simpl. apply (writeFile_frame _ _ _ _ _ _ Hw Hne).
    - apply (Hfail fs1 e). apply (writeFile_frame _ _ _ _ _ _ Hw Hne). }
  destruct (String.eqb kind "delete") eqn:Hd.
  { unfold try_catch_d, returns, bind, apply_fs, zoom, fs_rm_recursive_force, push_outcome,
      push_touched, modify. cbv beta.
    destruct (Fs.rm_recursive_force resolved (st_fs st)) as [[[]|e] fs1] eqn:Hm; simpl.
    - intros Heq. injection Heq as <-. simpl.
      apply (rm_recursive_force_frame _ _ _ _ _ Hm (proj2 Hk)).
    - apply (Hfail fs1 e). apply (rm_recursive_force_frame _ _ _ _ _ Hm (proj2 Hk)). }
  unfold try_catch_d, returns. apply (Hfail (st_fs st)). reflexivity.
Qed.

End FrameProperties.

(** ** The archive script *)

(** The child of a directory in normal form. *)
Lemma join_child (comps : list string) (name : string) :
  Forall plain_name comps -> plain_name name ->
  Path.join ["/" +:+ Str.join "/" comps; name] = "/" +:+ Str.join "/" (comps ++ [name]).
Proof.
  intros Hc Hn. pose proof Hn as [[Ht Hs] _].
  unfold Path.join.
  rewrite filter_cons_True by reflexivity. rewrite filter_cons_True by exact Ht.
  rewrite filter_nil.
  set (dir := "/" +:+ Str.join "/" comps).
  change (Str.join "/" [dir; name]) with (dir +:+ String Str.slash name).
  unfold Path.normalize.
  assert (Hne : Str.is_empty (dir +:+ String Str.slash name) = false) by reflexivity.
  assert (Ha : Path.isAbsolute (dir +:+ String Str.slash name) = true) by reflexivity.
  assert (Htr : Path.hasTrailingSeparator (dir +:+ String Str.slash name) = false).
  { unfold Path.hasTrailingSeparator.
    change (String Str.slash name) with ("/" +:+ name). rewrite <- append_assoc.
    rewrite last_append by (destruct name; [discriminate | reflexivity]).
    destruct (Str.last name) as [c|] eqn:Ec; [|reflexivity].
    apply (count_zero_last _ _ _ Hs Ec). }
  rewrite Hne, Ha, Htr. simpl negb.
  assert (Hsegs : Path.normalizeSegments false (dir +:+ String Str.slash name)
                  = comps ++ [name]).
  { unfold Path.normalizeSegments. rewrite split_append, fold_left_app.
    unfold dir. rewrite fold_push_normal_form by exact Hc.
    rewrite split_single by exact Hs. simpl fold_left.
    rewrite push_segment_plain by exact Hn. simpl. rewrite rev_involutive. reflexivity. }
  unfold Path.normalizeString. rewrite Hsegs.
  rewrite join_not_empty by exact Ht. reflexivity.
Qed.

(** A path in normal form resolves to itself. *)
Lemma resolve_normal (cwd : string) (comps : list string) :
  Forall plain_name comps ->
  Path.resolve cwd ["/" +:+ Str.join "/" comps] = "/" +:+ Str.join "/" comps.
Proof.
  intros Hc. unfold Path.resolve. simpl rev. simpl Path.resolve_scan.
  change (Str.is_empty ("/" +:+ Str.join "/" comps)) with false.
  change (Path.isAbsolute ("/" +:+ Str.join "/" comps)) with true. cbv iota beta.
  simpl negb. unfold Path.normalizeString, Path.normalizeSegments.
  change (("/" +:+ Str.join "/" comps) +:+ "/" +:+ "")
    with (("/" +:+ Str.join "/" comps) +:+ String Str.slash EmptyString).
  rewrite split_append, fold_left_app, fold_push_normal_form by exact Hc.
  change (Str.split Str.slash EmptyString) with [EmptyString]. simpl fold_left.
  change (Path.push_segment false (rev comps) "") with (rev comps).
  rewrite rev_involutive. reflexivity.
Qed.

Lemma common_app (l r : list string) : Zip.common l (l ++ r) = length l.
Proof.
  induction l as [|x l IH]; [destruct r; reflexivity|].
  simpl. rewrite String.eqb_refl, IH. reflexivity.
Qed.

(** The relative path of what lies below the working directory. *)
Lemma relative_below (cwd : string) (cwdc names : list string) :
  Forall plain_name cwdc -> Forall plain_name names ->
  Zip.relative cwd ("/" +:+ Str.join "/" cwdc) ("/" +:+ Str.join "/" (cwdc ++ names))
  = Str.join "/" names.
Proof.
  intros Hc Hn.
  assert (Hall : Forall plain_name (cwdc ++ names)) by (apply Forall_app; auto).
  unfold Zip.relative. rewrite !resolve_normal by assumption.
  rewrite !components_of_join
    by (eapply Forall_impl; [eassumption | apply plain_component]).
  rewrite common_app, Nat.sub_diag. simpl List.repeat.
  rewrite skipn_app, skipn_all, Nat.sub_diag. reflexivity.
Qed.

Lemma fold_absorbs {A : Type} (f : list Zip.entry -> A -> result (list Zip.entry))
    (items : list A) (e : exn) :
  fold_left (fun acc item => match acc with inr e => inr e | inl a => f a item end)
    items (inr e) = inr e.
Proof. induction items as [|x items IH]; [reflexivity | exact IH]. Qed.

(** What holds of the archive before a loop, and is kept by every
    round, holds after the loop. *)
Lemma fold_keeps {A : Type} (P : list Zip.entry -> Prop)
    (f : list Zip.entry -> A -> result (list Zip.entry)) (items : list A)
    (arch res : list Zip.entry) :
  (forall item a r, In item items -> P a -> f a item = inl r -> P r) ->
  P arch ->
  fold_left (fun acc item => match acc with inr e => inr e | inl a => f a item end)
    items (inl arch) = inl res ->
  P res.
Proof.
  revert arch. induction items as [|x items IH]; intros arch Hstep Harch Hfold.
  - injection Hfold as <-. exact Harch.
  - simpl in Hfold. destruct (f arch x) as [a|e] eqn:Hf.
    + apply (IH a); [|apply (Hstep x arch a); [left; reflexivity | exact Harch | exact Hf]
                     |exact Hfold].
      intros item a' r Hin. apply Hstep. right. exact Hin.
    + rewrite fold_absorbs in Hfold. discriminate.
Qed.

Lemma walk_from_snoc (fs : FileSystem) (rest seen : list string) (x : string) :
  Fs.walk_from fs seen rest = inl (Some Dir) ->
  Fs.walk_from fs seen (rest ++ [x]) = inl (Fs.lookup_node fs (seen ++ rest ++ [x])).
Proof.
  revert seen. induction rest as [|y rest IH]; intros seen; simpl.
  - intros Heq. injection Heq as ->. reflexivity.
  - destruct (Fs.lookup_node fs seen) as [[c|]|]; try discriminate.
    intros Hw. rewrite (IH _ Hw), <- app_assoc. reflexivity.
Qed.

Lemma lookup_node_snoc (fs : FileSystem) (k : list string) (x : string) :
  Fs.lookup_node fs (k ++ [x]) = fs !! (k ++ [x]).
Proof. destruct k; reflexivity. Qed.

(** In a tree the walk of a path ends at the node of the path. *)
Lemma tree_walk (fs : FileSystem) (k : list string) (n : node) :
  tree fs -> Fs.lookup_node fs k = Some n -> Fs.walk_from fs [] k = inl (Some n).
Proof.
  intros Htree. revert n. induction k as [|x k IH] using rev_ind; intros n Hn.
  - simpl in *. rewrite Hn. reflexivity.
  - rewrite lookup_node_snoc in Hn. pose proof (Htree _ _ _ Hn) as Hk.
    rewrite (walk_from_snoc _ _ _ _ (IH _ Hk)). simpl. rewrite lookup_node_snoc, Hn.
    reflexivity.
Qed.

(** In a tree what lies above a node is a directory. *)
Lemma tree_above (fs : FileSystem) (k r : list string) (n : node) :
  tree fs -> fs !! (k ++ r) = Some n -> r <> [] -> Fs.lookup_node fs k = Some Dir.
Proof.
  intros Htree. revert n. induction r as [|x r IH] using rev_ind; intros n Hn Hne;
    [contradiction|].
  rewrite app_assoc in Hn. pose proof (Htree _ _ _ Hn) as Hk.
  destruct r as [|y r]; [rewrite app_nil_r in Hk; exact Hk|].
  assert (Hl : Fs.lookup_node fs (k ++ y :: r) = fs !! (k ++ y :: r))
    by (destruct k; reflexivity).
  rewrite Hl in Hk. apply (IH _ Hk). discriminate.
Qed.

(** A loop whose every round succeeds and loses nothing succeeds,
    loses nothing, and holds at its end what a round is sure to add. *)
Lemma fold_collects {A : Type} (f : list Zip.entry -> A -> result (list Zip.entry))
    (items : list A) (arch : list Zip.entry) :
  (forall item a, In item items -> exists r, f a item = inl r /\ incl a r) ->
  exists res,
    fold_left (fun acc item => match acc with inr e => inr e | inl a => f a item end)
      items (inl arch) = inl res
    /\ incl arch res
    /\ forall item e, In item items -> (forall a r, f a item = inl r -> In e r) -> In e res.
Proof.
  revert arch. induction items as [|x items IH]; intros arch Hstep.
  - exists arch. split; [reflexivity|]. split; [apply incl_refl|]. intros item e [].
  - destruct (Hstep x arch (or_introl eq_refl)) as (r & Hf & Hincl).
    destruct (IH r) as (res & Hfold & Hres & Hall).
    { intros item a Hin. apply Hstep. right. exact Hin. }
    exists res. split; [simpl; rewrite Hf; exact Hfold|].
    split; [eapply incl_tran; eassumption|].
    intros item e [<-|Hin] He.
    + apply Hres. apply (He arch r Hf).
    + apply (Hall item e Hin He).
Qed.

Lemma reachable_snoc (below : list string) (name : string) :
  reachable below -> Zip.excluded (Str.join "/" (below ++ [name])) = false ->
  reachable (below ++ [name]).
Proof.
  intros Hb Hex p Hne Hp.
  destruct (decide (p = below ++ [name])) as [->|Hneq]; [exact Hex|].
  apply Hb; [exact Hne|]. destruct Hp as [q Hq].
  destruct q as [|y q] using rev_ind; [rewrite app_nil_r in Hq; congruence|].
  rewrite app_assoc in Hq. apply app_inj_tail in Hq. destruct Hq as [-> _].
  exists q. reflexivity.
Qed.

Section ArchiveProperties.

Variable fs : FileSystem.
Variable cwdc : list string.
Hypothesis fs_plain : plain_names fs.
Hypothesis cwd_plain : Forall plain_name cwdc.

Lemma addDir_sound (depth : nat) (below : list string) (arch res : list Zip.entry) :
  Forall plain_name below -> reachable below ->
  Zip.addDir depth fs ("/" +:+ Str.join "/" cwdc) ("/" +:+ Str.join "/" (cwdc ++ below)) arch
  = inl res ->
  Forall (archived_well fs cwdc) arch -> Forall (archived_well fs cwdc) res.
Proof.
  revert below arch res. induction depth as [|depth IH]; intros below arch res Hb Hreach;
    [discriminate|].
  assert (Hdir : Forall plain_name (cwdc ++ below)) by (apply Forall_app; auto).
  simpl Zip.addDir. unfold Fs2.readdir.
  rewrite components_of_join by (eapply Forall_impl; [exact Hdir | apply plain_component]).
  destruct (Fs.walk fs _) as [[[c|]|]|e]; try discriminate.
  intros Hfold Harch.
  refine (fold_keeps (Forall (archived_well fs cwdc))
            (fun archive (item : string * bool) =>
               let full := Path.join ["/" +:+ Str.join "/" (cwdc ++ below); item.1] in
               let rel := Zip.relative ("/" +:+ Str.join "/" cwdc)
                            ("/" +:+ Str.join "/" cwdc) full in
               if Zip.excluded rel then inl archive
               else if item.2
                    then Zip.addDir depth fs ("/" +:+ Str.join "/" cwdc) full archive
                    else inl (archive ++ [{| Zip.e_full := full; Zip.e_name := rel |}]))
            _ arch res _ Harch Hfold).
  intros [name isdir] a r Hin Ha. cbv zeta. simpl fst. simpl snd.
  apply list_elem_of_In, children_spec in Hin. destruct Hin as (n & Hl & ->).
  pose proof (fs_plain _ _ Hl) as Hkey.
  apply Forall_app in Hkey as Hkey'. destruct Hkey' as [_ Hname].
  inversion Hname as [|? ? Hn _]; subst.
  rewrite join_child by assumption.
  rewrite <- app_assoc.
  rewrite relative_below by (try assumption; apply Forall_app; auto).
  destruct (Zip.excluded (Str.join "/" (below ++ [name]))) eqn:Hex.
  { intros Heq. injection Heq as <-. exact Ha. }
  pose proof (reachable_snoc _ _ Hreach Hex) as Hreach'.
  destruct n as [content|]; simpl Fs.isDirectory; cbv iota.
  - intros Heq. injection Heq as <-. apply Forall_app. split; [exact Ha|].
    constructor; [|constructor].
    exists (below ++ [name]), content.
    split; [destruct below; discriminate|]. split; [reflexivity|].
    split; [rewrite app_assoc; exact Hl | exact Hreach'].
  - intros Hrec.
    apply (IH (below ++ [name]) a r); [apply Forall_app; auto | exact Hreach' | exact Hrec
                                      | exact Ha].
Qed.

(** X26. Whatever [zip.js] puts into the archive is a regular file below
    the working directory, queued under its path relative to this
    directory, and no pattern excludes this path or the path of a
    directory above it: nothing under [node_modules] or [.git] at the
    top and not the archive itself. *)
Theorem archive_holds_no_excluded_file (depth : nat) (res : list Zip.entry) :
  Zip.run depth fs ("/" +:+ Str.join "/" cwdc) = inl res ->
  Forall (archived_well fs cwdc) res.
Proof.
  unfold Zip.run. intros Hrun.
  apply (addDir_sound depth [] [] res); [constructor | | | constructor].
  - intros p Hne [q Hq]. destruct p; [contradiction | discriminate Hq].
  - rewrite app_nil_r. exact Hrun.
Qed.

Hypothesis fs_tree : tree fs.

Lemma addDir_complete (depth : nat) (below : list string) (arch : list Zip.entry) :
  Forall plain_name below ->
  Fs.lookup_node fs (cwdc ++ below) = Some Dir ->
  (forall names n, fs !! (cwdc ++ below ++ names) = Some n -> length names <= depth) ->
  exists res,
    Zip.addDir (S depth) fs ("/" +:+ Str.join "/" cwdc)
      ("/" +:+ Str.join "/" (cwdc ++ below)) arch = inl res
    /\ incl arch res
    /\ forall names content,
         names <> [] -> fs !! (cwdc ++ below ++ names) = Some (File content) ->
         reachable (below ++ names) ->
         In (entry_at cwdc (below ++ names)) res.
Proof.
  revert below arch. induction depth as [|depth IH]; intros below arch Hb Hdirnode Hbound.
  all: assert (Hdir : Forall plain_name (cwdc ++ below)) by (apply Forall_app; auto).
  all: simpl Zip.addDir; unfold Fs2.readdir;
    rewrite components_of_join by (eapply Forall_impl; [exact Hdir | apply plain_component]);
    unfold Fs.walk;
    rewrite components_of_join by (eapply Forall_impl; [exact Hdir | apply plain_component]);
    rewrite (tree_walk _ _ _ fs_tree Hdirnode).
  - (* no nesting left: the directory has no entry *)
    assert (Hnone : Fs2.children fs (cwdc ++ below) = []).
    { destruct (Fs2.children fs (cwdc ++ below)) as [|[name isdir] l] eqn:E; [reflexivity|].
      assert (Hin : (name, isdir) ∈ Fs2.children fs (cwdc ++ below)).
      { rewrite E. left. }
      apply children_spec in Hin. destruct Hin as (n & Hl & _).
      rewrite <- app_assoc in Hl. apply Hbound in Hl. simpl in Hl. lia. }
    rewrite Hnone. exists arch. split; [reflexivity|]. split; [apply incl_refl|].
    intros names content Hne Hl _. apply Hbound in Hl. destruct names; [contradiction|].
    simpl in Hl. lia.
  - set (f := fun (archive : list Zip.entry) (item : string * bool) =>
               let full := Path.join ["/" +:+ Str.join "/" (cwdc ++ below); item.1] in
               let rel := Zip.relative ("/" +:+ Str.join "/" cwdc)
                            ("/" +:+ Str.join "/" cwdc) full in
               if Zip.excluded rel then inl archive
               else if item.2
                    then Zip.addDir (S depth) fs ("/" +:+ Str.join "/" cwdc) full archive
                    else inl (archive ++ [{| Zip.e_full := full; Zip.e_name := rel |}])).
    assert (Hf : forall (name : string) (n : node) (a : list Zip.entry),
               fs !! (cwdc ++ below ++ [name]) = Some n ->
               f a (name, Fs.isDirectory n)
               = if Zip.excluded (Str.join "/" (below ++ [name])) then inl a
                 else match n with
                      | Dir => Zip.addDir (S depth) fs ("/" +:+ Str.join "/" cwdc)
                                 ("/" +:+ Str.join "/" (cwdc ++ below ++ [name])) a
                      | File _ => inl (a ++ [entry_at cwdc (below ++ [name])])
                      end).
    { intros name n a Hl. unfold f. cbv zeta. simpl fst. simpl snd.
      pose proof (fs_plain _ _ Hl) as Hkey. rewrite app_assoc in Hkey.
      apply Forall_app in Hkey as Hkey'. destruct Hkey' as [_ Hname].
      inversion Hname as [|? ? Hn _]; subst.
      rewrite join_child by assumption. rewrite <- app_assoc.
      rewrite relative_below by (try assumption; apply Forall_app; auto).
      destruct n; reflexivity. }
    assert (Hsub : forall (name : string) (a : list Zip.entry),
               fs !! (cwdc ++ below ++ [name]) = Some Dir ->
               exists res,
                 Zip.addDir (S depth) fs ("/" +:+ Str.join "/" cwdc)
                   ("/" +:+ Str.join "/" (cwdc ++ below ++ [name])) a = inl res
                 /\ incl a res
                 /\ forall names content,
                      names <> [] ->
                      fs !! (cwdc ++ (below ++ [name]) ++ names) = Some (File content) ->
                      reachable ((below ++ [name]) ++ names) ->
                      In (entry_at cwdc ((below ++ [name]) ++ names)) res).
    { intros name a Hl.
      pose proof (fs_plain _ _ Hl) as Hkey. rewrite app_assoc in Hkey.
      apply Forall_app in Hkey as Hkey'. destruct Hkey' as [_ Hname].
      inversion Hname as [|? ? Hn _]; subst.
      destruct (IH (below ++ [name]) a) as (res & Hrun & Hincl & Hall).
      - apply Forall_app; auto.
      - rewrite app_assoc, lookup_node_snoc, <- app_assoc. exact Hl.
      - intros names n Hnames. rewrite <- !app_assoc in Hnames. apply Hbound in Hnames.
        simpl in Hnames. lia.
      - exists res. auto. }
    destruct (fold_collects f (Fs2.children fs (cwdc ++ below)) arch) as (res & Hfold & Hincl & Hall).
    { intros [name isdir] a Hin.
      apply list_elem_of_In, children_spec in Hin. destruct Hin as (n & Hl & ->).
      rewrite <- app_assoc in Hl. rewrite (Hf name n a Hl).
      destruct (Zip.excluded _); [exists a; split; [reflexivity | apply incl_refl]|].
      destruct n as [content|].
      - eexists; split; [reflexivity|]. apply incl_appl, incl_refl.
      - destruct (Hsub name a Hl) as (r & Hr & Hi & _). exists r. auto. }
    exists res. split; [exact Hfold|]. split; [exact Hincl|].
    intros names content Hne Hl Hreach.
    destruct names as [|name rest]; [contradiction|].
    assert (Hex : Zip.excluded (Str.join "/" (below ++ [name])) = false).
    { apply Hreach; [destruct below; discriminate|].
      exists rest. rewrite <- app_assoc. reflexivity. }
    destruct rest as [|y rest].
    + apply (Hall (name, Fs.isDirectory (File content))).
      * apply list_elem_of_In, children_spec. exists (File content).
        rewrite <- app_assoc. auto.
      * intros a r. rewrite (Hf name (File content) a Hl), Hex.
        intros Heq. injection Heq as <-. apply in_or_app. right. left. reflexivity.
    + assert (Hparent : fs !! (cwdc ++ below ++ [name]) = Some Dir).
      { replace (cwdc ++ below ++ name :: y :: rest)
          with ((cwdc ++ below ++ [name]) ++ y :: rest) in Hl
          by (rewrite <- !app_assoc; reflexivity).
        pose proof (tree_above _ _ _ _ fs_tree Hl) as Hk.
        rewrite app_assoc, lookup_node_snoc, <- app_assoc in Hk. apply Hk. discriminate. }
      apply (Hall (name, Fs.isDirectory Dir)).
      * apply list_elem_of_In, children_spec. exists Dir. rewrite <- app_assoc. auto.
      * intros a r. rewrite (Hf name Dir a Hparent), Hex.
        destruct (Hsub name a Hparent) as (r' & Hr' & _ & Hin'). rewrite Hr'.
        intros Heq. injection Heq as <-.
        replace (below ++ name :: y :: rest) with ((below ++ [name]) ++ y :: rest)
          by (rewrite <- app_assoc; reflexivity).
        apply (Hin' (y :: rest) content); [discriminate | |].
        -- rewrite <- app_assoc. exact Hl.
        -- rewrite <- app_assoc. exact Hreach.
Qed.

(** X27. With room for the nesting of the directories, [zip.js] ends
    without an error, and every regular file below the working directory
    that the walk gets to is in the archive, under its relative path. *)
Theorem archive_holds_every_other_file (depth : nat) :
  Fs.lookup_node fs cwdc = Some Dir ->
  (forall names n, fs !! (cwdc ++ names) = Some n -> length names <= depth) ->
  exists res,
    Zip.run (S depth) fs ("/" +:+ Str.join "/" cwdc) = inl res
    /\ forall names content,
         names <> [] -> fs !! (cwdc ++ names) = Some (File content) -> reachable names ->
         In (entry_at cwdc names) res.
Proof.
  intros Hroot Hbound. unfold Zip.run.
  destruct (addDir_complete depth [] []) as (res & Hrun & _ & Hall).
  - constructor.
  - rewrite app_nil_r. exact Hroot.
  - exact Hbound.
  - rewrite app_nil_r in Hrun. exists res. split; [exact Hrun|]. exact Hall.
Qed.

End ArchiveProperties.

Section SelectiveEditProperties.

Context `{PatchLib} `{Shell}.
Variables server_dir cwd : string.

(** X25. An edit with a hunk selection creates no directory and changes
    no node but the file it names: every other node is after the action
    what it was before, whatever the outcome. *)
Theorem selective_edit_changes_one_file (a : action) (path resolved : string)
    (st st' : apply_state) (k : list string) :
  act_action a = Some "edit" -> has_selection a = true ->
  act_path a = Some path -> Str.truthy path = true ->
  resolveWorkspacePath server_dir cwd (Some path) = inl resolved ->
  apply_action server_dir cwd (Some a) st = Some (inl tt, st') ->
  k <> Path.components resolved ->
  st_fs st' !! k = st_fs st !! k.
Proof.
  intros Hkind Hsel Hpath Hp Hres Hrun Hk.
  rewrite (apply_action_valid server_dir cwd a "edit" path resolved st Hkind eq_refl
             Hpath Hp Hres) in Hrun.
  change (String.eqb "edit" "create") with false in Hrun.
  change (String.eqb "edit" "edit") with true in Hrun. cbv iota in Hrun.
  rewrite Hsel in Hrun. unfold try_catch_d in Hrun. rewrite edit_selected_run in Hrun.
  destruct (applySelectedHunks _ _ _) as [[[result_text|err]|e]|]; [| | |discriminate].
  - destruct (Fs.writeFile _ _ _) as [[[]|e] fs1] eqn:Hw; injection Hrun as <-; simpl;
      apply (writeFile_frame _ _ _ _ _ _ Hw Hk).
  - injection Hrun as <-. reflexivity.
  - injection Hrun as <-. reflexivity.
Qed.

End SelectiveEditProperties.

(** ** What the round trips leave open *)

Lemma join_snoc_sep (sep : string) (l : list string) (x : string) :
  l <> [] -> Str.join sep (l ++ [x]) = Str.join sep l +:+ sep +:+ x.
Proof.
  intros Hne. induction l as [|y l IH]; [contradiction|].
  destruct l as [|z l]; [reflexivity|].
  change (Str.join sep ((y :: z :: l) ++ [x]))
    with (y +:+ sep +:+ Str.join sep ((z :: l) ++ [x])).
  rewrite IH by discriminate.
  change (Str.join sep (y :: z :: l)) with (y +:+ sep +:+ Str.join sep (z :: l)).
  rewrite !append_assoc. reflexivity.
Qed.

(** Reading a text in two parts, where the second part does not
    start with a quote. *)
Lemma scan_in_quotes (c : ascii) (rest : string) (st : Csv.state) :
  Csv.inQuotes st = true ->
  Csv.scan (String c rest) st
  = if Ascii.eqb c Csv.quote then
      match rest with
      | String nxt rest' =>
          if Ascii.eqb nxt Csv.quote then Csv.scan rest' (Csv.add_char Csv.quote st)
          else Csv.scan rest {| Csv.rows := Csv.rows st; Csv.cur := Csv.cur st;
                                Csv.curCell := Csv.curCell st; Csv.inQuotes := false |}
      | EmptyString =>
          Csv.scan rest {| Csv.rows := Csv.rows st; Csv.cur := Csv.cur st;
                           Csv.curCell := Csv.curCell st; Csv.inQuotes := false |}
      end
    else Csv.scan rest (Csv.add_char c st).
Proof. intros Hq. simpl. rewrite Hq. reflexivity. Qed.

Lemma scan_outside (c : ascii) (rest : string) (st : Csv.state) :
  Csv.inQuotes st = false ->
  exists st', forall rest, Csv.scan (String c rest) st = Csv.scan rest st'.
Proof.
  intros Hq. simpl. rewrite Hq.
  repeat match goal with |- context [if ?x then _ else _] => destruct x end;
    eexists; intros; reflexivity.
Qed.

Lemma scan_then (a b : string) (st : Csv.state) :
  next_is_no_quote b -> Csv.scan (a +:+ b) st = Csv.scan b (Csv.scan a st).
Proof.
  intros Hb.
  assert (Hboth : forall n a st, String.length a <= n ->
             Csv.scan (a +:+ b) st = Csv.scan b (Csv.scan a st)).
  { clear a st. induction n as [|n IH]; intros a st Hlen.
    - destruct a; [reflexivity | simpl in Hlen; lia].
    - destruct a as [|c a]; [reflexivity|]. simpl in Hlen.
      change (String c a +:+ b) with (String c (a +:+ b)).
      destruct (Csv.inQuotes st) eqn:Hq.
      + rewrite (scan_in_quotes c (a +:+ b) st Hq), (scan_in_quotes c a st Hq).
        destruct (Ascii.eqb c Csv.quote); [|apply IH; lia].
        destruct a as [|d a'].
        * change (EmptyString +:+ b) with b.
          destruct b as [|e b']; [reflexivity|]. simpl in Hb. rewrite Hb. reflexivity.
        * change (String d a' +:+ b) with (String d (a' +:+ b)). cbv beta iota.
          destruct (Ascii.eqb d Csv.quote).
          { apply IH. simpl in Hlen. lia. }
          { change (String d (a' +:+ b)) with (String d a' +:+ b). apply IH. lia. }
      + destruct (scan_outside c a st Hq) as [st' Hst'].
        rewrite (Hst' (a +:+ b)), (Hst' a). apply IH. lia. }
  apply (Hboth (String.length a)). lia.
Qed.

(** X28. A last row that is one empty cell does not come back: the sheet
    written with such a row after its other rows reads back as the other
    rows alone. *)
Theorem csv_drops_final_empty_row (table : list (list string)) :
  table <> [] ->
  Forall (fun row => row <> [] /\ Forall one_line row) table ->
  Csv.parseCSV (Csv.serialize (table ++ [[EmptyString]])) = table.
Proof.
  intros Hne Hall. unfold Csv.parseCSV.
  assert (Hs : Csv.serialize (table ++ [[EmptyString]]) = Csv.serialize table +:+ Str.nl).
  { unfold Csv.serialize. rewrite map_app. simpl map.
    rewrite join_snoc_sep by (destruct table; [contradiction | discriminate]).
    change (Str.join "," [Csv.serialize_cell ""]) with EmptyString.
    rewrite append_empty_r. reflexivity. }
  rewrite Hs. destruct table as [|row table]; [contradiction|].
  cbv zeta. rewrite scan_then by reflexivity. rewrite scan_table by exact Hall.
  change Str.nl with (String Str.newline EmptyString).
  rewrite scan_line_feed by reflexivity. cbn [Csv.scan Csv.rows Csv.cur Csv.curCell app].
  assert (Hlast : List.last (row :: table) [] <> []).
  { clear Hs Hne. revert row Hall. induction table as [|r table IH]; intros row Hall.
    - inversion Hall as [|? ? [Hr _] _]; subst. exact Hr.
    - inversion Hall as [|? ? _ Hall']; subst. apply (IH r Hall'). }
  change (Str.truthy "" || negb (Nat.eqb (length (@nil string)) 0)) with false. cbv iota.
  rewrite <- (app_removelast_last (l := List.last (row :: table) []) EmptyString) by exact Hlast.
  rewrite <- (app_removelast_last (l := row :: table) []) by discriminate.
  reflexivity.
Qed.

Section CreateProperties.

Variables server_dir cwd : string.

(** X29. A created file is empty: where nothing is at the resolved path,
    after a creation of a file that answered 200, reading the path
    answers 200 with the empty text, whether or not the directories above
    it had to be created. *)
Theorem created_file_is_empty (p target : string) (fs fs' : FileSystem) (body : api_body) :
  resolveWorkspacePath server_dir cwd (Some p) = inl target ->
  Path.components target <> [] -> fs !! Path.components target = None ->
  api_create server_dir cwd (Some p) false fs = (inl (Ok200 body), fs') ->
  api_read server_dir cwd (Some p) fs' = (inl (Ok200 (ReadBody p "")), fs').
Proof.
  intros Hr Hne Hnone Hc.
  destruct (api_create_ok_path _ _ _ _ _ _ _ Hc) as (p' & t' & Hp' & Hp & _).
  injection Hp' as <-.
  rewrite (api_create_file_run server_dir cwd p target fs Hp Hr) in Hc.
  destruct (Fs.mkdir_recursive (Path.dirname target) fs) as [[[]|e] fs1] eqn:Hm; [|discriminate].
  assert (Hsame : fs1 !! Path.components target = None).
  { rewrite (mkdir_recursive_frame _ _ _ _ _ Hm); [exact Hnone|].
    rewrite components_dirname. intros Hpre. apply prefix_length in Hpre.
    destruct (removelast_last (Path.components target) EmptyString Hne) as [x Hx].
    rewrite Hx in Hpre at 1. rewrite length_app in Hpre. simpl in Hpre. lia. }
  apply mkdir_recursive_ok in Hm. destruct Hm as [Hdir _].
  unfold Fs.walk in Hdir. rewrite components_dirname in Hdir.
  destruct (removelast_last (Path.components target) EmptyString Hne) as [x Hx].
  assert (Hwalk : Fs.walk fs1 target = inl None).
  { unfold Fs.walk. rewrite Hx, (walk_from_snoc _ _ _ _ Hdir). simpl app.
    rewrite lookup_node_snoc, <- Hx, Hsame. reflexivity. }
  unfold Fs2.writeFile_exclusive in Hc. rewrite Hwalk in Hc. injection Hc as _ <-.
  rewrite (api_read_run server_dir cwd p target _ Hp Hr).
  assert (Hread : Fs.walk (<[Path.components target := File ""]> fs1) target
                  = inl (Some (File ""))).
  { unfold Fs.walk in *.
    apply (walk_from_insert (File "") (Path.components target) [] fs1 None Hwalk).
    exact Hne. }
  rewrite Hread. reflexivity.
Qed.

End CreateProperties.

(** ** Examples of the theorems with a hypothesis *)

Lemma guard_accepts_plain_names_witness :
  resolveWorkspacePath app_dir root_dir (Some (Str.join "/" ["src"; "a.txt"]))
  = inl (WORKSPACE_ROOT app_dir +:+ "/" +:+ Str.join "/" ["src"; "a.txt"])
  /\ Path.components (WORKSPACE_ROOT app_dir +:+ "/" +:+ Str.join "/" ["src"; "a.txt"])
     = Path.components (WORKSPACE_ROOT app_dir) ++ ["src"; "a.txt"].
Proof.
  apply (guard_accepts_plain_names app_dir root_dir eq_refl ["src"; "a.txt"]).
  - discriminate.
  - repeat constructor; discriminate.
Defined.

Lemma guard_default_is_root_witness :
  resolveWorkspacePath app_dir root_dir None = inl (WORKSPACE_ROOT app_dir)
  /\ resolveWorkspacePath app_dir root_dir (Some EmptyString) = inl (WORKSPACE_ROOT app_dir)
  /\ resolveWorkspacePath app_dir root_dir (Some ".") = inl (WORKSPACE_ROOT app_dir).
Proof. exact (guard_default_is_root app_dir root_dir eq_refl). Defined.

Lemma guard_returns_normal_form_witness :
  "/app/workspace/a.txt" = "/" +:+ Str.join "/" (Path.components "/app/workspace/a.txt")
  /\ Forall plain_name (Path.components "/app/workspace/a.txt").
Proof.
  exact (guard_returns_normal_form app_dir root_dir eq_refl (Some "src/../a.txt")
           "/app/workspace/a.txt" eq_refl).
Defined.

Lemma guard_admits_every_such_sibling_witness :
  exists resolved,
    resolveWorkspacePath app_dir root_dir (Some ("../workspace" +:+ "-evil")) = inl resolved
    /\ ~ within_workspace app_dir resolved.
Proof.
  exact (guard_admits_every_such_sibling app_dir root_dir eq_refl "-evil" eq_refl eq_refl).
Defined.

Lemma csv_round_trip_witness : Csv.parseCSV (Csv.serialize sheet_1) = sheet_1.
Proof.
  apply (csv_round_trip sheet_1). split.
  - repeat constructor; discriminate.
  - discriminate.
Defined.

Lemma repair_isolates_object_witness :
  Str.head (lightweightRepair answer_1) = Some "{"%char
  /\ Str.last (lightweightRepair answer_1) = Some "}"%char.
Proof.
  apply (repair_isolates_object answer_1).
  exists 13, 31. vm_compute. repeat split; lia.
Defined.

Lemma log_parsing_reads_back_witness :
  parse_log (log_output [commit_1; commit_1]) = map entry_of [commit_1; commit_1].
Proof. apply (log_parsing_reads_back [commit_1; commit_1]). repeat constructor. Defined.

Lemma revert_failure_is_reported_witness :
  exists fs1,
    ensureGitRepo app_dir fresh_workspace = (inl tt, fs1)
    /\ git_revert app_dir (Some "1f3a") fresh_workspace
       = match exec ("git revert --no-edit " +:+ "1f3a") (WORKSPACE_ROOT app_dir) fs1 with
         | (inl _, fs2) => (inl (Ok200 {| g_ok := true; g_error := None |}), fs2)
         | (inr err, fs2) => (inl (Ok200 {| g_ok := false; g_error := Some err |}), fs2)
         end.
Proof. apply (revert_failure_is_reported app_dir "1f3a" fresh_workspace). reflexivity. Defined.

Lemma stream_decoding_round_trip_witness :
  Stream.on_message EmptyString (Stream.escape ("a" +:+ Str.nl +:+ "b"))
  = "a" +:+ Str.nl +:+ "b"
  <-> Stream.has_backslash_n ("a" +:+ Str.nl +:+ "b") = false.
Proof. apply (stream_decoding_round_trip ("a" +:+ Str.nl +:+ "b")). reflexivity. Defined.

Lemma saved_file_reads_back_witness :
  api_read app_dir root_dir (Some "d/a.txt") saved_1
  = (inl (Ok200 (ReadBody "d/a.txt" "hi")), saved_1).
Proof.
  apply (saved_file_reads_back app_dir root_dir (Some "d/a.txt") (Some "hi") fresh_workspace
           saved_1 (OkBody "d/a.txt" None)).
  reflexivity.
Defined.

Lemma create_keeps_existing_witness :
  api_create app_dir root_dir (Some "f") false workspace_with_f
  = (inl (Ok200 (OkBody "f" (Some false))), workspace_with_f).
Proof.
  apply (create_keeps_existing app_dir root_dir "f" "/app/workspace/f" workspace_with_f);
    reflexivity.
Defined.

Lemma created_directory_is_directory_witness :
  api_read app_dir root_dir (Some "d/e") made_1
  = (inl (Error 400 "path is directory"), made_1)
  /\ fresh_workspace ⊆ made_1.
Proof.
  apply (created_directory_is_directory app_dir root_dir (Some "d/e") fresh_workspace
           made_1 (OkBody "d/e" (Some true))).
  reflexivity.
Defined.

Lemma deleted_path_is_gone_witness :
  (exists e, api_read app_dir root_dir (Some "f") deleted_1 = (inl (Error 400 e), deleted_1))
  /\ api_delete app_dir root_dir (Some "f") deleted_1
     = (inl (Ok200 (OkBody "f" None)), deleted_1).
Proof.
  apply (deleted_path_is_gone app_dir root_dir (Some "f") workspace_with_f
           deleted_1 (OkBody "f" None)).
  reflexivity.
Defined.

Lemma refused_path_changes_nothing_witness :
  api_list app_dir root_dir (Some "../../etc") fresh_workspace = refused fresh_workspace
  /\ api_read app_dir root_dir (Some "../../etc") fresh_workspace = refused fresh_workspace
  /\ api_save app_dir root_dir (Some "../../etc") (Some "x") fresh_workspace
     = refused fresh_workspace
  /\ api_create app_dir root_dir (Some "../../etc") true fresh_workspace
     = refused fresh_workspace
  /\ api_delete app_dir root_dir (Some "../../etc") fresh_workspace = refused fresh_workspace.
Proof.
  exact (refused_path_changes_nothing app_dir root_dir "../../etc"
           "Path outside workspace forbidden" (Some "x") true fresh_workspace
           eq_refl eq_refl).
Defined.

Lemma saved_file_is_listed_witness :
  exists items name,
    api_list app_dir root_dir (Some "d") saved_1 = (inl (Ok200 (ListBody "d" items)), saved_1)
    /\ List.last (Path.components "/app/workspace/d/a.txt") EmptyString = name
    /\ Exists (fun it => li_name it = name /\ li_isDirectory it = false) items.
Proof.
  apply (saved_file_is_listed app_dir root_dir "d/a.txt" "d" "/app/workspace/d/a.txt"
           (Some "hi") fresh_workspace saved_1 (OkBody "d/a.txt" None)); reflexivity.
Defined.

Lemma stopped_action_changes_nothing_witness :
  exists err,
    apply_action app_dir root_dir (Some delete_passwd) (loop_start workspace_with_f)
    = Some (inl tt,
            record_outcome (st_fs (loop_start workspace_with_f))
              (failed (Some delete_passwd) err) (loop_start workspace_with_f)).
Proof.
  apply (stopped_action_changes_nothing app_dir root_dir (Some delete_passwd)
           (loop_start workspace_with_f)).
  right. exists delete_passwd. split; [reflexivity|]. left. eexists. reflexivity.
Defined.

Lemma directory_action_makes_directory_witness :
  exists st' o,
    apply_action app_dir root_dir (Some create_dir_d) (loop_start fresh_workspace)
    = Some (inl tt, st')
    /\ actionsApplied st' = actionsApplied (loop_start fresh_workspace) ++ [o]
    /\ pathsTouched st' = pathsTouched (loop_start fresh_workspace)
    /\ (if o_ok o
        then Fs.stat (st_fs st') "/app/workspace/d" = inl Dir
             /\ st_fs (loop_start fresh_workspace) ⊆ st_fs st'
        else st_fs st' = st_fs (loop_start fresh_workspace)).
Proof.
  exact (directory_action_makes_directory app_dir root_dir create_dir_d "d"
           "/app/workspace/d" (loop_start fresh_workspace) eq_refl eq_refl eq_refl eq_refl
           eq_refl).
Defined.

Lemma file_request_stays_on_its_path_witness :
  snd (api_save app_dir root_dir (Some "d/a.txt") (Some "hi") workspace_with_f) !! key_of_f
  = workspace_with_f !! key_of_f
  /\ snd (api_create app_dir root_dir (Some "d/a.txt") false workspace_with_f) !! key_of_f
     = workspace_with_f !! key_of_f
  /\ snd (api_delete app_dir root_dir (Some "d/a.txt") workspace_with_f) !! key_of_f
     = workspace_with_f !! key_of_f.
Proof.
  apply (file_request_stays_on_its_path app_dir root_dir "d/a.txt" "/app/workspace/d/a.txt"
           (Some "hi") false workspace_with_f key_of_f eq_refl).
  split; intros [x Hx]; vm_compute in Hx; discriminate Hx.
Defined.

Lemma action_stays_on_its_path_witness :
  st_fs after_create_a !! key_of_f = st_fs (loop_start workspace_with_f) !! key_of_f.
Proof.
  apply (action_stays_on_its_path app_dir root_dir create_a_txt "/app/workspace/a.txt"
           (loop_start workspace_with_f) after_create_a key_of_f eq_refl).
  - split; intros [x Hx]; vm_compute in Hx; discriminate Hx.
  - reflexivity.
Defined.

(** The keys of a file system written as a chain of insertions. *)
Ltac lookup_cases H :=
  repeat (apply lookup_insert_Some in H; destruct H as [[<- <-]|[_ H]]);
  try (rewrite lookup_empty in H; discriminate H).

Lemma project_plain : plain_names project.
Proof.
  intros k n Hl. unfold project in Hl. lookup_cases Hl; repeat constructor; discriminate.
Qed.

Lemma snoc_inj (k : list string) (x : string) (l : list string) (y : string) :
  l ++ [y] = k ++ [x] -> k = l.
Proof. intros Heq. apply app_inj_tail in Heq. symmetry. apply Heq. Qed.

Lemma project_tree : tree project.
Proof.
  intros k x n Hl. unfold project in Hl.
  repeat (apply lookup_insert_Some in Hl; destruct Hl as [[Hk _]|[_ Hl]];
          [first [ apply (snoc_inj _ _ [_; _; _]) in Hk
                 | apply (snoc_inj _ _ [_; _]) in Hk
                 | apply (snoc_inj _ _ [_]) in Hk
                 | apply (snoc_inj _ _ []) in Hk ]; subst k; reflexivity|]).
  rewrite lookup_empty in Hl. discriminate Hl.
Qed.

Lemma project_depth (names : list string) (n : node) :
  project !! (["p"] ++ names) = Some n -> length names <= 3.
Proof.
  intros Hl. unfold project in Hl.
  repeat (apply lookup_insert_Some in Hl; destruct Hl as [[Hk _]|[_ Hl]];
          [injection Hk as <-; simpl; lia|]).
  rewrite lookup_empty in Hl. discriminate Hl.
Qed.

Lemma archive_holds_no_excluded_file_witness :
  Forall (archived_well project ["p"]) project_archive.
Proof.
  apply (archive_holds_no_excluded_file project ["p"] project_plain
           ltac:(repeat constructor; discriminate) 5 project_archive).
  reflexivity.
Defined.

Lemma archive_holds_every_other_file_witness :
  exists res,
    Zip.run 4 project "/p" = inl res
    /\ forall names content,
         names <> [] -> project !! (["p"] ++ names) = Some (File content) -> reachable names ->
         In (entry_at ["p"] names) res.
Proof.
  apply (archive_holds_every_other_file project ["p"] project_plain
           ltac:(repeat constructor; discriminate) project_tree 3 eq_refl project_depth).
Defined.

Lemma selective_edit_changes_one_file_witness :
  Fs.readFile (st_fs after_edit_f) "/app/workspace/f" = inl text_b
  /\ st_fs after_edit_f !! key_of_root = st_fs (loop_start workspace_with_f) !! key_of_root.
Proof.
  split; [reflexivity|].
  apply (selective_edit_changes_one_file app_dir root_dir edit_f_original "f"
           "/app/workspace/f" (loop_start workspace_with_f) after_edit_f key_of_root);
    try reflexivity.
  vm_compute. discriminate.
Defined.

Lemma csv_drops_final_empty_row_witness :
  Csv.parseCSV (Csv.serialize (sheet_1 ++ [[EmptyString]])) = sheet_1.
Proof.
  apply (csv_drops_final_empty_row sheet_1).
  - discriminate.
  - repeat constructor; discriminate.
Defined.

Lemma created_file_is_empty_witness :
  api_read app_dir root_dir (Some "d/e/new.txt") created_1
  = (inl (Ok200 (ReadBody "d/e/new.txt" "")), created_1).
Proof.
  apply (created_file_is_empty app_dir root_dir "d/e/new.txt" "/app/workspace/d/e/new.txt"
           fresh_workspace created_1 (OkBody "d/e/new.txt" (Some false)));
    try reflexivity.
  vm_compute. discriminate.
Defined.

